(** * react-native-sqlite-table: schema reconciliation, rebuild and insert validation

    A shallow embedding of the TypeScript sources

      - [SQLiteTable/schema/SchemaRegistry.ts]  (the Registry),
      - [schema/createTable], [schema/rebuild]  (table creation, Rebuild Strategy),
      - [schema/reconcile]                      (Reconcile Engine, Migration Runner),
      - [crud/insert], [utils/prep], [utils/sql] (row validation, statement batches),
      - [utils/dialect], [utils/normalize], [utils/serializer],
        [utils/materialize]                     (quoting, column specs, reading rows),
      - [core/SQLiteTable]                      (the constructor and the methods),

    over a small relational model of the SQLite store they drive.

    Conventions of the embedding.
      - A [Promise<void>] that resolves or rejects is a computation in the
        monad [M]: a function from the world to [Ok] or [Err], the world
        being threaded through both outcomes (a rejected promise leaves the
        effects of the statements that already ran).
      - SQL text that the schema code and [insert] generate is kept
        structured ([Stmt]); text supplied by the caller is [Raw] and is
        given meaning by the host.  [update], [delete] and [findByKeyValue]
        are embedded with the text they render, which is [Raw] as well.
      - An optional statement batch that is absent is the empty list: the
        source tests every batch with [batch?.length], which does not
        distinguish the two.
      - Strings are sequences of 8-bit characters; [toLowerCase] and [trim]
        act on the ASCII range.
      - A JavaScript object is the list of its entries in [Object.entries]
        order, one entry per key.
      - The engine compares column names without regard to case where it
        rejects duplicates; tables are looked up by their exact name, and
        the library always uses the one name [ctx.tableName].
      - Column affinity conversions of SQLite are not modelled: a value is
        stored as it is bound, and handed back as it is stored.
      - [open] is what [SQLiteTable.open] runs on a connection it has just
        opened; [insertMany], [update] and [delete] are what the methods
        run once the connection is open.  The methods with the handle
        cached in the object are [SQLiteTable_open], [SQLiteTable_close]
        and [SQLiteTable_insertMany]; calls that overlap in time are not
        modelled. *)

From Stdlib Require Import String Ascii List ZArith Bool Lia DecimalString.
Import ListNotations.

Open Scope string_scope.
Open Scope Z_scope.
Open Scope list_scope.

Set Implicit Arguments.

(* ================================================================= *)
(** ** JavaScript values and the built-ins the sources call *)

(** The values a row object, a column default or a bound parameter can hold. *)
Inductive JsVal : Type :=
| JUndefined
| JNull
| JStr (s : string)
| JNum (z : Z)             (* a number whose value is an integer *)
| JNonInt (repr : string)  (* any other number (fraction, NaN, Infinity) *)
| JBool (b : bool)
| JObj (json : string)     (* a plain object or array *)
| JBytes (b : string).     (* a Uint8Array *)

(** [SqlParam] of types.ts is a subset of the JavaScript values; the sources
    cast to it without a check. *)
Definition SqlParam := JsVal.

Definition is_undefined (v : JsVal) : bool :=
  match v with JUndefined => true | _ => false end.

Definition is_null (v : JsVal) : bool :=
  match v with JNull => true | _ => false end.

(** JavaScript truthiness, as used by [def ? '1' : '0'] and [value ? 1 : 0]. *)
Definition truthy (v : JsVal) : bool :=
  match v with
  | JUndefined | JNull => false
  | JStr s => negb (String.eqb s "")
  | JNum z => negb (z =? 0)
  | JNonInt r => negb (String.eqb r "NaN")
  | JBool b => b
  | JObj _ | JBytes _ => true
  end.

(** [Number.isInteger] and [Number.isSafeInteger]. *)
Definition Number_isInteger (v : JsVal) : bool :=
  match v with JNum _ => true | _ => false end.

Definition MAX_SAFE_INTEGER : Z := 2 ^ 53 - 1.

Definition Number_isSafeInteger (v : JsVal) : bool :=
  match v with
  | JNum z => (- MAX_SAFE_INTEGER <=? z) && (z <=? MAX_SAFE_INTEGER)
  | _ => false
  end.

(** [typeof v]. *)
Inductive JsType : Type := TyUndefined | TyObject | TyString | TyNumber | TyBoolean.

Definition typeof (v : JsVal) : JsType :=
  match v with
  | JUndefined => TyUndefined
  | JNull | JObj _ | JBytes _ => TyObject
  | JStr _ => TyString
  | JNum _ | JNonInt _ => TyNumber
  | JBool _ => TyBoolean
  end.

Definition JsType_eqb (a b : JsType) : bool :=
  match a, b with
  | TyUndefined, TyUndefined | TyObject, TyObject | TyString, TyString
  | TyNumber, TyNumber | TyBoolean, TyBoolean => true
  | _, _ => false
  end.

(** [String.prototype.toLowerCase], on the ASCII letters. *)
Definition lower_ascii (c : ascii) : ascii :=
  let n := N_of_ascii c in
  if ((65 <=? n) && (n <=? 90))%N then ascii_of_N (n + 32) else c.

Fixpoint toLowerCase (s : string) : string :=
  match s with
  | EmptyString => EmptyString
  | String c s' => String (lower_ascii c) (toLowerCase s')
  end.

(** [String.prototype.trim]: white space is removed from both ends. *)
Definition is_space (c : ascii) : bool :=
  let n := N_of_ascii c in
  ((9 <=? n) && (n <=? 13) || (n =? 32))%N.

Fixpoint trimStart (s : string) : string :=
  match s with
  | EmptyString => EmptyString
  | String c s' => if is_space c then trimStart s' else s
  end.

Fixpoint rev_string (acc s : string) : string :=
  match s with
  | EmptyString => acc
  | String c s' => rev_string (String c acc) s'
  end.

Definition trim (s : string) : string :=
  rev_string "" (trimStart (rev_string "" (trimStart s))).

(** [Array.prototype.includes] on strings. *)
Definition includes (l : list string) (x : string) : bool :=
  existsb (String.eqb x) l.

(** A JavaScript object used as an ordered record: [Object.entries] order,
    one entry per key.  [obj_set] is the assignment [o[k] = v]. *)
Definition Obj (V : Type) := list (string * V).

Fixpoint obj_get {V} (o : Obj V) (k : string) : option V :=
  match o with
  | [] => None
  | (k', v) :: o' => if String.eqb k' k then Some v else obj_get o' k
  end.

Fixpoint obj_set {V} (o : Obj V) (k : string) (v : V) : Obj V :=
  match o with
  | [] => [(k, v)]
  | (k', v') :: o' => if String.eqb k' k then (k', v) :: o' else (k', v') :: obj_set o' k v
  end.

Definition obj_keys {V} (o : Obj V) : list string := map fst o.

(** [typedEntries] of utils/functions: [Object.entries]. *)
Definition typedEntries {V} (o : Obj V) : list (string * V) := o.

Definition nonempty {A} (l : list A) : bool :=
  match l with [] => false | _ :: _ => true end.

(* ================================================================= *)
(** ** types.ts: column specifications *)

Inductive ColumnType : Type := TEXT | INTEGER | REAL | BOOLEAN | BLOB.

(** [ColumnSpecNorm].  An absent [default] is [JUndefined] (the sources test
    [spec.default !== undefined]); an absent [unique] is [false]. *)
Record ColumnSpecNorm : Type := {
  cs_type : ColumnType;
  cs_nullable : bool;
  cs_default : JsVal;
  cs_unique : bool;
  cs_check : option string
}.

Definition ColumnMapNorm := Obj ColumnSpecNorm.

Definition SQLITE_RESERVED_PRIMARY_KEY : string := "row_id".
Definition REG_TABLE_NAME : string := "__sp_schema".

(* ================================================================= *)
(** ** The store: a relational model of the SQLite database file *)

(** Stored values. *)
Inductive SqlVal : Type :=
| VNull
| VInt (z : Z)
| VReal (repr : string)
| VText (s : string)
| VBlob (b : string).

Definition SqlVal_eqb (a b : SqlVal) : bool :=
  match a, b with
  | VNull, VNull => true
  | VInt x, VInt y => x =? y
  | VReal x, VReal y => String.eqb x y
  | VText x, VText y => String.eqb x y
  | VBlob x, VBlob y => String.eqb x y
  | _, _ => false
  end.

Definition SqlVal_is_null (a : SqlVal) : bool :=
  match a with VNull => true | _ => false end.

(** The literal of a DEFAULT clause, as [formatDefault] renders it: the
    keyword NULL, bare text (a number), or a quoted string whose quotes are
    escaped by doubling. *)
Inductive Literal : Type :=
| LitNull
| LitBare (text : string)
| LitQuoted (s : string).

Definition parse_int (s : string) : option Z :=
  option_map Z.of_int (NilZero.int_of_string s).

Definition literalValue (l : Literal) : SqlVal :=
  match l with
  | LitNull => VNull
  | LitBare t => match parse_int t with Some z => VInt z | None => VReal t end
  | LitQuoted s => VText s
  end.

Inductive KeyKind : Type := NoKey | PrimaryKey | PrimaryKeyAuto.

(** One column definition of a CREATE TABLE statement. *)
Record ColDef : Type := {
  cd_name : string;
  cd_type : ColumnType;
  cd_key : KeyKind;
  cd_notnull : bool;
  cd_unique : bool;
  cd_check : option string;
  cd_default : option Literal
}.

Definition Row := Obj SqlVal.

(** A table: its columns, its rows in rowid order, and the largest rowid
    handed out so far (the sqlite_sequence entry of an AUTOINCREMENT key). *)
Record Table : Type := {
  t_defs : list ColDef;
  t_rows : list Row;
  t_seq : Z
}.

Record Index : Type := {
  ix_name : string;
  ix_table : string;
  ix_col : string
}.

Record Db : Type := {
  tables : Obj Table;
  indexes : list Index
}.

Definition find_table (db : Db) (name : string) : option Table :=
  obj_get (tables db) name.

Definition col_names (t : Table) : list string := map cd_name (t_defs t).

Definition row_get (r : Row) (c : string) : SqlVal :=
  match obj_get r c with Some v => v | None => VNull end.

(** A statement handed to the driver.  [Stmt] of types.ts is SQL text with
    optional parameters; the text the library itself generates is kept in
    structured form here, the caller's text is [Raw]. *)
Inductive Stmt : Type :=
| Raw (sql : string) (params : list SqlParam)
| Pragma (text : string)
| CreateTable (if_not_exists : bool) (name : string) (defs : list ColDef)
| CreateIndex (if_not_exists : bool) (idx tbl col : string)
| InsertSelect (dst : string) (cols : list string) (src : string)
| DropTable (name : string)
| RenameTable (old new : string)
| InsertValues (tbl : string) (cols : list string) (vals : list SqlParam)
| InsertDefaults (tbl : string)
| UpsertVersion (tbl : string) (version now : Z).

(** What the embedding takes from its host: the engine's reading of the
    caller's SQL text and of CHECK expressions, and the two JavaScript
    built-ins that render a value as text. *)
Record Host : Type := {
  rawExec : string -> list SqlParam -> Db -> option Db;
  checkExpr : string -> Row -> bool;
  js_String : JsVal -> string;
  JSON_stringify : JsVal -> string
}.

Fixpoint nodupb (l : list string) : bool :=
  match l with
  | [] => true
  | x :: l' => negb (includes l' x) && nodupb l'
  end.

(** Column names are compared without regard to case by the engine. *)
Definition distinct_ci (names : list string) : bool :=
  nodupb (map toLowerCase names).

Definition new_table (defs : list ColDef) : Table :=
  {| t_defs := defs; t_rows := []; t_seq := 0 |}.

Definition create_table (ine : bool) (name : string) (defs : list ColDef) (db : Db)
  : option Db :=
  match find_table db name with
  | Some _ => if ine then Some db else None
  | None =>
      if nonempty defs && distinct_ci (map cd_name defs)
      then Some {| tables := tables db ++ [(name, new_table defs)];
                   indexes := indexes db |}
      else None
  end.

Definition drop_table (name : string) (db : Db) : option Db :=
  match find_table db name with
  | None => None
  | Some _ =>
      Some {| tables := filter (fun e => negb (String.eqb (fst e) name)) (tables db);
              indexes := filter (fun i => negb (String.eqb (ix_table i) name)) (indexes db) |}
  end.

Definition rename_table (old new : string) (db : Db) : option Db :=
  match find_table db old, find_table db new with
  | Some _, None =>
      Some {| tables := map (fun e => if String.eqb (fst e) old then (new, snd e) else e)
                            (tables db);
              indexes := map (fun i => if String.eqb (ix_table i) old
                                       then {| ix_name := ix_name i; ix_table := new;
                                               ix_col := ix_col i |}
                                       else i) (indexes db) |}
  | _, _ => None
  end.

Definition set_table (db : Db) (name : string) (t : Table) : Db :=
  {| tables := map (fun e => if String.eqb (fst e) name then (name, t) else e) (tables db);
     indexes := indexes db |}.

Definition is_key (d : ColDef) : bool :=
  match cd_key d with NoKey => false | _ => true end.

Definition is_auto (d : ColDef) : bool :=
  match cd_key d with PrimaryKeyAuto => true | _ => false end.

(** The value a new row gets in column [d]: the supplied one, else the next
    rowid for the AUTOINCREMENT key, else the declared default, else NULL. *)
Definition cell (seq : Z) (given : Row) (d : ColDef) : SqlVal :=
  match obj_get given (cd_name d) with
  | Some v => if is_auto d && SqlVal_is_null v then VInt (seq + 1) else v
  | None =>
      if is_auto d then VInt (seq + 1)
      else match cd_default d with
           | Some l => literalValue l
           | None => VNull
           end
  end.

Definition new_row (seq : Z) (given : Row) (defs : list ColDef) : Row :=
  map (fun d => (cd_name d, cell seq given d)) defs.

Definition notnull_ok (defs : list ColDef) (r : Row) : bool :=
  forallb (fun d => negb (cd_notnull d) || negb (SqlVal_is_null (row_get r (cd_name d))))
          defs.

Definition unique_ok (defs : list ColDef) (rows : list Row) (r : Row) : bool :=
  forallb (fun d =>
             negb (cd_unique d || is_key d)
             || SqlVal_is_null (row_get r (cd_name d))
             || negb (existsb (fun r' => SqlVal_eqb (row_get r' (cd_name d))
                                                    (row_get r (cd_name d))) rows))
          defs.

Definition bump (seq : Z) (defs : list ColDef) (r : Row) : Z :=
  fold_left (fun s d => if is_auto d
                        then match row_get r (cd_name d) with
                             | VInt z => Z.max s z
                             | _ => s
                             end
                        else s) defs seq.

Section Engine.

Variable H : Host.

Definition check_ok (defs : list ColDef) (r : Row) : bool :=
  forallb (fun d => match cd_check d with
                    | Some e => checkExpr H e r
                    | None => true
                    end) defs.

(** INSERT of one row, the supplied cells given by column name. *)
Definition insert_row (t : Table) (given : Row) : option Table :=
  if forallb (fun e => includes (col_names t) (fst e)) given
  then
    let r := new_row (t_seq t) given (t_defs t) in
    if notnull_ok (t_defs t) r && unique_ok (t_defs t) (t_rows t) r
       && check_ok (t_defs t) r
    then Some {| t_defs := t_defs t;
                 t_rows := t_rows t ++ [r];
                 t_seq := bump (t_seq t) (t_defs t) r |}
    else None
  else None.

Fixpoint insert_rows (t : Table) (givens : list Row) : option Table :=
  match givens with
  | [] => Some t
  | g :: gs =>
      match insert_row t g with
      | Some t' => insert_rows t' gs
      | None => None
      end
  end.

(** INSERT INTO dst (cols) SELECT cols FROM src. *)
Definition insert_select (dst : string) (cols : list string) (src : string) (db : Db)
  : option Db :=
  match find_table db dst, find_table db src with
  | Some td, Some ts =>
      if forallb (includes (col_names ts)) cols
      then match insert_rows td (map (fun r => map (fun c => (c, row_get r c)) cols)
                                     (t_rows ts)) with
           | Some td' => Some (set_table db dst td')
           | None => None
           end
      else None
  | _, _ => None
  end.

(** How the driver binds a parameter. *)
Definition bindParam (v : SqlParam) : SqlVal :=
  match v with
  | JUndefined | JNull => VNull
  | JStr s => VText s
  | JNum z => VInt z
  | JNonInt r => VReal r
  | JBool b => VInt (if b then 1 else 0)
  | JObj j => VText j
  | JBytes b => VBlob b
  end.

Definition insert_values (tbl : string) (cols : list string) (vals : list SqlParam)
           (db : Db) : option Db :=
  match find_table db tbl with
  | Some t =>
      if (length cols =? length vals)%nat
      then match insert_row t (combine cols (map bindParam vals)) with
           | Some t' => Some (set_table db tbl t')
           | None => None
           end
      else None
  | None => None
  end.

Definition insert_defaults (tbl : string) (db : Db) : option Db :=
  match find_table db tbl with
  | Some t =>
      match insert_row t [] with
      | Some t' => Some (set_table db tbl t')
      | None => None
      end
  | None => None
  end.

Definition create_index (ine : bool) (idx tbl col : string) (db : Db) : option Db :=
  if existsb (fun i => String.eqb (ix_name i) idx) (indexes db)
  then (if ine then Some db else None)
  else match find_table db tbl with
       | Some t =>
           if includes (col_names t) col
           then Some {| tables := tables db;
                        indexes := indexes db ++ [{| ix_name := idx; ix_table := tbl;
                                                     ix_col := col |}] |}
           else None
       | None => None
       end.

(** INSERT INTO registry(table_name, version, updated_at) VALUES (?, ?, ?)
    ON CONFLICT(table_name) DO UPDATE SET version, updated_at. *)
Definition upsert_version (tbl : string) (version now : Z) (db : Db) : option Db :=
  match find_table db REG_TABLE_NAME with
  | Some t =>
      if includes (col_names t) "table_name" && includes (col_names t) "version"
         && includes (col_names t) "updated_at"
      then
        if existsb (fun r => SqlVal_eqb (row_get r "table_name") (VText tbl)) (t_rows t)
        then Some (set_table db REG_TABLE_NAME
                     {| t_defs := t_defs t;
                        t_rows := map (fun r =>
                                         if SqlVal_eqb (row_get r "table_name") (VText tbl)
                                         then obj_set (obj_set r "version" (VInt version))
                                                      "updated_at" (VInt now)
                                         else r) (t_rows t);
                        t_seq := t_seq t |})
        else match insert_row t [("table_name", VText tbl); ("version", VInt version);
                                 ("updated_at", VInt now)] with
             | Some t' => Some (set_table db REG_TABLE_NAME t')
             | None => None
             end
      else None
  | None => None
  end.

(** One statement; [None] is an engine error, which leaves the store as
    it was. *)
Definition exec (s : Stmt) (db : Db) : option Db :=
  match s with
  | Raw sql params => rawExec H sql params db
  | Pragma _ => Some db
  | CreateTable ine name defs => create_table ine name defs db
  | CreateIndex ine idx tbl col => create_index ine idx tbl col db
  | InsertSelect dst cols src => insert_select dst cols src db
  | DropTable name => drop_table name db
  | RenameTable old new => rename_table old new db
  | InsertValues tbl cols vals => insert_values tbl cols vals db
  | InsertDefaults tbl => insert_defaults tbl db
  | UpsertVersion tbl version now => upsert_version tbl version now db
  end.

(** The statements of one transaction: all of them, or none. *)
Fixpoint exec_all (ss : list Stmt) (db : Db) : option Db :=
  match ss with
  | [] => Some db
  | s :: ss' =>
      match exec s db with
      | Some db' => exec_all ss' db'
      | None => None
      end
  end.

End Engine.

(* ================================================================= *)
(** ** The world and the monad of asynchronous calls *)

(** A call of [setTableVersion]: the table, the version the Registry held
    when the call was made, and the version passed.  The list of calls is
    ghost state: it records what the library asked for, whatever the
    caller's statements do to the store. *)
Record VersionWrite : Type := {
  vw_table : string;
  vw_recorded : Z;
  vw_version : Z
}.

(** The store behind the open connection ([ctx.db]), the clock read by
    [Date.now()], the text produced by [Math.random().toString(36).slice(2)],
    and the recorded Registry calls. *)
Record World : Type := {
  w_db : Db;
  w_now : Z;
  w_rand : string;
  w_writes : list VersionWrite
}.

Definition with_db (w : World) (db : Db) : World :=
  {| w_db := db; w_now := w_now w; w_rand := w_rand w; w_writes := w_writes w |}.

(** What a rejected promise or a thrown [Error] carries. *)
Inductive Error : Type :=
| ESql (s : Stmt)                      (* the engine rejected a statement *)
| ETransaction (ss : list Stmt)        (* a transaction was rolled back *)
| EQuery (what : string)               (* a read transaction failed *)
| EUnsupportedColumnType (t : ColumnType)
| ECannotBeNull (k : string)
| EMustBeString (k : string)
| ECannotBeEmptyString (k : string)
| EMustBeInteger (k : string)
| EOutOfSafeRange (k : string)
| EMustBeBoolean (k : string)
| EMustBeObject (k : string)
| EUnknownColumn (k : string)
| ECustom (msg : string)
| EOutOfFuel.

Inductive Res (A : Type) : Type :=
| Ok (a : A) (w : World)
| Err (e : Error) (w : World).

Arguments Ok {A} a w.
Arguments Err {A} e w.

Definition M (A : Type) : Type := World -> Res A.

Definition ret {A} (a : A) : M A := fun w => Ok a w.

Definition throw {A} (e : Error) : M A := fun w => Err e w.

Definition bind {A B} (m : M A) (k : A -> M B) : M B :=
  fun w => match m w with
           | Ok a w' => k a w'
           | Err e w' => Err e w'
           end.

Notation "x <- m ;; k" := (bind m (fun x => k))
  (at level 61, m at next level, right associativity).
Notation "m ;;; k" := (bind m (fun _ => k))
  (at level 61, right associativity).

(** [if (cond) await m;] *)
Definition when (c : bool) (m : M unit) : M unit := if c then m else ret tt.

Definition world_of {A} (r : Res A) : World :=
  match r with Ok _ w => w | Err _ w => w end.

(** An [Error] thrown by synchronous code, before any promise exists. *)
Definition lift {A} (x : Error + A) : M A :=
  match x with inl e => throw e | inr a => ret a end.

Fixpoint mapE {A B} (f : A -> Error + B) (l : list A) : Error + list B :=
  match l with
  | [] => inr []
  | a :: l' =>
      match f a with
      | inl e => inl e
      | inr b => match mapE f l' with
                 | inl e => inl e
                 | inr bs => inr (b :: bs)
                 end
      end
  end.

(* ================================================================= *)
(** ** The library *)

Definition regDefs : list ColDef :=
  [ {| cd_name := "table_name"; cd_type := TEXT; cd_key := PrimaryKey;
       cd_notnull := false; cd_unique := false; cd_check := None; cd_default := None |};
    {| cd_name := "version"; cd_type := INTEGER; cd_key := NoKey;
       cd_notnull := true; cd_unique := false; cd_check := None; cd_default := None |};
    {| cd_name := "updated_at"; cd_type := INTEGER; cd_key := NoKey;
       cd_notnull := true; cd_unique := false; cd_check := None; cd_default := None |} ].

Definition REG_INDEX_NAME : string := (REG_TABLE_NAME ++ "_ver_idx")%string.

(** [Number(cell)] of a version cell.  The Registry writes integers only;
    a cell that is no integer reads as 0 here. *)
Definition Number_of_cell (v : SqlVal) : Z :=
  match v with VInt z => z | _ => 0 end.

(** SELECT version FROM registry WHERE table_name = ? *)
Definition select_version (db : Db) (table : string) : option (list SqlVal) :=
  match find_table db REG_TABLE_NAME with
  | Some t =>
      if includes (col_names t) "version" && includes (col_names t) "table_name"
      then Some (map (fun r => row_get r "version")
                     (filter (fun r => SqlVal_eqb (row_get r "table_name") (VText table))
                             (t_rows t)))
      else None
  | None => None
  end.

(** The version the Registry holds for a table, 0 when it holds none. *)
Definition tableVersion (db : Db) (table : string) : Z :=
  match select_version db table with
  | Some (v :: _) => Number_of_cell v
  | _ => 0
  end.

(** PRAGMA table_info(table): the column names, none for a missing table. *)
Definition table_info (db : Db) (table : string) : list string :=
  match find_table db table with
  | Some t => col_names t
  | None => []
  end.

(** The reserved identity column, first in every table the library creates. *)
Definition pkDef : ColDef :=
  {| cd_name := SQLITE_RESERVED_PRIMARY_KEY; cd_type := INTEGER; cd_key := PrimaryKeyAuto;
     cd_notnull := false; cd_unique := false; cd_check := None; cd_default := None |}.

(** *** types.ts and schema/reconcile: the DDL plan *)

(** A custom procedure of a Migration Step: an async function of the
    migration context, given as the tree of the context calls it awaits.
    A call that rejects rejects the procedure. *)
Inductive Custom : Type :=
| CDone
| CThrow (msg : string)
| CRun (sql : string) (params : list SqlParam) (k : Custom)
| CApplyTxn (stmts : list Stmt) (k : Custom)
| CApplyNoTxn (stmts : list Stmt) (k : Custom)
| CRebuildPreserveData (k : Custom)
| CGetExistingColumns (k : list string -> Custom).

Inductive Strategy : Type := alter | rebuild.

Record MigrationStep : Type := {
  st_to : Z;
  st_preNoTxn : list Stmt;
  st_txn : list Stmt;
  st_postNoTxn : list Stmt;
  st_strategy : option Strategy;
  st_custom : option Custom
}.

Record DDLOption : Type := {
  version : Z;
  beforeCreateNoTxn : list Stmt;
  afterCreateTxn : list Stmt;
  afterCreateNoTxn : list Stmt;
  onEveryOpen : list Stmt;
  migrationSteps : list MigrationStep
}.

(** core/context: [TableCtx], without the connection handle (the world)
    and the debug flag (console output only). *)
Record TableCtx : Type := {
  tableName : string;
  columns : ColumnMapNorm;
  ddlOption : option DDLOption
}.

Section Library.

Variable H : Host.

(** *** utils/sql *)

Definition runTxn (s : Stmt) : M unit :=
  fun w => match exec_all H [s] (w_db w) with
           | Some db' => Ok tt (with_db w db')
           | None => Err (ESql s) w
           end.

Definition runBatchTxn (stmts : list Stmt) : M unit :=
  fun w => match exec_all H stmts (w_db w) with
           | Some db' => Ok tt (with_db w db')
           | None => Err (ETransaction stmts) w
           end.

Definition runNoTxn (s : Stmt) : M unit :=
  fun w => match exec H s (w_db w) with
           | Some db' => Ok tt (with_db w db')
           | None => Err (ESql s) w
           end.

Fixpoint runBatchNoTxn (stmts : list Stmt) : M unit :=
  match stmts with
  | [] => ret tt
  | s :: stmts' => runNoTxn s ;;; runBatchNoTxn stmts'
  end.

(** *** schema/SchemaRegistry *)

Definition ensureMetaStmts : list Stmt :=
  [ CreateTable true REG_TABLE_NAME regDefs;
    CreateIndex true REG_INDEX_NAME REG_TABLE_NAME "version" ].

Definition ensureMeta : M unit :=
  fun w => match exec_all H ensureMetaStmts (w_db w) with
           | Some db' => Ok tt (with_db w db')
           | None => Err (ETransaction ensureMetaStmts) w
           end.

Definition getTableVersion (table : string) : M Z :=
  fun w => match select_version (w_db w) table with
           | Some rows =>
               Ok (match rows with
                   | v :: _ => Number_of_cell v
                   | [] => 0
                   end) w
           | None => Err (EQuery "getTableVersion") w
           end.

Definition setTableVersion (table : string) (version : Z) : M unit :=
  fun w =>
    let now := w_now w in
    let w1 := {| w_db := w_db w; w_now := w_now w; w_rand := w_rand w;
                 w_writes := w_writes w
                             ++ [{| vw_table := table;
                                    vw_recorded := tableVersion (w_db w) table;
                                    vw_version := version |}] |} in
    match exec_all H [UpsertVersion table version now] (w_db w) with
    | Some db' => Ok tt (with_db w1 db')
    | None => Err (ETransaction [UpsertVersion table version now]) w1
    end.

Definition getExistingColumns (table : string) : M (list string) :=
  fun w => Ok (table_info (w_db w) table) w.

(** *** utils/dialect

    [q] only quotes an identifier inside SQL text; in a structured
    statement the identifier stands for itself. *)
Definition formatDefault (type : ColumnType) (def : JsVal) : Error + Literal :=
  if is_null def then inr LitNull
  else match type with
       | INTEGER => inr (LitBare (js_String H def))
       | BOOLEAN => inr (LitBare (if truthy def then "1" else "0"))
       | TEXT => inr (LitQuoted (js_String H def))
       | BLOB => inr (LitQuoted (JSON_stringify H def))
       | REAL => inl (EUnsupportedColumnType type)
       end.

(** The column definition both [createTable] and [rebuildPreserveData]
    render for one entry of [ctx.columns]. *)
Definition colDef (e : string * ColumnSpecNorm) : Error + ColDef :=
  let (k, s) := e in
  match (if is_undefined (cs_default s) then inr None
         else match formatDefault (cs_type s) (cs_default s) with
              | inl err => inl err
              | inr l => inr (Some l)
              end) with
  | inl err => inl err
  | inr dflt =>
      inr {| cd_name := k;
             cd_type := cs_type s;
             cd_key := NoKey;
             cd_notnull := negb (cs_nullable s);
             cd_unique := cs_unique s;
             cd_check := match cs_check s with
                         | Some c => if String.eqb c "" then None else Some c
                         | None => None
                         end;
             cd_default := dflt |}
  end.

Definition colDefs (columns : ColumnMapNorm) : Error + list ColDef :=
  mapE colDef (typedEntries columns).


(** *** schema/createTable *)

Definition createTable (ctx : TableCtx) : M unit :=
  colDefs <- lift (colDefs (columns ctx)) ;;
  let defs := pkDef :: colDefs in
  runTxn (CreateTable true (tableName ctx) defs).

(** *** schema/rebuild *)

Definition tmpName (ctx : TableCtx) (w : World) : string :=
  (tableName ctx ++ "__new_" ++ js_String H (JNum (w_now w)) ++ "_" ++ w_rand w)%string.

Definition copyCols (oldCols newCols : list string) : list string :=
  filter (fun c => negb (String.eqb c SQLITE_RESERVED_PRIMARY_KEY) && includes newCols c)
         oldCols.

Definition rebuildStmts (table tmp : string) (defs : list ColDef) (copy : list string)
  : list Stmt :=
  [ Pragma "foreign_keys=OFF";
    CreateTable false tmp defs ]
  ++ (if nonempty copy then [InsertSelect tmp copy table] else [])
  ++ [ DropTable table;
       RenameTable tmp table;
       Pragma "foreign_keys=ON" ].

Definition rebuildPreserveData (ctx : TableCtx) : M unit :=
  fun w =>
    let tmp := tmpName ctx w in
    (colDefs <- lift (colDefs (columns ctx)) ;;
     let defs := pkDef :: colDefs in
     oldCols <- getExistingColumns (tableName ctx) ;;
     let newCols := map fst (typedEntries (columns ctx)) in
     let copy := copyCols oldCols newCols in
     runBatchTxn (rebuildStmts (tableName ctx) tmp defs copy)) w.

(** *** schema/reconcile *)

Record MigrationCtx : Type := {
  mc_table : string;
  mc_run : string -> list SqlParam -> M unit;
  mc_applyTxn : list Stmt -> M unit;
  mc_applyNoTxn : list Stmt -> M unit;
  mc_rebuildPreserveData : M unit;
  mc_getExistingColumns : M (list string)
}.

Definition makeMigrationCtx (ctx : TableCtx) : MigrationCtx :=
  {| mc_table := tableName ctx;
     mc_run := fun sql params => runTxn (Raw sql params);
     mc_applyTxn := fun stmts => runBatchTxn stmts;
     mc_applyNoTxn := fun stmts => runBatchNoTxn stmts;
     mc_rebuildPreserveData := rebuildPreserveData ctx;
     mc_getExistingColumns := getExistingColumns (tableName ctx) |}.

Fixpoint runCustom (mc : MigrationCtx) (c : Custom) : M unit :=
  match c with
  | CDone => ret tt
  | CThrow msg => throw (ECustom msg)
  | CRun sql params k => mc_run mc sql params ;;; runCustom mc k
  | CApplyTxn stmts k => mc_applyTxn mc stmts ;;; runCustom mc k
  | CApplyNoTxn stmts k => mc_applyNoTxn mc stmts ;;; runCustom mc k
  | CRebuildPreserveData k => mc_rebuildPreserveData mc ;;; runCustom mc k
  | CGetExistingColumns k => cols <- mc_getExistingColumns mc ;; runCustom mc (k cols)
  end.

(** [new Map(steps.map(s => [s.to, s])).get(v)]: the last step declared
    for [v] wins. *)
Definition stepsByTo_get (steps : list MigrationStep) (v : Z) : option MigrationStep :=
  find (fun s => st_to s =? v) (rev steps).

Definition is_rebuild (s : option Strategy) : bool :=
  match s with Some rebuild => true | _ => false end.

(** The phases of a declared step, up to the version write: the body of
    the [try] block before [setTableVersion]. *)
Definition stepPhases (ctx : TableCtx) (step : MigrationStep) : M unit :=
  when (nonempty (st_preNoTxn step)) (runBatchNoTxn (st_preNoTxn step)) ;;;
  when (is_rebuild (st_strategy step)) (rebuildPreserveData ctx) ;;;
  when (nonempty (st_txn step)) (runBatchTxn (st_txn step)) ;;;
  match st_custom step with
  | Some c => runCustom (makeMigrationCtx ctx) c
  | None => ret tt
  end ;;;
  when (nonempty (st_postNoTxn step)) (runBatchNoTxn (st_postNoTxn step)).

(** One turn of [while (cur < target)]. *)
Definition migrateTurn (ctx : TableCtx) (steps : list MigrationStep) (next : Z) : M unit :=
  match stepsByTo_get steps next with
  | None =>
      rebuildPreserveData ctx ;;;
      setTableVersion (tableName ctx) next
  | Some step =>
      stepPhases ctx step ;;;
      setTableVersion (tableName ctx) next
  end.

(** The loop, with the number of turns left as fuel. *)
Fixpoint migrateLoop (ctx : TableCtx) (steps : list MigrationStep) (target : Z)
         (fuel : nat) (cur : Z) : M unit :=
  if cur <? target
  then match fuel with
       | O => throw EOutOfFuel
       | S fuel' =>
           let next := cur + 1 in
           migrateTurn ctx steps next ;;;
           migrateLoop ctx steps target fuel' next
       end
  else ret tt.

Definition migrateWithSteps (ctx : TableCtx) (ddl : DDLOption) (current target : Z)
  : M unit :=
  migrateLoop ctx (migrationSteps ddl) target (Z.to_nat (target - current)) current.

(** [sameLayout] of the legacy branch. *)
Definition sameLayout (ctx : TableCtx) (legacyCols : list string) : bool :=
  let newCols := map (fun e => toLowerCase (fst e)) (typedEntries (columns ctx)) in
  let legacySet := map toLowerCase legacyCols in
  (length legacyCols =? length newCols)%nat && forallb (includes legacySet) newCols.

(** The block [if (current === 0) { ... }]; the result tells whether the
    function has returned inside it. *)
Definition untrackedBranch (ctx : TableCtx) (ddl : DDLOption) (target : Z) : M bool :=
  legacyCols <- getExistingColumns (tableName ctx) ;;
  let isLegacy := (0 <? length legacyCols)%nat in
  if negb isLegacy
  then
    when (nonempty (beforeCreateNoTxn ddl)) (runBatchNoTxn (beforeCreateNoTxn ddl)) ;;;
    createTable ctx ;;;
    when (nonempty (afterCreateTxn ddl)) (runBatchTxn (afterCreateTxn ddl)) ;;;
    when (nonempty (afterCreateNoTxn ddl)) (runBatchNoTxn (afterCreateNoTxn ddl)) ;;;
    setTableVersion (tableName ctx) target ;;;
    ret true
  else
    when (negb (sameLayout ctx legacyCols)) (rebuildPreserveData ctx) ;;;
    when (nonempty (afterCreateTxn ddl)) (runBatchTxn (afterCreateTxn ddl)) ;;;
    if nonempty (afterCreateNoTxn ddl)
    then
      runBatchNoTxn (afterCreateNoTxn ddl) ;;;
      setTableVersion (tableName ctx) target ;;;
      ret true
    else ret false.

(** The block [if (current < target) { ... }]. *)
Definition upgradeBranch (ctx : TableCtx) (ddl : DDLOption) (current target : Z) : M unit :=
  if nonempty (migrationSteps ddl)
  then migrateWithSteps ctx ddl current target
  else
    rebuildPreserveData ctx ;;;
    when (nonempty (afterCreateTxn ddl)) (runBatchTxn (afterCreateTxn ddl)) ;;;
    when (nonempty (afterCreateNoTxn ddl)) (runBatchNoTxn (afterCreateNoTxn ddl)) ;;;
    setTableVersion (tableName ctx) target.

Definition reconcileSchema (ctx : TableCtx) : M unit :=
  match ddlOption ctx with
  | None =>
      legacyCols <- getExistingColumns (tableName ctx) ;;
      when (length legacyCols =? 0)%nat (createTable ctx)
  | Some ddl =>
      let target := version ddl in
      current <- getTableVersion (tableName ctx) ;;
      returned <- (if current =? 0 then untrackedBranch ctx ddl target else ret false) ;;
      if returned then ret tt
      else when (current <? target) (upgradeBranch ctx ddl current target)
  end.

(** *** core/SQLiteTable: what [open] runs on a newly opened connection *)

(** [ensureMeta] and the on-every-open batch, which precede reconciliation. *)
Definition openPrelude (ctx : TableCtx) : M unit :=
  ensureMeta ;;;
  match ddlOption ctx with
  | Some ddl => when (nonempty (onEveryOpen ddl)) (runBatchNoTxn (onEveryOpen ddl))
  | None => ret tt
  end.

Definition open (ctx : TableCtx) : M unit :=
  openPrelude ctx ;;;
  reconcileSchema ctx.

End Library.

(* ================================================================= *)
(** ** crud/insert and utils/prep *)

(** The callback of [typedEntries(ctx.columns).forEach] in [validateRow]:
    one column [k] with its [spec], the row being validated, and the
    [validatedRow] built so far.  [inl] is a thrown [Error]. *)
Definition validateField (row : Obj JsVal) (validatedRow : Obj JsVal)
           (e : string * ColumnSpecNorm) : Error + Obj JsVal :=
  let (k, spec) := e in
  match obj_get row k with
  | None => inr validatedRow
  | Some v =>
      if is_undefined v then inr validatedRow
      else if is_null v then
        if negb (cs_nullable spec) then inl (ECannotBeNull k)
        else inr (obj_set validatedRow k JNull)
      else
        match cs_type spec with
        | TEXT =>
            match v with
            | JStr s =>
                if String.eqb (trim s) ""
                then
                  if negb (is_undefined (cs_default spec)) then inr validatedRow
                  else if cs_nullable spec then inr (obj_set validatedRow k JNull)
                  else inl (ECannotBeEmptyString k)
                else inr (obj_set validatedRow k v)
            | _ => inl (EMustBeString k)
            end
        | INTEGER =>
            if negb (Number_isInteger v) then inl (EMustBeInteger k)
            else if negb (Number_isSafeInteger v) then inl (EOutOfSafeRange k)
            else inr (obj_set validatedRow k v)
        | BOOLEAN =>
            if negb (JsType_eqb (typeof v) TyBoolean) then inl (EMustBeBoolean k)
            else inr (obj_set validatedRow k v)
        | BLOB =>
            if negb (JsType_eqb (typeof v) TyObject) then inl (EMustBeObject k)
            else inr (obj_set validatedRow k v)
        | REAL => inl (EUnsupportedColumnType (cs_type spec))
        end
  end.

Fixpoint validateFields (row : Obj JsVal) (validatedRow : Obj JsVal)
         (entries : list (string * ColumnSpecNorm)) : Error + Obj JsVal :=
  match entries with
  | [] => inr validatedRow
  | e :: entries' =>
      match validateField row validatedRow e with
      | inl err => inl err
      | inr validatedRow' => validateFields row validatedRow' entries'
      end
  end.

Definition validateRow (ctx : TableCtx) (row : Obj JsVal) : Error + Obj JsVal :=
  validateFields row [] (typedEntries (columns ctx)).

Section Crud.

Variable H : Host.

Definition prep (ctx : TableCtx) (key : string) (value : JsVal) : Error + SqlParam :=
  match obj_get (columns ctx) key with
  | None => inl (EUnknownColumn key)
  | Some spec =>
      if is_null value then inr JNull
      else match cs_type spec with
           | INTEGER => inr value
           | BOOLEAN => inr (JNum (if truthy value then 1 else 0))
           | TEXT => inr value
           | BLOB =>
               match value with
               | JBytes _ => inr value
               | _ => inr (JStr (JSON_stringify H value))
               end
           | REAL => inl (EUnsupportedColumnType (cs_type spec))
           end
  end.

Definition buildInsertStmt (ctx : TableCtx) (validatedRow : Obj JsVal) : Error + Stmt :=
  if negb (nonempty (obj_keys validatedRow))
  then inr (InsertDefaults (tableName ctx))
  else
    let cols := obj_keys validatedRow in
    match mapE (fun k => prep ctx k (match obj_get validatedRow k with
                                     | Some v => v
                                     | None => JUndefined
                                     end)) cols with
    | inl err => inl err
    | inr vals => inr (InsertValues (tableName ctx) cols vals)
    end.

(** [insertMany] on an open connection: every row is validated and turned
    into a statement before the one transaction starts. *)
Definition insertMany (ctx : TableCtx) (rows : list (Obj JsVal)) : M unit :=
  if negb (nonempty rows) then ret tt
  else
    stmts <- lift (mapE (fun row =>
                           match validateRow ctx row with
                           | inl err => inl err
                           | inr validated => buildInsertStmt ctx validated
                           end) rows) ;;
    runBatchTxn H stmts.


End Crud.

(* ================================================================= *)
(** ** utils/dialect: the text of identifiers and literals *)

Definition dquote : ascii := "034"%char.
Definition squote : ascii := "039"%char.

(** [s.replace(/c/g, cc)], for the two quote characters the sources pass:
    every occurrence of the character is doubled. *)
Fixpoint doubled (c : ascii) (s : string) : string :=
  match s with
  | EmptyString => EmptyString
  | String a s' =>
      if Ascii.eqb a c then String c (String c (doubled c s'))
      else String a (doubled c s')
  end.

Definition quoted (c : ascii) (s : string) : string :=
  String c (doubled c s ++ String c EmptyString)%string.

(** [q] of utils/dialect; the private [q] of the Registry has the same body. *)
Definition q (s : string) : string := quoted dquote s.

(** The text [formatDefault] returns for a literal. *)
Definition literalText (l : Literal) : string :=
  match l with
  | LitNull => "NULL"
  | LitBare t => t
  | LitQuoted s => quoted squote s
  end.

Definition formatDefaultText (H : Host) (type : ColumnType) (def : JsVal) : Error + string :=
  match formatDefault H type def with
  | inl e => inl e
  | inr l => inr (literalText l)
  end.


(* ================================================================= *)
(** ** utils/normalize and the constructor of core/SQLiteTable *)

(** [ColumnSpecFor]: the shorthand (the type's name alone) or an object. *)
Inductive ColumnSpecFor : Type :=
| Shorthand (type : ColumnType)
| SpecObject (type : ColumnType) (nullable : option bool) (default : JsVal)
             (unique : bool) (check : option string).

Definition ColumnMapInput := Obj ColumnSpecFor.

Definition normalizeSpec (spec : ColumnSpecFor) : ColumnSpecNorm :=
  match spec with
  | Shorthand type =>
      {| cs_type := type; cs_nullable := false; cs_default := JUndefined;
         cs_unique := false; cs_check := None |}
  | SpecObject type nullable default unique check =>
      {| cs_type := type;
         cs_nullable := match nullable with Some true => true | _ => false end;
         cs_default := default; cs_unique := unique; cs_check := check |}
  end.

(** [Object.fromEntries]: the entries are assigned one after the other. *)
Definition Object_fromEntries {V} (entries : list (string * V)) : Obj V :=
  fold_left (fun o e => obj_set o (fst e) (snd e)) entries [].

Definition normalizeColumns (input : ColumnMapInput) : ColumnMapNorm :=
  Object_fromEntries (map (fun e => (fst e, normalizeSpec (snd e))) (typedEntries input)).

(** An object of the class: the fields the context is made of, and whether
    [this.db] holds a connection.  The database name and the debug flag play
    no part in what the methods do to the store.  The [opening] promise only
    matters to calls that overlap; the methods below are run one after the
    other. *)
Record SQLiteTable : Type := {
  this_ctx : TableCtx;
  this_db : bool
}.

Definition reservedMessage : string :=
  ("Column " ++ quoted dquote SQLITE_RESERVED_PRIMARY_KEY
   ++ " is reserved and cannot be used in column definitions")%string.

(** The constructor; [None] is a missing [columns] argument.  A column
    specification is the name of a type or an object, so the reserved key
    is refused whenever the columns hold it. *)
Definition newSQLiteTable (tableName : string) (columns : option ColumnMapInput)
           (ddlOption : option DDLOption) : Error + SQLiteTable :=
  match columns with
  | None => inl (ECustom "Column definitions must be provided")
  | Some columns =>
      if (length (obj_keys columns) =? 0)%nat
      then inl (ECustom "Column definitions must be provided")
      else match obj_get columns SQLITE_RESERVED_PRIMARY_KEY with
           | Some _ => inl (ECustom reservedMessage)
           | None =>
               inr {| this_ctx := {| tableName := tableName;
                                     columns := normalizeColumns columns;
                                     ddlOption := ddlOption |};
                      this_db := false |}
           end
  end.

(* ================================================================= *)
(** ** utils/serializer and utils/materialize *)

(** [o[k]]: the value of a property, [undefined] when the object has none. *)
Definition prop (o : Obj JsVal) (k : string) : JsVal :=
  match obj_get o k with
  | Some v => v
  | None => JUndefined
  end.

(** [const { k, ...rest } = o]: the object without the key. *)
Definition omit {V} (o : Obj V) (k : string) : Obj V :=
  filter (fun e => negb (String.eqb (fst e) k)) o.

Section Reading.

Variable H : Host.

(** [JSON.parse], which throws on text that is not JSON. *)
Variable JSON_parse : string -> Error + JsVal.

Definition jsonObjectToBlob (value : JsVal) : JsVal :=
  JStr (JSON_stringify H value).

Definition blobToJsonObject (value : JsVal) : Error + JsVal :=
  match value with
  | JStr s => JSON_parse s
  | _ => inl (ECustom "value must be string for deserialization: BlobToJson")
  end.

(** [raw === 1 || raw === '1' || raw === true]. *)
Definition reads_true (raw : JsVal) : bool :=
  match raw with
  | JNum z => z =? 1
  | JStr s => String.eqb s "1"
  | JBool b => b
  | _ => false
  end.

(** The body of the loop of [materialize] for one value. *)
Definition materializeValue (spec : ColumnSpecNorm) (raw : JsVal) : Error + JsVal :=
  match cs_type spec with
  | BLOB => if is_null raw || is_undefined raw then inr JNull else blobToJsonObject raw
  | BOOLEAN => inr (JBool (reads_true raw))
  | _ => inr raw
  end.

(** The loop of [materialize].  A key that is no declared column has no
    [spec], and reading [spec.type] throws a TypeError. *)
Fixpoint materializeEntries (ctx : TableCtx) (result : Obj JsVal)
         (entries : list (string * JsVal)) : Error + Obj JsVal :=
  match entries with
  | [] => inr result
  | (key, value) :: entries' =>
      match obj_get (columns ctx) key with
      | None => inl (ECustom "TypeError: cannot read properties of undefined")
      | Some spec =>
          match materializeValue spec value with
          | inl e => inl e
          | inr finalValue =>
              materializeEntries ctx (obj_set result key finalValue) entries'
          end
      end
  end.

Definition materialize (ctx : TableCtx) (row : Obj JsVal) : Error + Obj JsVal :=
  materializeEntries ctx [] (typedEntries row).

(** *** core/SQLiteTable: the result callbacks of [query] and [queryWithPK]

    The rows the callback builds from the items of a result set; [inl] is
    an [Error] thrown inside the callback. *)
Definition queryRows (ctx : TableCtx) (items : list (Obj JsVal))
  : Error + list (Obj JsVal) :=
  mapE (fun item => materialize ctx (omit item SQLITE_RESERVED_PRIMARY_KEY)) items.

Definition queryWithPKRows (ctx : TableCtx) (items : list (Obj JsVal))
  : Error + list (Obj JsVal) :=
  mapE (fun item =>
          let rowId := prop item SQLITE_RESERVED_PRIMARY_KEY in
          let rest := omit item SQLITE_RESERVED_PRIMARY_KEY in
          match materialize ctx rest with
          | inl e => inl e
          | inr mat => inr (obj_set mat SQLITE_RESERVED_PRIMARY_KEY rowId)
          end) items.

End Reading.

(* ================================================================= *)
(** ** core/SQLiteTable: update, delete and the lifecycle *)

Section Methods.

Variable H : Host.

(** [Object.keys(o).map(k => prep(ctx, k, o[k]))]. *)
Definition prepAll (ctx : TableCtx) (o : Obj JsVal) : Error + list SqlParam :=
  mapE (fun k => prep H ctx k (prop o k)) (obj_keys o).





(** [run]. *)
Definition run (sql : string) (params : list SqlParam) : M unit :=
  runNoTxn H (Raw sql params).

(** A method of the class: from the object and the world to the object
    and the outcome. *)
Definition Method (A : Type) : Type := SQLiteTable -> World -> SQLiteTable * Res A.

(** [open].  [connects] tells whether the driver's [openDatabase] resolves.
    The connection is stored in [this.db] before the Registry is prepared
    and the schema reconciled. *)
Definition SQLiteTable_open (connects : bool) : Method unit :=
  fun this w =>
    if this_db this then (this, Ok tt w)
    else if connects
         then ({| this_ctx := this_ctx this; this_db := true |},
               open H (this_ctx this) w)
         else (this, Err (ECustom "openDatabase") w).

(** [close].  [closes] tells whether the driver's [close] resolves. *)
Definition SQLiteTable_close (closes : bool) : Method unit :=
  fun this w =>
    if negb (this_db this) then (this, Ok tt w)
    else if closes
         then ({| this_ctx := this_ctx this; this_db := false |}, Ok tt w)
         else (this, Err (ECustom "close") w).

(** [insertMany] and [insert] as methods: [open] comes first. *)
Definition SQLiteTable_insertMany (connects : bool) (rows : list (Obj JsVal))
  : Method unit :=
  fun this w =>
    if negb (nonempty rows) then (this, Ok tt w)
    else match SQLiteTable_open connects this w with
         | (this', Ok _ w') => (this', insertMany H (this_ctx this') rows w')
         | (this', Err e w') => (this', Err e w')
         end.

Definition SQLiteTable_insert (connects : bool) (row : Obj JsVal) : Method unit :=
  SQLiteTable_insertMany connects [row].

End Methods.

(* ================================================================= *)
(** ** Vocabulary of the statements proved below *)

Definition count_tables (db : Db) (name : string) : nat :=
  length (filter (fun e => String.eqb (fst e) name) (tables db)).

Definition count_indexes (db : Db) (name : string) : nat :=
  length (filter (fun i => String.eqb (ix_name i) name) (indexes db)).

(** [n] calls of the same operation, one after the other. *)
Fixpoint repeatM (n : nat) (m : M unit) : M unit :=
  match n with
  | O => ret tt
  | S n' => m ;;; repeatM n' m
  end.

(** The integers [from], [from + 1], ..., [n] of them. *)
Fixpoint Zseq (from : Z) (n : nat) : list Z :=
  match n with
  | O => []
  | S n' => from :: Zseq (from + 1) n'
  end.

(** A Registry call does not lower the recorded version. *)
Definition good_write (c : VersionWrite) : Prop :=
  vw_recorded c <= vw_version c.

(** A statement that, whenever the engine accepts it, leaves the Registry's
    backing table as it was. *)
Definition keeps_registry (H : Host) (s : Stmt) : Prop :=
  forall db db', exec H s db = Some db' ->
                 find_table db' REG_TABLE_NAME = find_table db REG_TABLE_NAME.

(** A custom procedure all of whose statements satisfy [P]. *)
Inductive custom_all (P : Stmt -> Prop) : Custom -> Prop :=
| ca_done : custom_all P CDone
| ca_throw : forall msg, custom_all P (CThrow msg)
| ca_run : forall sql params k,
    P (Raw sql params) -> custom_all P k -> custom_all P (CRun sql params k)
| ca_applyTxn : forall stmts k,
    Forall P stmts -> custom_all P k -> custom_all P (CApplyTxn stmts k)
| ca_applyNoTxn : forall stmts k,
    Forall P stmts -> custom_all P k -> custom_all P (CApplyNoTxn stmts k)
| ca_rebuild : forall k, custom_all P k -> custom_all P (CRebuildPreserveData k)
| ca_getCols : forall k,
    (forall cols, custom_all P (k cols)) -> custom_all P (CGetExistingColumns k).

Definition step_all (P : Stmt -> Prop) (step : MigrationStep) : Prop :=
  Forall P (st_preNoTxn step) /\ Forall P (st_txn step) /\ Forall P (st_postNoTxn step)
  /\ match st_custom step with
     | Some c => custom_all P c
     | None => True
     end.

Definition plan_all (P : Stmt -> Prop) (ddl : DDLOption) : Prop :=
  Forall P (beforeCreateNoTxn ddl) /\ Forall P (afterCreateTxn ddl)
  /\ Forall P (afterCreateNoTxn ddl) /\ Forall (step_all P) (migrationSteps ddl).

(** A context whose plan, if any, has a positive target version and
    statements that keep the Registry. *)
Definition plan_ok (H : Host) (ctx : TableCtx) : Prop :=
  match ddlOption ctx with
  | Some ddl => 0 < version ddl /\ plan_all (keeps_registry H) ddl
  | None => True
  end.

(** Reconciliation passes one after the other, each on the store the
    previous one left, whether it succeeded or failed. *)
Fixpoint run_passes (H : Host) (ctxs : list TableCtx) (w : World) : World :=
  match ctxs with
  | [] => w
  | ctx :: ctxs' => run_passes H ctxs' (world_of (reconcileSchema H ctx w))
  end.

(** The effect of the two statements of [ensureMeta] on the store. *)
Definition ensure_table (db : Db) : Db :=
  match find_table db REG_TABLE_NAME with
  | Some _ => db
  | None => {| tables := tables db ++ [(REG_TABLE_NAME, new_table regDefs)];
               indexes := indexes db |}
  end.

Definition has_index (db : Db) : bool :=
  existsb (fun i => String.eqb (ix_name i) REG_INDEX_NAME) (indexes db).

Definition ensure_index (db : Db) : Db :=
  if has_index db then db
  else {| tables := tables db;
          indexes := indexes db ++ [{| ix_name := REG_INDEX_NAME;
                                       ix_table := REG_TABLE_NAME;
                                       ix_col := "version" |}] |}.

Definition ensureMeta_db (db : Db) : Db := ensure_index (ensure_table db).



(** The tables a statement generated by the library can change; the text
    of the caller ([Raw]) is not analysed. *)
Definition is_raw (s : Stmt) : bool :=
  match s with Raw _ _ => true | _ => false end.

Definition touches (s : Stmt) : list string :=
  match s with
  | Raw _ _ | Pragma _ | CreateIndex _ _ _ _ => []
  | CreateTable _ name _ => [name]
  | InsertSelect dst _ _ => [dst]
  | DropTable name => [name]
  | RenameTable old new => [old; new]
  | InsertValues tbl _ _ => [tbl]
  | InsertDefaults tbl => [tbl]
  | UpsertVersion _ _ _ => [REG_TABLE_NAME]
  end.

(** The Registry row of a table, and the update an upsert makes to it. *)
Definition reg_match (table : string) (r : Row) : bool :=
  SqlVal_eqb (row_get r "table_name") (VText table).

Definition reg_update (table : string) (version now : Z) (r : Row) : Row :=
  if reg_match table r
  then obj_set (obj_set r "version" (VInt version)) "updated_at" (VInt now)
  else r.

(** A computation that, whatever its outcome, leaves the Registry's table
    and the recorded Registry calls as they were. *)
Definition keeps {A} (m : M A) : Prop :=
  forall w, find_table (w_db (world_of (m w))) REG_TABLE_NAME
            = find_table (w_db w) REG_TABLE_NAME
            /\ w_writes (world_of (m w)) = w_writes w.


(** [ext T w w']: from [w] to [w'] the version recorded for [T] has not
    gone down, and the Registry calls made in between did not lower the
    version recorded when they were made. *)
Definition ext (T : string) (w w' : World) : Prop :=
  tableVersion (w_db w) T <= tableVersion (w_db w') T
  /\ exists calls, w_writes w' = w_writes w ++ calls /\ Forall good_write calls.

Definition ver_le (T : string) (c : Z) (w : World) : Prop :=
  tableVersion (w_db w) T <= c.

(** A computation that, started where [P] holds, only moves the world
    along [ext], and establishes [Q] when it succeeds. *)
Definition rises (T : string) {A} (P : World -> Prop) (m : M A) (Q : A -> World -> Prop)
  : Prop :=
  forall w, P w ->
            ext T w (world_of (m w))
            /\ forall a w', m w = Ok a w' -> Q a w'.





(** How the engine reads a token that opens with the quote character [c]:
    up to the first quote that is not doubled, a doubled quote standing for
    one quote.  The result is the text of the token and the input left. *)
Fixpoint readQuotedBody (c : ascii) (s : string) : option (string * string) :=
  match s with
  | EmptyString => None
  | String a s' =>
      if Ascii.eqb a c
      then match s' with
           | String b s'' =>
               if Ascii.eqb b c
               then option_map (fun p => (String c (fst p), snd p)) (readQuotedBody c s'')
               else Some (EmptyString, s')
           | EmptyString => Some (EmptyString, EmptyString)
           end
      else option_map (fun p => (String a (fst p), snd p)) (readQuotedBody c s')
  end.

Definition readQuoted (c : ascii) (s : string) : option (string * string) :=
  match s with
  | String a s' => if Ascii.eqb a c then readQuotedBody c s' else None
  | EmptyString => None
  end.

Definition starts_with (c : ascii) (s : string) : bool :=
  match s with
  | String a _ => Ascii.eqb a c
  | EmptyString => false
  end.


(** What [validateRow] lets through for a column: null where the column is
    nullable, else a value of the column's type. *)
Definition well_typed (spec : ColumnSpecNorm) (v : JsVal) : bool :=
  match v with
  | JUndefined => false
  | JNull => cs_nullable spec
  | _ =>
      match cs_type spec with
      | TEXT => match v with
                | JStr s => negb (String.eqb (trim s) "")
                | _ => false
                end
      | INTEGER => Number_isSafeInteger v
      | BOOLEAN => JsType_eqb (typeof v) TyBoolean
      | BLOB => JsType_eqb (typeof v) TyObject
      | REAL => false
      end
  end.

(** What the driver hands back for a stored value, and the item of a
    result set for a stored row. *)
Definition cellValue (v : SqlVal) : JsVal :=
  match v with
  | VNull => JNull
  | VInt z => JNum z
  | VReal r => JNonInt r
  | VText s => JStr s
  | VBlob b => JBytes b
  end.

Definition resultItem (r : Row) : Obj JsVal :=
  map (fun e => (fst e, cellValue (snd e))) r.


(** A store whose indexes are all on tables it holds. *)
Definition indexes_on_tables (db : Db) : Prop :=
  Forall (fun i => find_table db (ix_table i) <> None) (indexes db).

(** A computation that makes no Registry call. *)
Definition quiet {A} (m : M A) : Prop :=
  forall w, w_writes (world_of (m w)) = w_writes w.

(** The context of the same table under another plan. *)
Definition with_plan (ctx : TableCtx) (ddl : DDLOption) : TableCtx :=
  {| tableName := tableName ctx; columns := columns ctx; ddlOption := Some ddl |}.

(** A REAL column that declares a default other than null. *)
Definition real_default (e : string * ColumnSpecNorm) : bool :=
  match cs_type (snd e) with
  | REAL => negb (is_undefined (cs_default (snd e)))
            && negb (is_null (cs_default (snd e)))
  | _ => false
  end.

(** An INSERT into the table [T]. *)
Definition is_insert_into (T : string) (s : Stmt) : bool :=
  match s with
  | InsertDefaults t => String.eqb t T
  | InsertValues t _ _ => String.eqb t T
  | _ => false
  end.

(* ================================================================= *)
(** ** Concrete hosts, stores and plans *)

(** A host whose engine rejects the caller's text "FAIL" and accepts any
    other caller text without effect on the tables. *)
Definition sampleHost : Host :=
  {| rawExec := fun sql _ db => if String.eqb sql "FAIL" then None else Some db;
     checkExpr := fun _ _ => true;
     js_String := fun v =>
                    match v with
                    | JUndefined => "undefined"
                    | JNull => "null"
                    | JStr s => s
                    | JNum z => NilZero.string_of_int (Z.to_int z)
                    | JNonInt r => r
                    | JBool b => if b then "true" else "false"
                    | JObj _ => "[object Object]"
                    | JBytes b => b
                    end;
     JSON_stringify := fun v =>
                         match v with
                         | JObj j => j
                         | JNum z => NilZero.string_of_int (Z.to_int z)
                         | JBool b => if b then "true" else "false"
                         | _ => "null"
                         end |}.

Definition textSpec (nullable : bool) (default : JsVal) : ColumnSpecNorm :=
  {| cs_type := TEXT; cs_nullable := nullable; cs_default := default;
     cs_unique := false; cs_check := None |}.

Definition textDef (name : string) : ColDef :=
  {| cd_name := name; cd_type := TEXT; cd_key := NoKey; cd_notnull := false;
     cd_unique := false; cd_check := None; cd_default := None |}.

Definition regIndex : Index :=
  {| ix_name := REG_INDEX_NAME; ix_table := REG_TABLE_NAME; ix_col := "version" |}.

Definition regRow (table : string) (version : Z) : Row :=
  [("table_name", VText table); ("version", VInt version); ("updated_at", VInt 1699)].

Definition regTable (rows : list Row) : Table :=
  {| t_defs := regDefs; t_rows := rows; t_seq := 0 |}.

Definition mkWorld (db : Db) : World :=
  {| w_db := db; w_now := 1700; w_rand := "k3x"; w_writes := [] |}.

(** A new database file, and one on which [ensureMeta] has run. *)
Definition newWorld : World := mkWorld {| tables := []; indexes := [] |}.

Definition metaWorld : World :=
  mkWorld {| tables := [(REG_TABLE_NAME, regTable [])]; indexes := [regIndex] |}.

(** A table "t" (row_id, a) with two rows, created without a plan: the
    Registry holds no version for it. *)
Definition tableA : Table :=
  {| t_defs := [pkDef; textDef "a"];
     t_rows := [ [("row_id", VInt 5); ("a", VText "x")];
                 [("row_id", VInt 9); ("a", VText "y")] ];
     t_seq := 9 |}.

Definition untrackedWorld : World :=
  mkWorld {| tables := [(REG_TABLE_NAME, regTable []); ("t", tableA)];
             indexes := [regIndex] |}.

(** The same table with version 1 recorded. *)
Definition trackedWorld : World :=
  mkWorld {| tables := [(REG_TABLE_NAME, regTable [regRow "t" 1]); ("t", tableA)];
             indexes := [regIndex] |}.

Definition planOf (v : Z) (afterTxn : list Stmt) (steps : list MigrationStep) : DDLOption :=
  {| version := v; beforeCreateNoTxn := []; afterCreateTxn := afterTxn;
     afterCreateNoTxn := []; onEveryOpen := []; migrationSteps := steps |}.

Definition stepTo (v : Z) (txn : list Stmt) : MigrationStep :=
  {| st_to := v; st_preNoTxn := [Raw "PRAGMA wal_checkpoint" []]; st_txn := txn;
     st_postNoTxn := []; st_strategy := None; st_custom := None |}.

(** Declared Schema {a}, without a plan and with plans. *)
Definition ctxUnmanaged : TableCtx :=
  {| tableName := "t"; columns := [("a", textSpec true JUndefined)]; ddlOption := None |}.

Definition planV1 : DDLOption := planOf 1 [] [].

Definition ctxV1 : TableCtx :=
  {| tableName := "t"; columns := [("a", textSpec true JUndefined)];
     ddlOption := Some planV1 |}.

Definition ctxV1Failing : TableCtx :=
  {| tableName := "t"; columns := [("a", textSpec true JUndefined)];
     ddlOption := Some (planOf 1 [Raw "FAIL" []] []) |}.

Definition failingStep : MigrationStep := stepTo 2 [Raw "FAIL" []].

Definition planV2Failing : DDLOption := planOf 2 [] [failingStep].

Definition ctxV2Failing : TableCtx :=
  {| tableName := "t"; columns := [("a", textSpec true JUndefined)];
     ddlOption := Some planV2Failing |}.

(** A plan with target 3 that declares a step for version 3 only. *)
Definition planV3 : DDLOption :=
  planOf 3 [] [stepTo 3 [Raw "CREATE INDEX i ON t(a)" []]].

Definition ctxV3 : TableCtx :=
  {| tableName := "t"; columns := [("a", textSpec true JUndefined)];
     ddlOption := Some planV3 |}.

(** A table "t" (row_id, Name) and the Declared Schema {name}. *)
Definition tableMixedCase : Table :=
  {| t_defs := [pkDef; textDef "Name"];
     t_rows := [ [("row_id", VInt 1); ("Name", VText "x")] ];
     t_seq := 1 |}.

Definition caseWorld : World :=
  mkWorld {| tables := [(REG_TABLE_NAME, regTable []); ("t", tableMixedCase)];
             indexes := [regIndex] |}.

Definition ctxCase : TableCtx :=
  {| tableName := "t"; columns := [("name", textSpec true JUndefined)];
     ddlOption := None |}.

(** Declared Schema {title with a default, note nullable, body required}. *)
Definition ctxText : TableCtx :=
  {| tableName := "t";
     columns := [("title", textSpec false (JStr "untitled"));
                 ("note", textSpec true JUndefined);
                 ("body", textSpec false JUndefined)];
     ddlOption := None |}.

(** The stores these produce. *)
Definition adoptedWorld : World :=
  Eval vm_compute in world_of (reconcileSchema sampleHost ctxV1 untrackedWorld).

Definition rebuiltWorld : World :=
  Eval vm_compute in world_of (rebuildPreserveData sampleHost ctxUnmanaged untrackedWorld).

Definition caseRebuiltWorld : World :=
  Eval vm_compute in world_of (rebuildPreserveData sampleHost ctxCase caseWorld).

Definition halfCreatedWorld : World :=
  Eval vm_compute in world_of (reconcileSchema sampleHost ctxV1Failing metaWorld).







Definition migratedWorld : World :=
  Eval vm_compute in world_of (reconcileSchema sampleHost ctxV3 trackedWorld).

(** An identifier and a default that hold the quote characters. *)
Definition quotedName : string := String "a" (String dquote "b").

Definition quotedDefault : JsVal := JStr (String "i" (String "t" (String squote "s"))).


(** Declared Schema {x: REAL, nullable}. *)
Definition ctxReal : TableCtx :=
  {| tableName := "t";
     columns := [("x", {| cs_type := REAL; cs_nullable := true; cs_default := JUndefined;
                          cs_unique := false; cs_check := None |})];
     ddlOption := None |}.

(** The row of three TEXT values used with [ctxText], and what validation
    makes of it. *)
Definition textRow : Obj JsVal :=
  [("title", JStr "  "); ("note", JStr ""); ("body", JStr "b")].

Definition textValidated : Obj JsVal :=
  Eval vm_compute in
    match validateRow ctxText textRow with
    | inr vr => vr
    | inl _ => []
    end.

(** The plan [planV3] with two more steps, for versions outside the range
    of a run from 1 to 3. *)
Definition planV3Extra : DDLOption :=
  planOf 3 [] [stepTo 7 [Raw "FAIL" []];
               stepTo 3 [Raw "CREATE INDEX i ON t(a)" []];
               stepTo 1 [Raw "FAIL" []]].

(** The untracked table with an index on its column. *)
Definition indexA : Index := {| ix_name := "i_a"; ix_table := "t"; ix_col := "a" |}.

Definition indexedWorld : World :=
  mkWorld {| tables := [(REG_TABLE_NAME, regTable []); ("t", tableA)];
             indexes := [regIndex; indexA] |}.

Definition indexedRebuiltWorld : World :=
  Eval vm_compute in world_of (rebuildPreserveData sampleHost ctxUnmanaged indexedWorld).

(** A table object for the failing plan, not connected, and the store its
    first open leaves. *)
Definition failingTable : SQLiteTable := {| this_ctx := ctxV2Failing; this_db := false |}.

Definition failedOpenWorld : World :=
  Eval vm_compute in world_of (open sampleHost ctxV2Failing trackedWorld).






(** Columns that declare the identity column in capitals. *)
Definition capitalColumns : ColumnMapInput := [("ROW_ID", Shorthand INTEGER)].

(** The plan [planV1] with a step that would fail if it ran. *)
Definition planV1Steps : DDLOption := planOf 1 [] [stepTo 1 [Raw "FAIL" []]].

Unset Implicit Arguments.

(* ================================================================= *)
(** * Proofs *)

(** ** Objects and tables *)

Lemma obj_get_app {V} (o o' : Obj V) (k : string) :
  obj_get (o ++ o') k = match obj_get o k with
                        | Some v => Some v
                        | None => obj_get o' k
                        end.
Proof.
  induction o as [|[k' v] o IH]; simpl; [reflexivity|].
  destruct (String.eqb k' k); [reflexivity | exact IH].
Qed.

Lemma obj_get_set_same {V} (o : Obj V) (k : string) (v : V) :
  obj_get (obj_set o k v) k = Some v.
Proof.
  induction o as [|[k' v'] o IH]; simpl.
  - now rewrite String.eqb_refl.
  - destruct (String.eqb k' k) eqn:E; simpl; rewrite E; [reflexivity | exact IH].
Qed.

Lemma obj_get_set_other {V} (o : Obj V) (k k0 : string) (v : V) :
  k <> k0 -> obj_get (obj_set o k v) k0 = obj_get o k0.
Proof.
  intros Hne. induction o as [|[k' v'] o IH]; simpl.
  - destruct (String.eqb k k0) eqn:E; [apply String.eqb_eq in E; contradiction | reflexivity].
  - destruct (String.eqb k' k) eqn:E; simpl.
    + apply String.eqb_eq in E; subst k'.
      destruct (String.eqb k k0) eqn:E0; [apply String.eqb_eq in E0; contradiction | reflexivity].
    + destruct (String.eqb k' k0); [reflexivity | exact IH].
Qed.

Lemma obj_get_In {V} (o : Obj V) (k : string) (v : V) :
  obj_get o k = Some v -> In (k, v) o.
Proof.
  induction o as [|[k' v'] o IH]; simpl; [discriminate|].
  destruct (String.eqb k' k) eqn:E.
  - apply String.eqb_eq in E. intros [= ->]. left. now subst.
  - intros Hg. right. now apply IH.
Qed.

Lemma obj_get_None_keys {V} (o : Obj V) (k : string) :
  obj_get o k = None <-> ~ In k (obj_keys o).
Proof.
  induction o as [|[k' v'] o IH]; simpl.
  - tauto.
  - destruct (String.eqb k' k) eqn:E.
    + apply String.eqb_eq in E. split; [discriminate | intros Hn; exfalso; apply Hn; now left].
    + apply String.eqb_neq in E. rewrite IH. tauto.
Qed.

Lemma includes_In (l : list string) (x : string) :
  includes l x = true <-> In x l.
Proof.
  unfold includes. rewrite existsb_exists. split.
  - intros [y [Hy E]]. apply String.eqb_eq in E. now subst.
  - intros Hx. exists x. split; [assumption | apply String.eqb_refl].
Qed.

(** ** The monad *)

Lemma bind_Ok {A B} (m : M A) (k : A -> M B) (w w' : World) (a : A) :
  m w = Ok a w' -> bind m k w = k a w'.
Proof. unfold bind. now intros ->. Qed.

Lemma bind_Err {A B} (m : M A) (k : A -> M B) (w w' : World) (e : Error) :
  m w = Err e w' -> bind m k w = Err e w'.
Proof. unfold bind. now intros ->. Qed.

Lemma bind_Ok_inv {A B} (m : M A) (k : A -> M B) (w w' : World) (b : B) :
  bind m k w = Ok b w' -> exists a w1, m w = Ok a w1 /\ k a w1 = Ok b w'.
Proof.
  unfold bind. destruct (m w) as [a w1|e w1]; [|discriminate].
  intros Hk. now exists a, w1.
Qed.

(** ** Table creation *)

Lemma mapE_map_fst {A B} (f : A -> Error + B) (g : A -> string) (h : B -> string)
      (l : list A) (l' : list B) :
  (forall a b, f a = inr b -> h b = g a) ->
  mapE f l = inr l' -> map h l' = map g l.
Proof.
  intros Hf. revert l'. induction l as [|a l IH]; simpl; intros l'.
  - now intros [= <-].
  - destruct (f a) as [e|b] eqn:Ea; [discriminate|].
    destruct (mapE f l) as [e|bs]; [discriminate|].
    intros [= <-]. simpl. rewrite (Hf _ _ Ea). f_equal. now apply IH.
Qed.

Lemma colDef_name (H : Host) (e : string * ColumnSpecNorm) (d : ColDef) :
  colDef H e = inr d -> cd_name d = fst e.
Proof.
  destruct e as [k s]. unfold colDef.
  destruct (if is_undefined (cs_default s) then _ else _) as [err|dflt]; [discriminate|].
  now intros [= <-].
Qed.

Lemma colDef_key (H : Host) (e : string * ColumnSpecNorm) (d : ColDef) :
  colDef H e = inr d -> cd_key d = NoKey.
Proof.
  destruct e as [k s]. unfold colDef.
  destruct (if is_undefined (cs_default s) then _ else _) as [err|dflt]; [discriminate|].
  now intros [= <-].
Qed.

Lemma colDefs_names (H : Host) (columns : ColumnMapNorm) (defs : list ColDef) :
  colDefs H columns = inr defs -> map cd_name defs = obj_keys columns.
Proof.
  unfold colDefs, typedEntries, obj_keys. apply mapE_map_fst. apply colDef_name.
Qed.

Lemma select_version_new_table (db : Db) (defs : list ColDef) (t : string) :
  find_table db REG_TABLE_NAME = Some (new_table defs) -> tableVersion db t = 0.
Proof.
  unfold tableVersion, select_version. intros ->. simpl.
  now destruct (includes _ _ && includes _ _).
Qed.

Lemma tableVersion_absent (db : Db) (t : string) :
  find_table db REG_TABLE_NAME = None -> tableVersion db t = 0.
Proof. unfold tableVersion, select_version. now intros ->. Qed.

Lemma tableVersion_same_registry (db db' : Db) (t : string) :
  find_table db' REG_TABLE_NAME = find_table db REG_TABLE_NAME ->
  tableVersion db' t = tableVersion db t.
Proof. unfold tableVersion, select_version. now intros ->. Qed.

Lemma create_table_find_other (ine : bool) (name : string) (defs : list ColDef)
      (db db' : Db) (t : string) :
  create_table ine name defs db = Some db' -> t <> name ->
  find_table db' t = find_table db t.
Proof.
  unfold create_table. intros Hc Hne.
  destruct (find_table db name) eqn:Ef.
  - destruct ine; [now injection Hc as <- | discriminate].
  - destruct (nonempty defs && distinct_ci (map cd_name defs)); [|discriminate].
    injection Hc as <-. unfold find_table. simpl. rewrite obj_get_app. simpl.
    destruct (obj_get (tables db) t); [reflexivity|].
    destruct (String.eqb name t) eqn:E; [|reflexivity].
    apply String.eqb_eq in E. now subst.
Qed.

Lemma create_table_version (ine : bool) (name : string) (defs : list ColDef)
      (db db' : Db) (t : string) :
  create_table ine name defs db = Some db' -> tableVersion db' t = tableVersion db t.
Proof.
  intros Hc.
  destruct (String.eqb REG_TABLE_NAME name) eqn:E.
  - apply String.eqb_eq in E. subst name. unfold create_table in Hc.
    destruct (find_table db REG_TABLE_NAME) eqn:Ef.
    + destruct ine; [now injection Hc as <- | discriminate].
    + destruct (nonempty defs && distinct_ci (map cd_name defs)); [|discriminate].
      injection Hc as <-. rewrite (tableVersion_absent _ t Ef).
      apply select_version_new_table with (defs := defs).
      unfold find_table in *. simpl. rewrite obj_get_app, Ef. simpl.
      reflexivity.
  - apply String.eqb_neq in E. apply tableVersion_same_registry.
    now apply (create_table_find_other _ _ _ _ _ _ Hc).
Qed.

Lemma create_table_fresh (name : string) (defs : list ColDef) (db : Db) :
  find_table db name = None -> defs <> [] -> distinct_ci (map cd_name defs) = true ->
  create_table true name defs db
  = Some {| tables := tables db ++ [(name, new_table defs)]; indexes := indexes db |}.
Proof.
  unfold create_table. intros -> Hne ->. destruct defs; [contradiction | reflexivity].
Qed.

Lemma find_table_appended (db : Db) (name : string) (t : Table) :
  find_table db name = None ->
  find_table {| tables := tables db ++ [(name, t)]; indexes := indexes db |} name = Some t.
Proof.
  unfold find_table. simpl. intros Hn. rewrite obj_get_app, Hn. simpl.
  now rewrite String.eqb_refl.
Qed.

(** [createTable] never touches the recorded Registry calls nor the
    version of any table. *)
Lemma createTable_frame (H : Host) (ctx : TableCtx) (w : World) :
  w_writes (world_of (createTable H ctx w)) = w_writes w
  /\ forall t, tableVersion (w_db (world_of (createTable H ctx w))) t
               = tableVersion (w_db w) t.
Proof.
  unfold createTable, bind, lift.
  destruct (colDefs H (columns ctx)) as [e|defs]; simpl; [now split|].
  unfold runTxn. simpl.
  destruct (create_table true (tableName ctx) (pkDef :: defs) (w_db w)) as [db'|] eqn:Ec;
    simpl; [|now split].
  split; [reflexivity|]. intros t. now apply (create_table_version _ _ _ _ _ t Ec).
Qed.

(** ** The Registry's own table and index *)

Lemma with_db_same (w : World) : with_db w (w_db w) = w.
Proof. now destruct w. Qed.

Lemma count_tables_find_none (db : Db) (name : string) :
  find_table db name = None -> count_tables db name = 0%nat.
Proof.
  unfold find_table, count_tables. induction (tables db) as [|[k v] l IH]; simpl.
  - reflexivity.
  - destruct (String.eqb k name); [discriminate | exact IH].
Qed.

Lemma count_tables_find_some (db : Db) (name : string) (t : Table) :
  find_table db name = Some t -> (1 <= count_tables db name)%nat.
Proof.
  unfold find_table, count_tables. induction (tables db) as [|[k v] l IH]; simpl.
  - discriminate.
  - destruct (String.eqb k name); simpl; [lia | exact IH].
Qed.

Lemma count_indexes_exists (db : Db) (name : string) :
  existsb (fun i => String.eqb (ix_name i) name) (indexes db) = true ->
  (1 <= count_indexes db name)%nat.
Proof.
  unfold count_indexes. induction (indexes db) as [|i l IH]; simpl.
  - discriminate.
  - destruct (String.eqb (ix_name i) name); simpl; [lia | exact IH].
Qed.

Lemma count_indexes_not_exists (db : Db) (name : string) :
  existsb (fun i => String.eqb (ix_name i) name) (indexes db) = false ->
  count_indexes db name = 0%nat.
Proof.
  unfold count_indexes. induction (indexes db) as [|i l IH]; simpl.
  - reflexivity.
  - destruct (String.eqb (ix_name i) name); simpl; [discriminate | exact IH].
Qed.

Lemma filter_length_app {A} (f : A -> bool) (l l' : list A) :
  length (filter f (l ++ l')) = (length (filter f l) + length (filter f l'))%nat.
Proof. now rewrite filter_app, length_app. Qed.

Lemma ensure_table_indexes (db : Db) : indexes (ensure_table db) = indexes db.
Proof. unfold ensure_table. now destruct (find_table db REG_TABLE_NAME). Qed.

Lemma ensure_index_tables (db : Db) : tables (ensure_index db) = tables db.
Proof. unfold ensure_index. now destruct (has_index db). Qed.

Lemma ensure_table_found (db : Db) :
  exists t, find_table (ensure_table db) REG_TABLE_NAME = Some t
            /\ (find_table db REG_TABLE_NAME = Some t
                \/ find_table db REG_TABLE_NAME = None /\ t = new_table regDefs).
Proof.
  unfold ensure_table. destruct (find_table db REG_TABLE_NAME) as [t|] eqn:Ef.
  - exists t. split; [exact Ef | now left].
  - exists (new_table regDefs). split; [now apply find_table_appended | now right].
Qed.

Lemma ensure_index_has (db : Db) : has_index (ensure_index db) = true.
Proof.
  unfold ensure_index. destruct (has_index db) eqn:Eh; [exact Eh|].
  unfold has_index. simpl. rewrite existsb_app. simpl. apply orb_true_r.
Qed.

Lemma ensureMeta_exec (H : Host) (db : Db) :
  (forall t, find_table db REG_TABLE_NAME = Some t ->
             includes (col_names t) "version" = true) ->
  exec_all H ensureMetaStmts db = Some (ensureMeta_db db).
Proof.
  intros Hcol. unfold ensureMetaStmts, ensureMeta_db.
  assert (E1 : exec H (CreateTable true REG_TABLE_NAME regDefs) db
               = Some (ensure_table db)).
  { simpl. unfold create_table, ensure_table.
    now destruct (find_table db REG_TABLE_NAME). }
  assert (E2 : exec H (CreateIndex true REG_INDEX_NAME REG_TABLE_NAME "version")
                    (ensure_table db)
               = Some (ensure_index (ensure_table db))).
  { simpl. unfold create_index, ensure_index, has_index.
    destruct (existsb _ (indexes (ensure_table db))); [reflexivity|].
    destruct (ensure_table_found db) as [t [Ht Hor]]. rewrite Ht.
    assert (Hv : includes (col_names t) "version" = true).
    { destruct Hor as [Hs|[_ ->]]; [now apply Hcol | reflexivity]. }
    now rewrite Hv. }
  change (exec_all H [CreateTable true REG_TABLE_NAME regDefs;
                      CreateIndex true REG_INDEX_NAME REG_TABLE_NAME "version"] db)
    with (match exec H (CreateTable true REG_TABLE_NAME regDefs) db with
          | Some db' =>
              match exec H (CreateIndex true REG_INDEX_NAME REG_TABLE_NAME "version") db' with
              | Some db'' => Some db''
              | None => None
              end
          | None => None
          end).
  now rewrite E1, E2.
Qed.

Lemma ensureMeta_db_find (db : Db) :
  find_table (ensureMeta_db db) REG_TABLE_NAME
  = find_table (ensure_table db) REG_TABLE_NAME.
Proof. unfold ensureMeta_db, find_table. now rewrite ensure_index_tables. Qed.

Lemma ensureMeta_db_fixed (db : Db) :
  ensureMeta_db (ensureMeta_db db) = ensureMeta_db db.
Proof.
  destruct (ensure_table_found db) as [t [Ht _]].
  unfold ensureMeta_db at 1. unfold ensure_table.
  rewrite ensureMeta_db_find, Ht.
  unfold ensure_index. unfold ensureMeta_db. now rewrite ensure_index_has.
Qed.

Lemma ensureMeta_db_version_column (db : Db) :
  (forall t, find_table db REG_TABLE_NAME = Some t ->
             includes (col_names t) "version" = true) ->
  forall t, find_table (ensureMeta_db db) REG_TABLE_NAME = Some t ->
            includes (col_names t) "version" = true.
Proof.
  intros Hcol t. rewrite ensureMeta_db_find.
  destruct (ensure_table_found db) as [t0 [Ht Hor]]. rewrite Ht. intros [= <-].
  destruct Hor as [Hs|[_ ->]]; [now apply Hcol | reflexivity].
Qed.

Lemma ensureMeta_db_one_table (db : Db) :
  (count_tables db REG_TABLE_NAME <= 1)%nat ->
  count_tables (ensureMeta_db db) REG_TABLE_NAME = 1%nat.
Proof.
  intros Hle. unfold count_tables, ensureMeta_db. rewrite ensure_index_tables.
  unfold ensure_table.
  destruct (find_table db REG_TABLE_NAME) as [t|] eqn:Ef.
  - pose proof (count_tables_find_some _ _ _ Ef). unfold count_tables in *. lia.
  - pose proof (count_tables_find_none _ _ Ef) as Hz. unfold count_tables in Hz.
    simpl. rewrite filter_length_app, Hz. reflexivity.
Qed.

Lemma ensureMeta_db_one_index (db : Db) :
  (count_indexes db REG_INDEX_NAME <= 1)%nat ->
  count_indexes (ensureMeta_db db) REG_INDEX_NAME = 1%nat.
Proof.
  intros Hle. unfold ensureMeta_db, ensure_index.
  assert (Hc : count_indexes (ensure_table db) REG_INDEX_NAME
               = count_indexes db REG_INDEX_NAME).
  { unfold count_indexes. now rewrite ensure_table_indexes. }
  destruct (has_index (ensure_table db)) eqn:Eh.
  - pose proof (count_indexes_exists _ _ Eh). lia.
  - pose proof (count_indexes_not_exists _ _ Eh) as Hz.
    unfold count_indexes in *. simpl. rewrite filter_length_app, Hz. reflexivity.
Qed.

Lemma ensureMeta_db_index_on_version (db : Db) :
  (forall i, In i (indexes db) -> ix_name i = REG_INDEX_NAME ->
             ix_table i = REG_TABLE_NAME /\ ix_col i = "version") ->
  forall i, In i (indexes (ensureMeta_db db)) -> ix_name i = REG_INDEX_NAME ->
            ix_table i = REG_TABLE_NAME /\ ix_col i = "version".
Proof.
  intros Hix i. unfold ensureMeta_db, ensure_index.
  destruct (has_index (ensure_table db)).
  - rewrite ensure_table_indexes. apply Hix.
  - simpl. rewrite ensure_table_indexes, in_app_iff. intros [Hi|[<-|[]]] Hn.
    + now apply Hix.
    + now split.
Qed.

Lemma repeatM_fixed (m : M unit) (w : World) (n : nat) :
  m w = Ok tt w -> repeatM n m w = Ok tt w.
Proof.
  intros Hm. induction n as [|n IH]; [reflexivity|].
  simpl. now rewrite (bind_Ok _ _ _ _ _ Hm).
Qed.

(** C8. [ensureMeta] is idempotent.  On a store that holds the Registry
    table at most once, with its version column, and the Registry index at
    most once, on that column, the first call succeeds and leaves exactly
    one Registry table and exactly one index on version; a call on the
    resulting store succeeds and returns the very same world, and so do
    [n >= 1] calls in a row from the initial store. *)
Theorem C8_ensureMeta_idempotent (H : Host) (w : World) (n : nat) :
  (count_tables (w_db w) REG_TABLE_NAME <= 1)%nat ->
  (count_indexes (w_db w) REG_INDEX_NAME <= 1)%nat ->
  (forall t, find_table (w_db w) REG_TABLE_NAME = Some t ->
             includes (col_names t) "version" = true) ->
  (forall i, In i (indexes (w_db w)) -> ix_name i = REG_INDEX_NAME ->
             ix_table i = REG_TABLE_NAME /\ ix_col i = "version") ->
  exists w1,
    ensureMeta H w = Ok tt w1
    /\ count_tables (w_db w1) REG_TABLE_NAME = 1%nat
    /\ count_indexes (w_db w1) REG_INDEX_NAME = 1%nat
    /\ (forall i, In i (indexes (w_db w1)) -> ix_name i = REG_INDEX_NAME ->
                  ix_table i = REG_TABLE_NAME /\ ix_col i = "version")
    /\ ensureMeta H w1 = Ok tt w1
    /\ repeatM (S n) (ensureMeta H) w = Ok tt w1.
Proof.
  intros Hct Hci Hcol Hix.
  exists (with_db w (ensureMeta_db (w_db w))).
  assert (E1 : ensureMeta H w = Ok tt (with_db w (ensureMeta_db (w_db w)))).
  { unfold ensureMeta. now rewrite (ensureMeta_exec H _ Hcol). }
  assert (E2 : ensureMeta H (with_db w (ensureMeta_db (w_db w)))
               = Ok tt (with_db w (ensureMeta_db (w_db w)))).
  { unfold ensureMeta.
    replace (w_db (with_db w (ensureMeta_db (w_db w)))) with (ensureMeta_db (w_db w))
      by reflexivity.
    rewrite (ensureMeta_exec H _ (ensureMeta_db_version_column _ Hcol)).
    now rewrite ensureMeta_db_fixed. }
  split; [exact E1|].
  split; [now apply ensureMeta_db_one_table|].
  split; [now apply ensureMeta_db_one_index|].
  split; [now apply ensureMeta_db_index_on_version|].
  split; [exact E2|].
  simpl. rewrite (bind_Ok _ _ _ _ _ E1). now apply repeatM_fixed.
Qed.

(** ** Row validation *)

Lemma mapE_In_fail {A B} (f : A -> Error + B) (l : list A) (a : A) (e : Error) :
  In a l -> f a = inl e -> exists e', mapE f l = inl e'.
Proof.
  induction l as [|x l IH]; simpl; [contradiction|].
  intros [->|Hin] Hf.
  - rewrite Hf. now exists e.
  - destruct (f x) as [e0|b]; [now exists e0|].
    destruct (IH Hin Hf) as [e' ->]. now exists e'.
Qed.


(** A validated field leaves [validatedRow] as it is or assigns its own key. *)
Lemma validateField_shape (row vr vr' : Obj JsVal) (k : string) (spec : ColumnSpecNorm) :
  validateField row vr (k, spec) = inr vr' ->
  vr' = vr \/ exists v, vr' = obj_set vr k v.
Proof.
  unfold validateField.
  destruct (obj_get row k) as [v|]; [|intros [= <-]; now left].
  destruct (is_undefined v); [intros [= <-]; now left|].
  destruct (is_null v).
  { destruct (negb (cs_nullable spec)); [discriminate|]. intros [= <-]. right. eauto. }
  destruct (cs_type spec).
  - destruct v; try discriminate.
    destruct (String.eqb (trim s) "").
    + destruct (negb (is_undefined (cs_default spec))); [intros [= <-]; now left|].
      destruct (cs_nullable spec); [|discriminate]. intros [= <-]. right. eauto.
    + intros [= <-]. right. eauto.
  - destruct (negb (Number_isInteger v)); [discriminate|].
    destruct (negb (Number_isSafeInteger v)); [discriminate|].
    intros [= <-]. right. eauto.
  - discriminate.
  - destruct (negb (JsType_eqb (typeof v) TyBoolean)); [discriminate|].
    intros [= <-]. right. eauto.
  - destruct (negb (JsType_eqb (typeof v) TyObject)); [discriminate|].
    intros [= <-]. right. eauto.
Qed.

Lemma validateField_other (row vr vr' : Obj JsVal) (k k0 : string) (spec : ColumnSpecNorm) :
  validateField row vr (k, spec) = inr vr' -> k <> k0 ->
  obj_get vr' k0 = obj_get vr k0.
Proof.
  intros Hv Hne. destruct (validateField_shape _ _ _ _ _ Hv) as [->|[v ->]].
  - reflexivity.
  - now apply obj_get_set_other.
Qed.

Lemma validateFields_other (row : Obj JsVal) (entries : list (string * ColumnSpecNorm))
      (vr vr' : Obj JsVal) (k0 : string) :
  validateFields row vr entries = inr vr' -> ~ In k0 (map fst entries) ->
  obj_get vr' k0 = obj_get vr k0.
Proof.
  revert vr. induction entries as [|[k spec] entries IH];
    cbn [validateFields map fst In]; intros vr Hv Hn.
  - now injection Hv as <-.
  - destruct (validateField row vr (k, spec)) as [e|vr1] eqn:E1; [discriminate|].
    rewrite (IH _ Hv) by tauto.
    apply (validateField_other _ _ _ _ _ _ E1). tauto.
Qed.

(** The binding of a column in the validated row is the one its own field
    produced. *)
Lemma validateFields_at (row : Obj JsVal) (entries : list (string * ColumnSpecNorm))
      (vr vr' : Obj JsVal) (k : string) (spec : ColumnSpecNorm) :
  NoDup (map fst entries) -> In (k, spec) entries ->
  validateFields row vr entries = inr vr' ->
  exists vr1 vr2, obj_get vr1 k = obj_get vr k
                  /\ validateField row vr1 (k, spec) = inr vr2
                  /\ obj_get vr' k = obj_get vr2 k.
Proof.
  revert vr. induction entries as [|[k1 s1] entries IH];
    cbn [validateFields map fst In]; intros vr Hnd Hin Hv; [contradiction|].
  inversion Hnd as [|? ? Hnot Hnd']; subst.
  destruct (validateField row vr (k1, s1)) as [e|vr1] eqn:E1; [discriminate|].
  destruct Hin as [[= -> ->]|Hin].
  - exists vr, vr1. split; [reflexivity|]. split; [exact E1|].
    now apply (validateFields_other _ _ _ _ _ Hv).
  - assert (Hne : k1 <> k).
    { intros ->. apply Hnot. apply in_map_iff. now exists (k, spec). }
    destruct (IH vr1 Hnd' Hin Hv) as [va [vb [Ha [Hb Hc]]]].
    exists va, vb. split; [|now split].
    rewrite Ha. now apply (validateField_other _ _ _ _ _ _ E1).
Qed.

Lemma validateFields_fail (row : Obj JsVal) (entries : list (string * ColumnSpecNorm))
      (vr : Obj JsVal) (k : string) (spec : ColumnSpecNorm) (e : Error) :
  In (k, spec) entries ->
  (forall vr1, validateField row vr1 (k, spec) = inl e) ->
  exists e', validateFields row vr entries = inl e'.
Proof.
  revert vr. induction entries as [|[k1 s1] entries IH];
    cbn [validateFields map fst In]; intros vr Hin Hf; [contradiction|].
  destruct Hin as [[= -> ->]|Hin].
  - rewrite Hf. now exists e.
  - destruct (validateField row vr (k1, s1)) as [e1|vr1]; [now exists e1|].
    now apply IH.
Qed.


Lemma obj_get_keys_In {V} (o : Obj V) (k : string) (v : V) :
  obj_get o k = Some v -> In k (obj_keys o).
Proof.
  intros Hg. apply obj_get_In in Hg. unfold obj_keys.
  apply in_map_iff. now exists (k, v).
Qed.



(** ** Frame properties of the engine *)

Lemma find_set_table_other (db : Db) (n n' : string) (t : Table) :
  n <> n' -> find_table (set_table db n t) n' = find_table db n'.
Proof.
  intros Hne. unfold find_table, set_table. simpl.
  induction (tables db) as [|[k v] l IH]; simpl; [reflexivity|].
  destruct (String.eqb k n) eqn:E; simpl.
  - apply String.eqb_eq in E. subst k.
    destruct (String.eqb n n') eqn:E'; [apply String.eqb_eq in E'; contradiction|].
    exact IH.
  - destruct (String.eqb k n'); [reflexivity | exact IH].
Qed.

Lemma find_set_table_same (db : Db) (n : string) (t t0 : Table) :
  find_table db n = Some t0 -> find_table (set_table db n t) n = Some t.
Proof.
  unfold find_table, set_table. simpl.
  induction (tables db) as [|[k v] l IH]; simpl; [discriminate|].
  destruct (String.eqb k n) eqn:E; simpl.
  - now rewrite String.eqb_refl.
  - rewrite E. exact IH.
Qed.

Lemma find_drop_other (db db' : Db) (n n' : string) :
  drop_table n db = Some db' -> n <> n' -> find_table db' n' = find_table db n'.
Proof.
  unfold drop_table. destruct (find_table db n); [|discriminate].
  intros [= <-] Hne. unfold find_table. simpl.
  induction (tables db) as [|[k v] l IH]; simpl; [reflexivity|].
  destruct (String.eqb k n) eqn:E; simpl.
  - apply String.eqb_eq in E. subst k.
    destruct (String.eqb n n') eqn:E'; [apply String.eqb_eq in E'; contradiction|].
    exact IH.
  - destruct (String.eqb k n'); [reflexivity | exact IH].
Qed.

Lemma find_drop_same (db db' : Db) (n : string) :
  drop_table n db = Some db' -> find_table db' n = None.
Proof.
  unfold drop_table. destruct (find_table db n); [|discriminate].
  intros [= <-]. unfold find_table. simpl.
  induction (tables db) as [|[k v] l IH]; simpl; [reflexivity|].
  destruct (String.eqb k n) eqn:E; simpl; [exact IH|].
  rewrite E. exact IH.
Qed.

Lemma find_rename_other (db db' : Db) (old new n : string) :
  rename_table old new db = Some db' -> n <> old -> n <> new ->
  find_table db' n = find_table db n.
Proof.
  unfold rename_table. destruct (find_table db old); [|discriminate].
  destruct (find_table db new); [discriminate|].
  intros [= <-] Ho Hn. unfold find_table. simpl.
  induction (tables db) as [|[k v] l IH]; simpl; [reflexivity|].
  destruct (String.eqb k old) eqn:E; simpl.
  - apply String.eqb_eq in E. subst k.
    destruct (String.eqb new n) eqn:E1; [apply String.eqb_eq in E1; now subst|].
    destruct (String.eqb old n) eqn:E2; [apply String.eqb_eq in E2; now subst|].
    exact IH.
  - destruct (String.eqb k n); [reflexivity | exact IH].
Qed.

Lemma find_rename_new (db db' : Db) (old new : string) (t : Table) :
  rename_table old new db = Some db' -> find_table db old = Some t ->
  find_table db' new = Some t.
Proof.
  unfold rename_table. intros Hr Ho. rewrite Ho in Hr.
  destruct (find_table db new) eqn:En; [discriminate|].
  injection Hr as <-. unfold find_table in *. simpl.
  induction (tables db) as [|[k v] l IH]; simpl in *; [discriminate|].
  destruct (String.eqb k old) eqn:E; simpl.
  - rewrite String.eqb_refl. exact Ho.
  - destruct (String.eqb k new) eqn:E'; [discriminate|]. now apply IH.
Qed.

Lemma insert_select_other (H : Host) (dst src : string) (cols : list string)
      (db db' : Db) (n : string) :
  insert_select H dst cols src db = Some db' -> n <> dst ->
  find_table db' n = find_table db n.
Proof.
  unfold insert_select. destruct (find_table db dst); [|discriminate].
  destruct (find_table db src); [|discriminate].
  destruct (forallb _ cols); [|discriminate].
  destruct (insert_rows _ _ _); [|discriminate].
  intros [= <-] Hne. apply find_set_table_other. congruence.
Qed.

(** A statement of the library leaves alone every table it does not name. *)
Lemma exec_find_other (H : Host) (s : Stmt) (db db' : Db) (n : string) :
  is_raw s = false -> ~ In n (touches s) ->
  exec H s db = Some db' -> find_table db' n = find_table db n.
Proof.
  destruct s; simpl; intros Hraw Hn He; try discriminate.
  - now injection He as <-.
  - apply (create_table_find_other _ _ _ _ _ _ He). simpl in Hn; intuition congruence.
  - unfold create_index in He. destruct (existsb _ _).
    + destruct if_not_exists; [now injection He as <- | discriminate].
    + destruct (find_table db tbl); [|discriminate].
      destruct (includes _ _); [|discriminate]. now injection He as <-.
  - apply (insert_select_other _ _ _ _ _ _ _ He). simpl in Hn; intuition congruence.
  - apply (find_drop_other _ _ _ _ He). simpl in Hn; intuition congruence.
  - apply (find_rename_other _ _ _ _ _ He) ; simpl in Hn; intuition congruence.
  - unfold insert_values in He. destruct (find_table db tbl); [|discriminate].
    destruct (_ =? _)%nat; [|discriminate].
    destruct (insert_row _ _ _); [|discriminate]. injection He as <-.
    apply find_set_table_other. simpl in Hn; intuition congruence.
  - unfold insert_defaults in He. destruct (find_table db tbl); [|discriminate].
    destruct (insert_row _ _ _); [|discriminate]. injection He as <-.
    apply find_set_table_other. simpl in Hn; intuition congruence.
  - unfold upsert_version in He. destruct (find_table db REG_TABLE_NAME); [|discriminate].
    destruct (_ && _); [|discriminate].
    destruct (existsb _ _).
    + injection He as <-. apply find_set_table_other. simpl in Hn; intuition congruence.
    + destruct (insert_row _ _ _); [|discriminate]. injection He as <-.
      apply find_set_table_other. simpl in Hn; intuition congruence.
Qed.

Lemma exec_all_find_other (H : Host) (ss : list Stmt) (db db' : Db) (n : string) :
  Forall (fun s => is_raw s = false /\ ~ In n (touches s)) ss ->
  exec_all H ss db = Some db' -> find_table db' n = find_table db n.
Proof.
  revert db. induction ss as [|s ss IH]; simpl; intros db Hall He.
  - now injection He as <-.
  - inversion Hall as [|? ? [Hr Hn] Hall']; subst.
    destruct (exec H s db) as [db1|] eqn:E1; [|discriminate].
    rewrite (IH _ Hall' He). now apply (exec_find_other H s).
Qed.

Lemma exec_all_keeps (H : Host) (ss : list Stmt) (db db' : Db) :
  Forall (keeps_registry H) ss ->
  exec_all H ss db = Some db' ->
  find_table db' REG_TABLE_NAME = find_table db REG_TABLE_NAME.
Proof.
  revert db. induction ss as [|s ss IH]; simpl; intros db Hall He.
  - now injection He as <-.
  - inversion Hall as [|? ? Hs Hall']; subst.
    destruct (exec H s db) as [db1|] eqn:E1; [|discriminate].
    rewrite (IH _ Hall' He). now apply Hs.
Qed.

(** ** Unmanaged mode *)

Lemma ensureMeta_find_other (H : Host) (w : World) (T : string) :
  T <> REG_TABLE_NAME ->
  find_table (w_db (world_of (ensureMeta H w))) T = find_table (w_db w) T.
Proof.
  intros Hne. unfold ensureMeta.
  destruct (exec_all H ensureMetaStmts (w_db w)) as [db'|] eqn:Ee; [|reflexivity].
  cbn [world_of with_db w_db]. apply (exec_all_find_other H ensureMetaStmts); [|exact Ee].
  unfold ensureMetaStmts.
  repeat constructor; simpl; intuition congruence.
Qed.

(** C7. Without a DDL plan, reconciliation creates the table from the
    Declared Schema, the reserved identity column first, only when the
    table has no column yet, and it never writes a Registry version: no
    [setTableVersion] call is made and every table's recorded version is
    what it was (0 when it was 0).  When the table has any column, the pass
    succeeds and leaves the world exactly as it found it, and [open] as a
    whole leaves the table as it found it. *)
Theorem C7_unmanaged_mode (H : Host) (ctx : TableCtx) (w : World) :
  ddlOption ctx = None ->
  let r := reconcileSchema H ctx w in
  let T := tableName ctx in
  (w_writes (world_of r) = w_writes w
   /\ forall t, tableVersion (w_db (world_of r)) t = tableVersion (w_db w) t)
  /\ (table_info (w_db w) T <> [] -> r = Ok tt w)
  /\ (table_info (w_db w) T <> [] -> T <> REG_TABLE_NAME ->
      find_table (w_db (world_of (open H ctx w))) T = find_table (w_db w) T)
  /\ (table_info (w_db w) T = [] -> r = createTable H ctx w)
  /\ (find_table (w_db w) T = None ->
      forall defs, colDefs H (columns ctx) = inr defs ->
                   distinct_ci (map cd_name (pkDef :: defs)) = true ->
                   exists w',
                     r = Ok tt w'
                     /\ find_table (w_db w') T = Some (new_table (pkDef :: defs))
                     /\ table_info (w_db w') T
                        = SQLITE_RESERVED_PRIMARY_KEY :: obj_keys (columns ctx)
                     /\ forall t, t <> T -> find_table (w_db w') t = find_table (w_db w) t).
Proof.
  intros Hddl r T. subst r T.
  assert (Hsame : forall w0, table_info (w_db w0) (tableName ctx) <> [] ->
                             reconcileSchema H ctx w0 = Ok tt w0).
  { intros w0 Hcols. unfold reconcileSchema. rewrite Hddl.
    unfold bind, getExistingColumns.
    destruct (table_info (w_db w0) (tableName ctx)); [contradiction | reflexivity]. }
  assert (Hopen : table_info (w_db w) (tableName ctx) <> [] ->
                  tableName ctx <> REG_TABLE_NAME ->
                  find_table (w_db (world_of (open H ctx w))) (tableName ctx)
                  = find_table (w_db w) (tableName ctx)).
  { intros Hcols Hne. pose proof (ensureMeta_find_other H w _ Hne) as Hmeta.
    unfold open, openPrelude. rewrite Hddl. unfold bind at 1 2.
    destruct (ensureMeta H w) as [[] w1|e w1]; cbn [world_of ret] in *; [|exact Hmeta].
    rewrite Hsame; [exact Hmeta|]. unfold table_info. now rewrite Hmeta. }
  unfold reconcileSchema. rewrite Hddl.
  unfold bind, getExistingColumns.
  destruct (table_info (w_db w) (tableName ctx)) as [|c cs] eqn:Ei; simpl.
  - repeat split.
    + apply createTable_frame.
    + apply createTable_frame.
    + intros Hn. now contradiction Hn.
    + intros Hn. now contradiction Hn.
    + intros Hf defs Hd Hdist.
      unfold createTable, bind, lift. rewrite Hd. simpl. unfold runTxn. simpl.
      rewrite (create_table_fresh _ _ _ Hf) by (assumption || discriminate).
      eexists. split; [reflexivity|]. simpl. repeat split.
      * now apply find_table_appended.
      * unfold table_info. rewrite (find_table_appended _ _ _ Hf). unfold col_names. simpl.
        f_equal. now apply (colDefs_names H).
      * intros t Hne. unfold find_table. simpl. rewrite obj_get_app. simpl.
        destruct (obj_get (tables (w_db w)) t); [reflexivity|].
        destruct (String.eqb (tableName ctx) t) eqn:E; [|reflexivity].
        apply String.eqb_eq in E. now subst.
  - repeat split.
    + intros _. apply Hopen. discriminate.
    + discriminate.
    + intros Hf. unfold table_info in Ei. rewrite Hf in Ei. discriminate.
Qed.

(** ** The temporary name of a rebuild *)

Lemma append_length_ne (a b : string) : b <> "" -> (a ++ b)%string <> a.
Proof.
  intros Hb. induction a as [|c a IH]; simpl.
  - exact Hb.
  - intros [= Heq]. now apply IH.
Qed.

Lemma tmpName_ne_table (H : Host) (ctx : TableCtx) (w : World) :
  tmpName H ctx w <> tableName ctx.
Proof. unfold tmpName. apply append_length_ne. discriminate. Qed.

Lemma tmpName_ne_registry (H : Host) (ctx : TableCtx) (w : World) :
  tmpName H ctx w <> REG_TABLE_NAME.
Proof.
  unfold tmpName, REG_TABLE_NAME.
  generalize (js_String H (JNum (w_now w)) ++ "_" ++ w_rand w)%string as rest.
  generalize (tableName ctx) as a. intros a rest Heq.
  do 11 (destruct a as [|? a]; simpl in Heq; [discriminate Heq|];
         injection Heq as _ Heq).
  destruct a; discriminate Heq.
Qed.

(** ** The Rebuild Strategy *)

Lemma rebuild_inv (H : Host) (ctx : TableCtx) (w w' : World) :
  rebuildPreserveData H ctx w = Ok tt w' ->
  exists defs db',
    colDefs H (columns ctx) = inr defs
    /\ exec_all H (rebuildStmts (tableName ctx) (tmpName H ctx w) (pkDef :: defs)
                               (copyCols (table_info (w_db w) (tableName ctx))
                                         (map fst (typedEntries (columns ctx)))))
                (w_db w) = Some db'
    /\ w' = with_db w db'.
Proof.
  unfold rebuildPreserveData, bind, lift, getExistingColumns.
  destruct (colDefs H (columns ctx)) as [e|defs]; simpl; [discriminate|].
  unfold runBatchTxn.
  destruct (exec_all H _ (w_db w)) as [db'|] eqn:Ee; [|discriminate].
  intros [= <-]. now exists defs, db'.
Qed.

(** What the statements of a rebuild do to the rebuilt table: it is the
    freshly created table, filled from the old rows when there is a column
    to copy and left empty otherwise. *)
Lemma rebuild_exec_spec (H : Host) (T tmp : string) (defs : list ColDef)
      (copy : list string) (db db' : Db) :
  tmp <> T ->
  exec_all H (rebuildStmts T tmp defs copy) db = Some db' ->
  exists told tnew,
    find_table db T = Some told
    /\ find_table db tmp = None
    /\ (if nonempty copy
        then insert_rows H (new_table defs)
                         (map (fun r => map (fun c => (c, row_get r c)) copy) (t_rows told))
             = Some tnew
        else tnew = new_table defs)
    /\ find_table db' T = Some tnew.
Proof.
  intros Hne. unfold rebuildStmts.
  cbn [app exec_all exec].
  destruct (create_table false tmp defs db) as [db1|] eqn:E1; [|discriminate].
  assert (Htmp : find_table db tmp = None).
  { unfold create_table in E1. destruct (find_table db tmp); [discriminate | reflexivity]. }
  assert (Hdb1 : find_table db1 tmp = Some (new_table defs)).
  { unfold create_table in E1. rewrite Htmp in E1.
    destruct (_ && _); [|discriminate]. injection E1 as <-.
    now apply find_table_appended. }
  assert (HT1 : find_table db1 T = find_table db T).
  { apply (create_table_find_other _ _ _ _ _ _ E1). congruence. }
  assert (Hrest : forall db2 tnew,
             find_table db2 tmp = Some tnew -> find_table db2 T = find_table db T ->
             exec_all H [DropTable T; RenameTable tmp T; Pragma "foreign_keys=ON"] db2
             = Some db' ->
             exists told, find_table db T = Some told /\ find_table db' T = Some tnew).
  { intros db2 tnew H2 HT2. cbn [exec_all exec].
    destruct (drop_table T db2) as [db3|] eqn:E3; [|discriminate].
    destruct (rename_table tmp T db3) as [db4|] eqn:E4; [|discriminate].
    intros [= <-].
    assert (Hold : exists told, find_table db T = Some told).
    { unfold drop_table in E3. rewrite HT2 in E3.
      destruct (find_table db T) as [told|]; [now exists told | discriminate]. }
    destruct Hold as [told Hold]. exists told. split; [exact Hold|].
    apply (find_rename_new _ _ _ _ _ E4).
    rewrite (find_drop_other _ _ _ _ E3) by congruence. exact H2. }
  destruct (nonempty copy) eqn:Hc; cbn [app exec_all exec].
  - destruct (insert_select H tmp copy T db1) as [db2|] eqn:E2; [|discriminate].
    intros Hr.
    unfold insert_select in E2. rewrite Hdb1, HT1 in E2.
    destruct (find_table db T) as [told|] eqn:Hold; [|discriminate].
    destruct (forallb _ copy); [|discriminate].
    destruct (insert_rows _ _ _) as [tnew|] eqn:Ei; [|discriminate].
    injection E2 as <-.
    destruct (Hrest (set_table db1 tmp tnew) tnew) as [told' [Ho Hn]].
    + now apply (find_set_table_same _ _ _ _ Hdb1).
    + rewrite find_set_table_other by exact Hne. now rewrite HT1.
    + exact Hr.
    + exists told, tnew. repeat split; try assumption.
  - intros Hr. destruct (Hrest db1 (new_table defs) Hdb1 HT1 Hr) as [told [Ho Hn]].
    exists told, (new_table defs). now repeat split.
Qed.

Lemma bump_no_auto (defs : list ColDef) (r : Row) (s : Z) :
  Forall (fun d => cd_key d = NoKey) defs -> bump s defs r = s.
Proof.
  unfold bump. revert s. induction defs as [|d defs IH]; simpl; intros s Hall.
  - reflexivity.
  - inversion Hall as [|? ? Hd Hall']; subst. unfold is_auto at 2. rewrite Hd.
    now apply IH.
Qed.

Lemma bump_pk (ds : list ColDef) (r : Row) (s : Z) :
  Forall (fun d => cd_key d = NoKey) ds ->
  row_get r SQLITE_RESERVED_PRIMARY_KEY = VInt (s + 1) ->
  bump s (pkDef :: ds) r = s + 1.
Proof.
  intros Hds Hid. unfold bump. cbn [fold_left].
  replace (if is_auto pkDef
           then match row_get r (cd_name pkDef) with
                | VInt z => Z.max s z
                | _ => s
                end
           else s) with (s + 1).
  - exact (bump_no_auto ds r (s + 1) Hds).
  - unfold is_auto. cbn [pkDef cd_key cd_name]. rewrite Hid. lia.
Qed.

(** Rows inserted without a value for the identity column get the next
    rowids, in order. *)
Lemma insert_rows_ids (H : Host) (ds : list ColDef) (givens : list Row) (t t' : Table) :
  t_defs t = pkDef :: ds ->
  Forall (fun d => cd_key d = NoKey) ds ->
  Forall (fun g => obj_get g SQLITE_RESERVED_PRIMARY_KEY = None) givens ->
  insert_rows H t givens = Some t' ->
  t_defs t' = pkDef :: ds
  /\ exists news,
      t_rows t' = t_rows t ++ news
      /\ length news = length givens
      /\ map (fun r => row_get r SQLITE_RESERVED_PRIMARY_KEY) news
         = map VInt (Zseq (t_seq t + 1) (length givens)).
Proof.
  intros Hdefs Hds. revert t Hdefs.
  induction givens as [|g gs IH]; intros t Hdefs Hg; cbn [insert_rows].
  - intros [= <-]. split; [exact Hdefs|]. exists []. now rewrite app_nil_r.
  - inversion Hg as [|? ? Hg1 Hgs]; subst.
    destruct (insert_row H t g) as [t1|] eqn:E1; [|discriminate].
    intros Hrest.
    unfold insert_row in E1.
    destruct (forallb _ g); [|discriminate].
    destruct (_ && _ && _); [|discriminate].
    injection E1 as <-.
    eapply IH in Hrest; [|exact Hdefs|exact Hgs].
    destruct Hrest as [Hd' [news [Hrows [Hlen Hids]]]].
    split; [exact Hd'|].
    cbn [t_rows t_seq t_defs] in Hrows, Hids.
    exists (new_row (t_seq t) g (t_defs t) :: news).
    split; [rewrite Hrows, <- app_assoc; reflexivity|].
    split; [simpl; now rewrite Hlen|].
    assert (Hid : row_get (new_row (t_seq t) g (t_defs t)) SQLITE_RESERVED_PRIMARY_KEY
                  = VInt (t_seq t + 1)).
    { rewrite Hdefs. unfold new_row, row_get. cbn [map obj_get cd_name pkDef].
      rewrite String.eqb_refl. unfold cell. cbn [cd_name pkDef].
      rewrite Hg1. reflexivity. }
    assert (Hb : bump (t_seq t) (t_defs t) (new_row (t_seq t) g (t_defs t))
                 = t_seq t + 1).
    { rewrite Hdefs at 1. apply bump_pk; assumption. }
    cbn [map length Zseq]. rewrite Hid. f_equal.
    rewrite Hids, Hb. reflexivity.
Qed.

Lemma copyCols_no_key (oldCols newCols : list string) :
  ~ In SQLITE_RESERVED_PRIMARY_KEY (copyCols oldCols newCols).
Proof.
  unfold copyCols. intros Hin. apply filter_In in Hin. destruct Hin as [_ Hf].
  now rewrite String.eqb_refl in Hf.
Qed.


Lemma colDefs_keys (H : Host) (columns : ColumnMapNorm) (defs : list ColDef) :
  colDefs H columns = inr defs -> Forall (fun d => cd_key d = NoKey) defs.
Proof.
  unfold colDefs, typedEntries. revert defs.
  induction columns as [|e columns IH]; simpl; intros defs.
  - intros [= <-]. constructor.
  - destruct (colDef H e) as [err|d] eqn:Ed; [discriminate|].
    destruct (mapE (colDef H) columns) as [err|ds]; [discriminate|].
    intros [= <-]. constructor; [now apply (colDef_key H e) | now apply IH].
Qed.

(** C9. [rebuildPreserveData] never copies the reserved primary key: it is
    not in the column list of the insert-select, whatever the two layouts
    are, and after a rebuild that succeeded the rows of the rebuilt table
    carry the identities 1, 2, ... that AUTOINCREMENT assigns in the new
    table, whatever identities the old rows had; the rebuilt table has one
    row per old row when some column is copied and no row otherwise. *)
Theorem C9_rebuild_assigns_fresh_row_ids (H : Host) (ctx : TableCtx) (w w' : World) :
  rebuildPreserveData H ctx w = Ok tt w' ->
  let copy := copyCols (table_info (w_db w) (tableName ctx))
                       (map fst (typedEntries (columns ctx))) in
  ~ In SQLITE_RESERVED_PRIMARY_KEY copy
  /\ exists told tnew,
      find_table (w_db w) (tableName ctx) = Some told
      /\ find_table (w_db w') (tableName ctx) = Some tnew
      /\ In SQLITE_RESERVED_PRIMARY_KEY (col_names tnew)
      /\ length (t_rows tnew) = (if nonempty copy then length (t_rows told) else 0%nat)
      /\ map (fun r => row_get r SQLITE_RESERVED_PRIMARY_KEY) (t_rows tnew)
         = map VInt (Zseq 1 (length (t_rows tnew))).
Proof.
  intros Hr copy. split; [apply copyCols_no_key|].
  destruct (rebuild_inv _ _ _ _ Hr) as [defs [db' [Hd [He ->]]]].
  destruct (rebuild_exec_spec _ _ _ _ _ _ _ (tmpName_ne_table H ctx w) He)
    as [told [tnew [Hold [Htmp [Hnew Hfind]]]]].
  exists told, tnew. split; [exact Hold|]. split; [exact Hfind|].
  fold copy in Hnew. destruct (nonempty copy) eqn:Hc.
  - destruct (insert_rows_ids H defs
                (map (fun r : Row => map (fun c : string => (c, row_get r c)) copy)
                     (t_rows told))
                (new_table (pkDef :: defs)) tnew eq_refl
                (colDefs_keys _ _ _ Hd)) as [Hdefs [news [Hrows [Hlen Hids]]]].
    + apply Forall_forall. intros g Hg. apply in_map_iff in Hg.
      destruct Hg as [r [<- _]]. apply obj_get_None_keys. unfold obj_keys.
      rewrite map_map. simpl. rewrite map_id. apply copyCols_no_key.
    + exact Hnew.
    + cbn [new_table t_rows t_seq app] in Hrows, Hids.
      rewrite length_map in Hlen, Hids.
      split; [unfold col_names; rewrite Hdefs; now left|].
      rewrite Hrows. split; [exact Hlen|]. rewrite Hlen. exact Hids.
  - subst tnew. cbn. split; [now left|]. now split.
Qed.

(** ** Writing and reading the Registry *)

Lemma new_row_get_given (seq : Z) (given : Row) (defs : list ColDef) (c : string)
      (v : SqlVal) :
  includes (map cd_name defs) c = true -> obj_get given c = Some v ->
  SqlVal_is_null v = false ->
  row_get (new_row seq given defs) c = v.
Proof.
  intros Hin Hg Hnn. unfold row_get, new_row.
  induction defs as [|d defs IH]; [discriminate|].
  cbn [map obj_get]. destruct (String.eqb (cd_name d) c) eqn:E.
  - apply String.eqb_eq in E. unfold cell. rewrite E, Hg, Hnn.
    now rewrite andb_false_r.
  - apply IH. unfold includes in *. cbn [map existsb] in Hin.
    rewrite String.eqb_sym, E in Hin. exact Hin.
Qed.

Lemma reg_update_match (table : string) (version now : Z) (r : Row) :
  reg_match table (reg_update table version now r) = reg_match table r.
Proof.
  unfold reg_update. destruct (reg_match table r) eqn:E; [|exact E].
  unfold reg_match, row_get in *.
  now rewrite !obj_get_set_other by discriminate.
Qed.

Lemma reg_update_version (table : string) (version now : Z) (r : Row) :
  reg_match table r = true ->
  row_get (reg_update table version now r) "version" = VInt version.
Proof.
  intros Hm. unfold reg_update. rewrite Hm. unfold row_get.
  rewrite obj_get_set_other by discriminate. now rewrite obj_get_set_same.
Qed.

Lemma reg_versions_updated (table : string) (version now : Z) (rows : list Row) :
  existsb (reg_match table) rows = true ->
  exists rest,
    map (fun r => row_get r "version")
        (filter (reg_match table) (map (reg_update table version now) rows))
    = VInt version :: rest.
Proof.
  induction rows as [|r rows IH]; [discriminate|].
  cbn [existsb map filter]. rewrite reg_update_match.
  destruct (reg_match table r) eqn:E.
  - intros _. cbn [map]. rewrite reg_update_version by exact E. eauto.
  - cbn [orb]. exact IH.
Qed.

Lemma reg_versions_appended (table : string) (rows : list Row) (r : Row) (v : SqlVal) :
  existsb (reg_match table) rows = false -> reg_match table r = true ->
  row_get r "version" = v ->
  map (fun r => row_get r "version") (filter (reg_match table) (rows ++ [r])) = [v].
Proof.
  intros Hex Hm Hv. rewrite filter_app. cbn [filter]. rewrite Hm.
  assert (Hnil : filter (reg_match table) rows = []).
  { induction rows as [|r0 rows IH]; [reflexivity|].
    cbn [existsb filter] in *. apply orb_false_iff in Hex. destruct Hex as [-> Hex].
    now apply IH. }
  rewrite Hnil. cbn. now rewrite Hv.
Qed.

Lemma SqlVal_eqb_refl (v : SqlVal) : SqlVal_eqb v v = true.
Proof.
  destruct v; simpl; try reflexivity; try apply String.eqb_refl. apply Z.eqb_refl.
Qed.

(** A successful upsert leaves the version readable, and it is the one
    written. *)
Lemma upsert_version_spec (H : Host) (table : string) (version now : Z) (db db' : Db) :
  upsert_version H table version now db = Some db' ->
  exists rest, select_version db' table = Some (VInt version :: rest).
Proof.
  unfold upsert_version.
  destruct (find_table db REG_TABLE_NAME) as [t|] eqn:Ef; [|discriminate].
  destruct (includes (col_names t) "table_name") eqn:Hc1; [|discriminate].
  destruct (includes (col_names t) "version") eqn:Hc2; [|discriminate].
  destruct (includes (col_names t) "updated_at") eqn:Hc3; [|discriminate].
  cbn [andb].
  change (fun r : Row => SqlVal_eqb (row_get r "table_name") (VText table))
    with (reg_match table).
  destruct (existsb (reg_match table) (t_rows t)) eqn:Hex.
  - intros [= <-]. unfold select_version.
    rewrite (find_set_table_same _ _ _ _ Ef). unfold col_names in *. cbn [t_defs t_rows].
    rewrite Hc1, Hc2. cbn [andb].
    change (fun r : Row => SqlVal_eqb (row_get r "table_name") (VText table))
      with (reg_match table).
    change (fun r : Row =>
              if SqlVal_eqb (row_get r "table_name") (VText table)
              then obj_set (obj_set r "version" (VInt version)) "updated_at" (VInt now)
              else r) with (reg_update table version now).
    destruct (reg_versions_updated table version now _ Hex) as [rest Hrest].
    exists rest. f_equal. exact Hrest.
  - destruct (insert_row H t _) as [t'|] eqn:Ei; [|discriminate].
    intros [= <-]. unfold select_version.
    rewrite (find_set_table_same _ _ _ _ Ef).
    unfold insert_row in Ei. destruct (forallb _ _); [|discriminate].
    destruct (_ && _ && _); [|discriminate]. injection Ei as <-.
    unfold col_names in *. cbn [t_defs t_rows]. rewrite Hc1, Hc2. cbn [andb].
    change (fun r : Row => SqlVal_eqb (row_get r "table_name") (VText table))
      with (reg_match table).
    exists []. f_equal.
    apply reg_versions_appended; [exact Hex| |].
    + unfold reg_match. rewrite (new_row_get_given _ _ _ "table_name" (VText table)) by
        (assumption || reflexivity). apply SqlVal_eqb_refl.
    + now apply new_row_get_given.
Qed.

Lemma setTableVersion_Ok (H : Host) (table : string) (version : Z) (w w' : World) :
  setTableVersion H table version w = Ok tt w' ->
  tableVersion (w_db w') table = version
  /\ getTableVersion table w' = Ok version w'
  /\ w_writes w' = w_writes w ++ [{| vw_table := table;
                                     vw_recorded := tableVersion (w_db w) table;
                                     vw_version := version |}].
Proof.
  unfold setTableVersion. cbn [exec_all exec].
  destruct (upsert_version H table version (w_now w) (w_db w)) as [db'|] eqn:Eu;
    [|discriminate].
  intros [= <-]. destruct (upsert_version_spec _ _ _ _ _ _ Eu) as [rest Hs].
  unfold tableVersion, getTableVersion. cbn [with_db w_db w_writes]. rewrite Hs.
  now repeat split.
Qed.

Lemma setTableVersion_Err (H : Host) (table : string) (version : Z) (w w' : World)
      (e : Error) :
  setTableVersion H table version w = Err e w' ->
  w_db w' = w_db w
  /\ w_writes w' = w_writes w ++ [{| vw_table := table;
                                     vw_recorded := tableVersion (w_db w) table;
                                     vw_version := version |}].
Proof.
  unfold setTableVersion. cbn [exec_all exec].
  destruct (upsert_version H table version (w_now w) (w_db w)); [discriminate|].
  intros [= _ <-]. now split.
Qed.

Lemma getTableVersion_Ok (table : string) (w w' : World) (v : Z) :
  getTableVersion table w = Ok v w' -> w' = w /\ v = tableVersion (w_db w) table.
Proof.
  unfold getTableVersion, tableVersion.
  destruct (select_version (w_db w) table) as [rows|]; [|discriminate].
  intros [= <- <-]. now split.
Qed.

Lemma getTableVersion_Err (table : string) (w w' : World) (e : Error) :
  getTableVersion table w = Err e w' -> w' = w.
Proof.
  unfold getTableVersion.
  destruct (select_version (w_db w) table); [discriminate|]. now intros [= _ <-].
Qed.

(** ** The Migration Runner *)

Ltac bind_inv Hb :=
  let a := fresh "a" in
  let w1 := fresh "w" in
  let H1 := fresh "Hstep" in
  apply bind_Ok_inv in Hb; destruct Hb as [a [w1 [H1 Hb]]];
  match type of a with
  | unit => destruct a
  | _ => idtac
  end.

Lemma migrateLoop_done (H : Host) (ctx : TableCtx) (steps : list MigrationStep)
      (target : Z) (fuel : nat) (cur : Z) (w : World) :
  target <= cur -> migrateLoop H ctx steps target fuel cur w = Ok tt w.
Proof.
  intros Hle. destruct fuel; simpl;
    (destruct (cur <? target) eqn:E; [apply Z.ltb_lt in E; lia | reflexivity]).
Qed.

(** The loop: while [cur < target], one turn for [cur + 1], then the loop
    again from [cur + 1].  The fuel of [migrateWithSteps] never runs out. *)
Lemma migrateWithSteps_unfold (H : Host) (ctx : TableCtx) (ddl : DDLOption)
      (cur target : Z) (w : World) :
  cur < target ->
  migrateWithSteps H ctx ddl cur target w
  = (migrateTurn H ctx (migrationSteps ddl) (cur + 1) ;;;
     migrateWithSteps H ctx ddl (cur + 1) target) w.
Proof.
  intros Hlt. unfold migrateWithSteps.
  replace (Z.to_nat (target - cur)) with (S (Z.to_nat (target - (cur + 1)))) by lia.
  cbn [migrateLoop]. apply Z.ltb_lt in Hlt. now rewrite Hlt.
Qed.

Lemma migrateWithSteps_done (H : Host) (ctx : TableCtx) (ddl : DDLOption)
      (cur target : Z) (w : World) :
  target <= cur -> migrateWithSteps H ctx ddl cur target w = Ok tt w.
Proof. intros Hle. unfold migrateWithSteps. now apply migrateLoop_done. Qed.

(** More fuel than the turns that are left changes nothing: the loop never
    reaches the end of its fuel. *)
Lemma migrateLoop_enough_fuel (H : Host) (ctx : TableCtx) (ddl : DDLOption)
      (target : Z) (fuel : nat) :
  forall (cur : Z) (w : World),
    (Z.to_nat (target - cur) <= fuel)%nat ->
    migrateLoop H ctx (migrationSteps ddl) target fuel cur w
    = migrateWithSteps H ctx ddl cur target w.
Proof.
  induction fuel as [|fuel IH]; intros cur w Hle.
  - unfold migrateWithSteps. now replace (Z.to_nat (target - cur)) with 0%nat by lia.
  - destruct (Z.ltb_spec cur target) as [Hlt|Hge].
    + rewrite migrateWithSteps_unfold by exact Hlt. cbn [migrateLoop].
      apply Z.ltb_lt in Hlt. rewrite Hlt. apply Z.ltb_lt in Hlt. unfold bind.
      destruct (migrateTurn H ctx (migrationSteps ddl) (cur + 1) w); [|reflexivity].
      apply IH. lia.
    + rewrite migrateWithSteps_done by exact Hge. now apply migrateLoop_done.
Qed.

Lemma migrateTurn_Ok_inv (H : Host) (ctx : TableCtx) (steps : list MigrationStep)
      (next : Z) (w w' : World) :
  migrateTurn H ctx steps next w = Ok tt w' ->
  exists w0, setTableVersion H (tableName ctx) next w0 = Ok tt w'.
Proof.
  unfold migrateTurn. destruct (stepsByTo_get steps next); intros Hb;
    bind_inv Hb; eauto.
Qed.

(** A run of the loop that makes at least one turn and succeeds ends with
    the target version recorded. *)
Lemma migrateWithSteps_Ok_version (H : Host) (ctx : TableCtx) (ddl : DDLOption)
      (target : Z) (n : nat) :
  forall (cur : Z) (w w' : World),
    Z.to_nat (target - cur) = n -> cur < target ->
    migrateWithSteps H ctx ddl cur target w = Ok tt w' ->
    tableVersion (w_db w') (tableName ctx) = target
    /\ getTableVersion (tableName ctx) w' = Ok target w'.
Proof.
  induction n as [|n IH]; intros cur w w' Hn Hlt Hr; [lia|].
  rewrite migrateWithSteps_unfold in Hr by exact Hlt.
  apply bind_Ok_inv in Hr. destruct Hr as [[] [wa [Hturn Hr]]].
  destruct (migrateTurn_Ok_inv _ _ _ _ _ _ Hturn) as [wb Hset].
  destruct (setTableVersion_Ok _ _ _ _ _ Hset) as [Hv [Hg _]].
  destruct (Z.eq_dec (cur + 1) target) as [Heq|Hne].
  - rewrite migrateWithSteps_done in Hr by lia. injection Hr as <-.
    rewrite <- Heq. now split.
  - apply (IH (cur + 1) wa w'); [lia | lia | exact Hr].
Qed.

Lemma upgradeBranch_Ok_version (H : Host) (ctx : TableCtx) (ddl : DDLOption)
      (current target : Z) (w w' : World) :
  current < target ->
  upgradeBranch H ctx ddl current target w = Ok tt w' ->
  tableVersion (w_db w') (tableName ctx) = target
  /\ getTableVersion (tableName ctx) w' = Ok target w'.
Proof.
  intros Hlt. unfold upgradeBranch. destruct (nonempty (migrationSteps ddl)).
  - now apply (migrateWithSteps_Ok_version H ctx ddl target _ current w w' eq_refl).
  - intros Hb. do 3 bind_inv Hb.
    destruct (setTableVersion_Ok _ _ _ _ _ Hb) as [Hv [Hg _]]. now split.
Qed.


(** ** Legacy adoption *)

Lemma table_info_legacy (db : Db) (T : string) :
  table_info db T <> [] -> (0 <? length (table_info db T))%nat = true.
Proof. destruct (table_info db T); [contradiction | reflexivity]. Qed.

Lemma reconcile_settled (H : Host) (ctx : TableCtx) (ddl : DDLOption) (w : World) :
  ddlOption ctx = Some ddl -> 0 < version ddl ->
  getTableVersion (tableName ctx) w = Ok (version ddl) w ->
  reconcileSchema H ctx w = Ok tt w.
Proof.
  intros Hddl Hpos Hg. unfold reconcileSchema. rewrite Hddl.
  rewrite (bind_Ok _ _ _ _ _ Hg).
  destruct (version ddl =? 0) eqn:E0; [apply Z.eqb_eq in E0; lia|].
  unfold bind, ret. now rewrite Z.ltb_irrefl.
Qed.

(** C1, as the code has it.  In legacy adoption (a plan with a positive
    target, recorded version 0, a table that has columns) with an empty
    after-create-no-transaction batch, the legacy branch does not write the
    version itself but control falls through to the upgrade branch with
    current version 0: after the layout check (and rebuild) and the
    after-create-in-transaction batch, the Migration Runner or the full
    rebuild of that branch runs.  A pass that succeeds therefore ends with
    the target version recorded, and a further pass on the resulting store
    changes nothing: legacy adoption does not run again. *)
Theorem C1_legacy_adoption_falls_through_and_persists
        (H : Host) (ctx : TableCtx) (ddl : DDLOption) (w : World) :
  ddlOption ctx = Some ddl ->
  0 < version ddl ->
  tableVersion (w_db w) (tableName ctx) = 0 ->
  table_info (w_db w) (tableName ctx) <> [] ->
  afterCreateNoTxn ddl = [] ->
  reconcileSchema H ctx w
  = (getTableVersion (tableName ctx) ;;;
     when (negb (sameLayout ctx (table_info (w_db w) (tableName ctx))))
          (rebuildPreserveData H ctx) ;;;
     when (nonempty (afterCreateTxn ddl)) (runBatchTxn H (afterCreateTxn ddl)) ;;;
     upgradeBranch H ctx ddl 0 (version ddl)) w
  /\ forall w', reconcileSchema H ctx w = Ok tt w' ->
                tableVersion (w_db w') (tableName ctx) = version ddl
                /\ reconcileSchema H ctx w' = Ok tt w'.
Proof.
  intros Hddl Hpos Hv0 Hcols Hafter.
  assert (Heq : reconcileSchema H ctx w
                = (getTableVersion (tableName ctx) ;;;
                   when (negb (sameLayout ctx (table_info (w_db w) (tableName ctx))))
                        (rebuildPreserveData H ctx) ;;;
                   when (nonempty (afterCreateTxn ddl))
                        (runBatchTxn H (afterCreateTxn ddl)) ;;;
                   upgradeBranch H ctx ddl 0 (version ddl)) w).
  { unfold reconcileSchema. rewrite Hddl.
    destruct (getTableVersion (tableName ctx) w) as [v w0|e w0] eqn:Eg;
      [|now rewrite !(bind_Err _ _ _ _ _ Eg)].
    rewrite !(bind_Ok _ _ _ _ _ Eg).
    destruct (getTableVersion_Ok _ _ _ _ Eg) as [-> ->]. rewrite Hv0.
    cbn [Z.eqb]. unfold untrackedBranch.
    unfold getExistingColumns, bind. cbv beta iota.
    rewrite (table_info_legacy _ _ Hcols). cbn [negb]. rewrite Hafter. cbn [nonempty].
    destruct (when (negb (sameLayout ctx (table_info (w_db w) (tableName ctx))))
                   (rebuildPreserveData H ctx) w) as [[] w1|e w1]; [|reflexivity].
    destruct (when (nonempty (afterCreateTxn ddl)) (runBatchTxn H (afterCreateTxn ddl)) w1)
      as [[] w2|e w2]; [|reflexivity].
    unfold ret. apply Z.ltb_lt in Hpos. now rewrite Hpos. }
  split; [exact Heq|].
  intros w' Hok. rewrite Heq in Hok. do 3 bind_inv Hok.
  destruct (upgradeBranch_Ok_version H ctx ddl 0 (version ddl) _ _ Hpos Hok) as [Hv Hg].
  split; [exact Hv|]. now apply (reconcile_settled H ctx ddl).
Qed.

(** ** Bootstrap *)

(** The bootstrap path (a plan, recorded version 0, no table): the
    before-create batch statement by statement, [createTable] in its own
    transaction, the after-create-in-transaction batch in a second
    transaction, the after-create-no-transaction batch statement by
    statement, then the Registry write of the target; a pass that succeeds
    ends with the target recorded. *)
Lemma reconcile_bootstrap (H : Host) (ctx : TableCtx) (ddl : DDLOption) (w : World) :
  ddlOption ctx = Some ddl ->
  tableVersion (w_db w) (tableName ctx) = 0 ->
  table_info (w_db w) (tableName ctx) = [] ->
  reconcileSchema H ctx w
  = (getTableVersion (tableName ctx) ;;;
     when (nonempty (beforeCreateNoTxn ddl)) (runBatchNoTxn H (beforeCreateNoTxn ddl)) ;;;
     createTable H ctx ;;;
     when (nonempty (afterCreateTxn ddl)) (runBatchTxn H (afterCreateTxn ddl)) ;;;
     when (nonempty (afterCreateNoTxn ddl)) (runBatchNoTxn H (afterCreateNoTxn ddl)) ;;;
     setTableVersion H (tableName ctx) (version ddl)) w
  /\ forall w', reconcileSchema H ctx w = Ok tt w' ->
                tableVersion (w_db w') (tableName ctx) = version ddl.
Proof.
  intros Hddl Hv0 Hcols.
  assert (Heq : reconcileSchema H ctx w
                = (getTableVersion (tableName ctx) ;;;
                   when (nonempty (beforeCreateNoTxn ddl))
                        (runBatchNoTxn H (beforeCreateNoTxn ddl)) ;;;
                   createTable H ctx ;;;
                   when (nonempty (afterCreateTxn ddl))
                        (runBatchTxn H (afterCreateTxn ddl)) ;;;
                   when (nonempty (afterCreateNoTxn ddl))
                        (runBatchNoTxn H (afterCreateNoTxn ddl)) ;;;
                   setTableVersion H (tableName ctx) (version ddl)) w).
  { unfold reconcileSchema. rewrite Hddl.
    destruct (getTableVersion (tableName ctx) w) as [v w0|e w0] eqn:Eg;
      [|now rewrite !(bind_Err _ _ _ _ _ Eg)].
    rewrite !(bind_Ok _ _ _ _ _ Eg).
    destruct (getTableVersion_Ok _ _ _ _ Eg) as [-> ->]. rewrite Hv0.
    cbn [Z.eqb]. unfold untrackedBranch.
    unfold getExistingColumns, bind. cbv beta iota.
    rewrite Hcols. cbn [length Nat.ltb Nat.leb negb].
    destruct (when (nonempty (beforeCreateNoTxn ddl))
                   (runBatchNoTxn H (beforeCreateNoTxn ddl)) w) as [[] w1|e w1];
      [|reflexivity].
    destruct (createTable H ctx w1) as [[] w2|e w2]; [|reflexivity].
    destruct (when (nonempty (afterCreateTxn ddl)) (runBatchTxn H (afterCreateTxn ddl)) w2)
      as [[] w3|e w3]; [|reflexivity].
    destruct (when (nonempty (afterCreateNoTxn ddl))
                   (runBatchNoTxn H (afterCreateNoTxn ddl)) w3) as [[] w4|e w4];
      [|reflexivity].
    now destruct (setTableVersion H (tableName ctx) (version ddl) w4) as [[] w5|e w5]. }
  split; [exact Heq|].
  intros w' Hok. rewrite Heq in Hok. do 5 bind_inv Hok.
  now destruct (setTableVersion_Ok _ _ _ _ _ Hok).
Qed.

(** ** Computations that keep the Registry *)

Lemma keeps_ret {A} (a : A) : keeps (ret a).
Proof. intros w. now split. Qed.

Lemma keeps_throw {A} (e : Error) : keeps (@throw A e).
Proof. intros w. now split. Qed.

Lemma keeps_bind {A B} (m : M A) (k : A -> M B) :
  keeps m -> (forall a, keeps (k a)) -> keeps (bind m k).
Proof.
  intros Hm Hk w. unfold bind. specialize (Hm w).
  destruct (m w) as [a w1|e w1]; simpl in *.
  - destruct (Hk a w1) as [H1 H2]. destruct Hm as [H3 H4]. split; congruence.
  - exact Hm.
Qed.

Lemma keeps_when (c : bool) (m : M unit) : keeps m -> keeps (when c m).
Proof. destruct c; [trivial | intros _; apply keeps_ret]. Qed.

Lemma keeps_lift {A} (x : Error + A) : keeps (lift x).
Proof. destruct x; [apply keeps_throw | apply keeps_ret]. Qed.

Lemma keeps_runNoTxn (H : Host) (s : Stmt) :
  keeps_registry H s -> keeps (runNoTxn H s).
Proof.
  intros Hs w. unfold runNoTxn.
  destruct (exec H s (w_db w)) as [db'|] eqn:E; simpl; [|now split].
  split; [now apply Hs | reflexivity].
Qed.

Lemma keeps_runBatchTxn (H : Host) (ss : list Stmt) :
  Forall (keeps_registry H) ss -> keeps (runBatchTxn H ss).
Proof.
  intros Hs w. unfold runBatchTxn.
  destruct (exec_all H ss (w_db w)) as [db'|] eqn:E; simpl; [|now split].
  split; [now apply (exec_all_keeps H ss) | reflexivity].
Qed.

Lemma keeps_runTxn (H : Host) (s : Stmt) :
  keeps_registry H s -> keeps (runTxn H s).
Proof.
  intros Hs w. unfold runTxn.
  destruct (exec_all H [s] (w_db w)) as [db'|] eqn:E; simpl; [|now split].
  split; [|reflexivity]. apply (exec_all_keeps H [s]); [|exact E].
  now constructor.
Qed.

Lemma keeps_runBatchNoTxn (H : Host) (ss : list Stmt) :
  Forall (keeps_registry H) ss -> keeps (runBatchNoTxn H ss).
Proof.
  induction ss as [|s ss IH]; intros Hs; cbn [runBatchNoTxn].
  - apply keeps_ret.
  - inversion Hs; subst. apply keeps_bind; [now apply keeps_runNoTxn|].
    intros _. now apply IH.
Qed.

Lemma keeps_getExistingColumns (table : string) : keeps (getExistingColumns table).
Proof. intros w. now split. Qed.

Lemma keeps_getTableVersion (table : string) : keeps (getTableVersion table).
Proof.
  intros w. unfold getTableVersion.
  destruct (select_version (w_db w) table); now split.
Qed.

Lemma library_stmt_keeps (H : Host) (s : Stmt) :
  is_raw s = false -> ~ In REG_TABLE_NAME (touches s) -> keeps_registry H s.
Proof. intros Hr Hn db db' He. now apply (exec_find_other H s). Qed.

Lemma keeps_createTable (H : Host) (ctx : TableCtx) :
  tableName ctx <> REG_TABLE_NAME -> keeps (createTable H ctx).
Proof.
  intros Hne. unfold createTable. apply keeps_bind; [apply keeps_lift|].
  intros defs. apply keeps_runTxn. apply library_stmt_keeps; [reflexivity|].
  simpl. intuition congruence.
Qed.

Lemma keeps_rebuildPreserveData (H : Host) (ctx : TableCtx) :
  tableName ctx <> REG_TABLE_NAME -> keeps (rebuildPreserveData H ctx).
Proof.
  intros Hne w. unfold rebuildPreserveData. cbv zeta.
  pose proof (tmpName_ne_registry H ctx w) as Htmp.
  set (tmp0 := tmpName H ctx w) in *.
  match goal with
  | |- context [world_of (?m w)] => assert (Hk : keeps m)
  end.
  { apply keeps_bind; [apply keeps_lift|].
    intros defs. apply keeps_bind; [apply keeps_getExistingColumns|].
    intros oldCols. apply keeps_runBatchTxn. unfold rebuildStmts.
    repeat (apply Forall_app; split);
      [| destruct (nonempty _) |];
      repeat constructor;
      (apply library_stmt_keeps; [reflexivity | simpl; intuition congruence]). }
  exact (Hk w).
Qed.

Lemma keeps_runCustom (H : Host) (ctx : TableCtx) (c : Custom) :
  tableName ctx <> REG_TABLE_NAME ->
  custom_all (keeps_registry H) c ->
  keeps (runCustom (makeMigrationCtx H ctx) c).
Proof.
  intros Hne Hall. induction Hall; cbn [runCustom makeMigrationCtx mc_run mc_applyTxn
                                        mc_applyNoTxn mc_rebuildPreserveData
                                        mc_getExistingColumns].
  - apply keeps_ret.
  - apply keeps_throw.
  - apply keeps_bind; [now apply keeps_runTxn | intros _; assumption].
  - apply keeps_bind; [now apply keeps_runBatchTxn | intros _; assumption].
  - apply keeps_bind; [now apply keeps_runBatchNoTxn | intros _; assumption].
  - apply keeps_bind; [now apply keeps_rebuildPreserveData | intros _; assumption].
  - apply keeps_bind; [apply keeps_getExistingColumns | assumption].
Qed.

Lemma keeps_stepPhases (H : Host) (ctx : TableCtx) (step : MigrationStep) :
  tableName ctx <> REG_TABLE_NAME ->
  step_all (keeps_registry H) step ->
  keeps (stepPhases H ctx step).
Proof.
  intros Hne [Hpre [Htxn [Hpost Hcustom]]]. unfold stepPhases.
  apply keeps_bind; [apply keeps_when; now apply keeps_runBatchNoTxn | intros _].
  apply keeps_bind; [apply keeps_when; now apply keeps_rebuildPreserveData | intros _].
  apply keeps_bind; [apply keeps_when; now apply keeps_runBatchTxn | intros _].
  apply keeps_bind; [| intros _; apply keeps_when; now apply keeps_runBatchNoTxn].
  destruct (st_custom step); [now apply keeps_runCustom | apply keeps_ret].
Qed.





(** ** The recorded version never goes down *)

Lemma ext_refl (T : string) (w : World) : ext T w w.
Proof. split; [lia|]. exists []. now rewrite app_nil_r. Qed.

Lemma ext_trans (T : string) (w1 w2 w3 : World) :
  ext T w1 w2 -> ext T w2 w3 -> ext T w1 w3.
Proof.
  intros [Hv1 [l1 [Hw1 Hg1]]] [Hv2 [l2 [Hw2 Hg2]]]. split; [lia|].
  exists (l1 ++ l2). split; [now rewrite Hw2, Hw1, app_assoc|].
  apply Forall_app. now split.
Qed.

Lemma rises_bind (T : string) {A B} (P : World -> Prop) (m : M A) (Q : A -> World -> Prop)
      (k : A -> M B) (R : B -> World -> Prop) :
  rises T P m Q -> (forall a, rises T (Q a) (k a) R) -> rises T P (bind m k) R.
Proof.
  intros Hm Hk w HP. destruct (Hm w HP) as [Hext HQ]. unfold bind.
  destruct (m w) as [a w1|e w1]; cbn [world_of] in *.
  - destruct (Hk a w1 (HQ a w1 eq_refl)) as [Hext2 HR]. split.
    + now apply (ext_trans T w w1).
    + exact HR.
  - split; [exact Hext | discriminate].
Qed.

Lemma rises_weaken (T : string) {A} (P P' : World -> Prop) (m : M A)
      (Q Q' : A -> World -> Prop) :
  rises T P m Q -> (forall w, P' w -> P w) -> (forall a w, Q a w -> Q' a w) ->
  rises T P' m Q'.
Proof.
  intros Hm HP HQ w HP'. destruct (Hm w (HP w HP')) as [Hext Hq]. split; [exact Hext|].
  intros a w' Hok. apply HQ. now apply Hq.
Qed.

Lemma rises_keeps (T : string) {A} (c : Z) (m : M A) :
  keeps m -> rises T (ver_le T c) m (fun _ => ver_le T c).
Proof.
  intros Hk w HP. destruct (Hk w) as [Hreg Hwr].
  pose proof (tableVersion_same_registry _ _ T Hreg) as Hv.
  split.
  - split; [lia|]. exists []. now rewrite app_nil_r.
  - intros a w' Hok. rewrite Hok in Hv. cbn [world_of] in Hv.
    unfold ver_le in *. cbv beta. lia.
Qed.

Lemma rises_ret (T : string) {A} (P : World -> Prop) (a : A) :
  rises T P (ret a) (fun _ => P).
Proof.
  intros w HP. split; [apply ext_refl|]. now intros a' w' [= _ <-].
Qed.

Lemma rises_when (T : string) (c : Z) (b : bool) (m : M unit) :
  keeps m -> rises T (ver_le T c) (when b m) (fun _ => ver_le T c).
Proof. intros Hk. apply rises_keeps. now apply keeps_when. Qed.

Lemma rises_setTableVersion (H : Host) (T : string) (c v : Z) :
  c <= v -> rises T (ver_le T c) (setTableVersion H T v) (fun _ => ver_le T v).
Proof.
  intros Hcv w HP. unfold ver_le in *.
  destruct (setTableVersion H T v w) as [[] w'|e w'] eqn:Es; cbn [world_of].
  - destruct (setTableVersion_Ok _ _ _ _ _ Es) as [Hv [_ Hw]]. split.
    + split; [lia|]. eexists. split; [exact Hw|].
      constructor; [unfold good_write; cbn; lia | constructor].
    + intros [] w0 [= <-]. cbv beta. lia.
  - destruct (setTableVersion_Err _ _ _ _ _ _ Es) as [Hdb Hw]. split.
    + split; [rewrite Hdb; lia|]. eexists. split; [exact Hw|].
      constructor; [unfold good_write; cbn; lia | constructor].
    + discriminate.
Qed.

Lemma stepsByTo_get_In (steps : list MigrationStep) (v : Z) (step : MigrationStep) :
  stepsByTo_get steps v = Some step -> In step steps.
Proof.
  unfold stepsByTo_get. intros Hf. apply find_some in Hf. destruct Hf as [Hin _].
  now apply in_rev.
Qed.

Section Monotone.

Variable H : Host.
Variable ctx : TableCtx.
Variable ddl : DDLOption.
Hypothesis Hne : tableName ctx <> REG_TABLE_NAME.
Hypothesis Hplan : plan_all (keeps_registry H) ddl.

Let T := tableName ctx.

Lemma rises_migrateTurn (cur : Z) :
  rises T (ver_le T cur) (migrateTurn H ctx (migrationSteps ddl) (cur + 1))
        (fun _ => ver_le T (cur + 1)).
Proof.
  unfold migrateTurn.
  destruct (stepsByTo_get (migrationSteps ddl) (cur + 1)) as [step|] eqn:Eg.
  - apply rises_bind with (Q := fun _ => ver_le T cur).
    + apply rises_keeps. apply keeps_stepPhases; [exact Hne|].
      destruct Hplan as [_ [_ [_ Hsteps]]]. rewrite Forall_forall in Hsteps.
      apply Hsteps. now apply (stepsByTo_get_In _ (cur + 1)).
    + intros _. apply rises_setTableVersion. lia.
  - apply rises_bind with (Q := fun _ => ver_le T cur).
    + apply rises_keeps. now apply keeps_rebuildPreserveData.
    + intros _. apply rises_setTableVersion. lia.
Qed.

Lemma rises_migrateLoop (target : Z) (fuel : nat) :
  forall cur, rises T (ver_le T cur)
                    (migrateLoop H ctx (migrationSteps ddl) target fuel cur)
                    (fun _ _ => True).
Proof.
  induction fuel as [|fuel IH]; intros cur; cbn [migrateLoop];
    destruct (cur <? target).
  - intros w _. split; [apply ext_refl | trivial].
  - intros w _. split; [apply ext_refl | trivial].
  - apply rises_bind with (Q := fun _ => ver_le T (cur + 1)).
    + apply rises_migrateTurn.
    + intros _. apply IH.
  - intros w _. split; [apply ext_refl | trivial].
Qed.

Lemma rises_upgradeBranch (current target : Z) :
  current < target ->
  rises T (ver_le T current) (upgradeBranch H ctx ddl current target) (fun _ _ => True).
Proof.
  intros Hlt. unfold upgradeBranch. destruct Hplan as [_ [Htxn [Hno _]]].
  destruct (nonempty (migrationSteps ddl)).
  - apply rises_migrateLoop.
  - apply rises_bind with (Q := fun _ => ver_le T current);
      [apply rises_keeps; now apply keeps_rebuildPreserveData | intros _].
    apply rises_bind with (Q := fun _ => ver_le T current);
      [apply rises_when; now apply keeps_runBatchTxn | intros _].
    apply rises_bind with (Q := fun _ => ver_le T current);
      [apply rises_when; now apply keeps_runBatchNoTxn | intros _].
    apply rises_weaken with (P := ver_le T current) (Q := fun _ => ver_le T target);
      [apply rises_setTableVersion; lia | trivial | trivial].
Qed.

Lemma rises_untrackedBranch (target : Z) :
  0 < target ->
  rises T (ver_le T 0) (untrackedBranch H ctx ddl target)
        (fun returned w => returned = false -> ver_le T 0 w).
Proof.
  intros Hpos. unfold untrackedBranch. destruct Hplan as [Hbefore [Htxn [Hno _]]].
  apply rises_bind with (Q := fun _ => ver_le T 0);
    [apply rises_keeps; apply keeps_getExistingColumns | intros legacyCols].
  destruct (negb (0 <? length legacyCols)%nat).
  - apply rises_bind with (Q := fun _ => ver_le T 0);
      [apply rises_when; now apply keeps_runBatchNoTxn | intros _].
    apply rises_bind with (Q := fun _ => ver_le T 0);
      [apply rises_keeps; now apply keeps_createTable | intros _].
    apply rises_bind with (Q := fun _ => ver_le T 0);
      [apply rises_when; now apply keeps_runBatchTxn | intros _].
    apply rises_bind with (Q := fun _ => ver_le T 0);
      [apply rises_when; now apply keeps_runBatchNoTxn | intros _].
    apply rises_bind with (Q := fun _ => ver_le T target);
      [apply rises_setTableVersion; lia | intros _].
    intros w _. split; [apply ext_refl|]. intros a w' [= <- _]. discriminate.
  - apply rises_bind with (Q := fun _ => ver_le T 0);
      [apply rises_when; now apply keeps_rebuildPreserveData | intros _].
    apply rises_bind with (Q := fun _ => ver_le T 0);
      [apply rises_when; now apply keeps_runBatchTxn | intros _].
    destruct (nonempty (afterCreateNoTxn ddl)).
    + apply rises_bind with (Q := fun _ => ver_le T 0);
        [apply rises_keeps; now apply keeps_runBatchNoTxn | intros _].
      apply rises_bind with (Q := fun _ => ver_le T target);
        [apply rises_setTableVersion; lia | intros _].
      intros w _. split; [apply ext_refl|]. intros a w' [= <- _]. discriminate.
    + intros w HP. split; [apply ext_refl|]. now intros a w' [= <- <-] _.
Qed.

End Monotone.

Lemma rises_reconcileSchema (H : Host) (ctx : TableCtx) :
  tableName ctx <> REG_TABLE_NAME -> plan_ok H ctx ->
  forall w, ext (tableName ctx) w (world_of (reconcileSchema H ctx w)).
Proof.
  intros Hne Hok w. unfold plan_ok in Hok. unfold reconcileSchema.
  destruct (ddlOption ctx) as [ddl|].
  - destruct Hok as [Hpos Hplan].
    assert (Hr : rises (tableName ctx) (fun _ => True)
                       (current <- getTableVersion (tableName ctx) ;;
                        returned <- (if current =? 0
                                     then untrackedBranch H ctx ddl (version ddl)
                                     else ret false) ;;
                        if returned then ret tt
                        else when (current <? version ddl)
                                  (upgradeBranch H ctx ddl current (version ddl)))
                       (fun _ _ => True)).
    { apply rises_bind with (Q := fun current => ver_le (tableName ctx) current).
      - intros w0 _. split.
        + destruct (keeps_getTableVersion (tableName ctx) w0) as [Hreg Hwr].
          split; [rewrite (tableVersion_same_registry _ _ _ Hreg); lia|].
          exists []. now rewrite app_nil_r.
        + intros a w' Hg. destruct (getTableVersion_Ok _ _ _ _ Hg) as [-> ->].
          unfold ver_le. lia.
      - intros current.
        apply rises_bind with (Q := fun returned w' =>
                                      returned = false -> ver_le (tableName ctx) current w').
        + destruct (current =? 0) eqn:E0.
          * apply Z.eqb_eq in E0. subst current.
            now apply rises_untrackedBranch.
          * intros w0 HP. split; [apply ext_refl|]. now intros a w' [= <- <-] _.
        + intros [|].
          * intros w0 _. split; [apply ext_refl | trivial].
          * destruct (current <? version ddl) eqn:El; cbn [when].
            -- apply Z.ltb_lt in El.
               apply rises_weaken with (P := ver_le (tableName ctx) current)
                                       (Q := fun _ _ => True);
                 [now apply rises_upgradeBranch | auto | trivial].
            -- intros w0 _. split; [apply ext_refl | trivial]. }
    now destruct (Hr w I).
  - destruct (keeps_bind (getExistingColumns (tableName ctx))
                         (fun legacyCols => when (length legacyCols =? 0)%nat
                                                 (createTable H ctx))
                         (keeps_getExistingColumns _)
                         (fun _ => keeps_when _ _ (keeps_createTable H ctx Hne)) w)
      as [Hreg Hwr].
    split; [rewrite (tableVersion_same_registry _ _ _ Hreg); lia|].
    exists []. now rewrite app_nil_r.
Qed.

(** C6. Over any sequence of reconciliation passes for a table (each with
    its own Declared Schema and plan, a plan having a positive target and
    statements that do not write the Registry's table), whether the passes
    succeed or fail, the version the Registry records for the table does
    not go down, and every call of [setTableVersion] made by
    [reconcileSchema] or [migrateWithSteps] passes a version that is not
    lower than the one recorded at the time of the call. *)
Theorem C6_registry_version_never_decreases
        (H : Host) (T : string) (ctxs : list TableCtx) (w : World) :
  T <> REG_TABLE_NAME ->
  Forall (fun ctx => tableName ctx = T /\ plan_ok H ctx) ctxs ->
  tableVersion (w_db w) T <= tableVersion (w_db (run_passes H ctxs w)) T
  /\ exists calls,
      w_writes (run_passes H ctxs w) = w_writes w ++ calls
      /\ Forall (fun c => vw_recorded c <= vw_version c) calls.
Proof.
  intros Hne Hall. change (ext T w (run_passes H ctxs w)).
  revert w. induction Hall as [|ctx ctxs [HT Hok] Hall IH]; intros w; cbn [run_passes].
  - apply ext_refl.
  - apply (ext_trans T w (world_of (reconcileSchema H ctx w))).
    + rewrite <- HT. apply rises_reconcileSchema; [now rewrite HT | exact Hok].
    + apply IH.
Qed.

(** ** What a rebuild preserves *)








(** ** Inserting a validated row *)









(** ** The theorems at concrete inputs *)

Lemma sampleHost_raw_keeps (sql : string) (params : list SqlParam) :
  keeps_registry sampleHost (Raw sql params).
Proof.
  intros db db'. simpl. destruct (String.eqb sql "FAIL"); [discriminate|].
  now intros [= <-].
Qed.

(** The claim C1 as it is written fails: a legacy table, a plan with
    target 1 and no after-create-no-transaction batch; the pass succeeds
    and the Registry then holds version 1, written by one call. *)
Lemma C1_counterexample :
  ddlOption ctxV1 = Some planV1
  /\ afterCreateNoTxn planV1 = []
  /\ tableVersion (w_db untrackedWorld) "t" = 0
  /\ table_info (w_db untrackedWorld) "t" = ["row_id"; "a"]
  /\ reconcileSchema sampleHost ctxV1 untrackedWorld = Ok tt adoptedWorld
  /\ tableVersion (w_db adoptedWorld) "t" = 1
  /\ tableVersion (w_db adoptedWorld) "t" <> 0
  /\ w_writes adoptedWorld = [{| vw_table := "t"; vw_recorded := 0; vw_version := 1 |}].
Proof.
  repeat split; try reflexivity. vm_compute. discriminate.
Qed.

Lemma C1_witness :
  ddlOption ctxV1 = Some planV1
  /\ 0 < version planV1
  /\ tableVersion (w_db untrackedWorld) (tableName ctxV1) = 0
  /\ table_info (w_db untrackedWorld) (tableName ctxV1) <> []
  /\ afterCreateNoTxn planV1 = []
  /\ tableVersion (w_db adoptedWorld) (tableName ctxV1) = version planV1
  /\ reconcileSchema sampleHost ctxV1 adoptedWorld = Ok tt adoptedWorld.
Proof.
  assert (H1 : ddlOption ctxV1 = Some planV1) by reflexivity.
  assert (H2 : 0 < version planV1) by (simpl; lia).
  assert (H3 : tableVersion (w_db untrackedWorld) (tableName ctxV1) = 0) by reflexivity.
  assert (H4 : table_info (w_db untrackedWorld) (tableName ctxV1) <> [])
    by (vm_compute; discriminate).
  assert (H5 : afterCreateNoTxn planV1 = []) by reflexivity.
  repeat (split; [assumption|]).
  apply (C1_legacy_adoption_falls_through_and_persists
           sampleHost ctxV1 planV1 untrackedWorld H1 H2 H3 H4 H5).
  vm_compute. reflexivity.
Defined.

(** C2 on the code.  The old layout (row_id, Name) and the Declared Schema
    {name} share the column name when case is ignored, and the layout
    check of [reconcileSchema] does take the two for the same column; yet
    [rebuildPreserveData] matches names exactly, finds no column to copy,
    runs no insert-select, and the rebuilt table (row_id, name) has no row:
    the value 'x' is not preserved. *)
Theorem C2_rebuild_loses_column_that_differs_in_case :
  toLowerCase "Name" = toLowerCase "name"
  /\ sameLayout ctxCase ["Name"] = true
  /\ find_table (w_db caseWorld) "t"
     = Some {| t_defs := [pkDef; textDef "Name"];
               t_rows := [[("row_id", VInt 1); ("Name", VText "x")]];
               t_seq := 1 |}
  /\ copyCols (table_info (w_db caseWorld) "t") (map fst (columns ctxCase)) = []
  /\ rebuildPreserveData sampleHost ctxCase caseWorld = Ok tt caseRebuiltWorld
  /\ find_table (w_db caseRebuiltWorld) "t"
     = Some {| t_defs := [pkDef; textDef "name"]; t_rows := []; t_seq := 0 |}.
Proof. repeat split; reflexivity. Qed.

(** C3 on the code.  Bootstrap (a plan, recorded version 0, no table) with
    an after-create-in-transaction batch that the engine rejects: the batch
    is rolled back and the pass fails, but the table is there, because
    [createTable] ran and committed in a transaction of its own; no version
    is recorded.  Had CREATE TABLE and the batch been one transaction, as
    the plan's documentation describes, the store would hold no table. *)
Theorem C3_bootstrap_creates_table_in_its_own_transaction :
  getTableVersion "t" metaWorld = Ok 0 metaWorld
  /\ table_info (w_db metaWorld) "t" = []
  /\ reconcileSchema sampleHost ctxV1Failing metaWorld
     = Err (ETransaction [Raw "FAIL" []]) halfCreatedWorld
  /\ find_table (w_db halfCreatedWorld) "t" = Some (new_table [pkDef; textDef "a"])
  /\ tableVersion (w_db halfCreatedWorld) "t" = 0
  /\ w_writes halfCreatedWorld = []
  /\ exec_all sampleHost
              (CreateTable true "t" [pkDef; textDef "a"] :: [Raw "FAIL" []])
              (w_db metaWorld) = None.
Proof. repeat split; reflexivity. Qed.



Lemma C6_witness :
  "t" <> REG_TABLE_NAME
  /\ tableVersion (w_db metaWorld) "t"
     <= tableVersion
          (w_db (run_passes sampleHost [ctxUnmanaged; ctxV1; ctxV2Failing; ctxV3; ctxV1]
                            metaWorld)) "t"
  /\ exists calls,
      w_writes (run_passes sampleHost [ctxUnmanaged; ctxV1; ctxV2Failing; ctxV3; ctxV1]
                           metaWorld)
      = w_writes metaWorld ++ calls
      /\ Forall (fun c => vw_recorded c <= vw_version c) calls.
Proof.
  assert (H1 : "t" <> REG_TABLE_NAME) by discriminate.
  split; [exact H1|].
  apply (C6_registry_version_never_decreases sampleHost "t"); [exact H1|].
  repeat constructor; simpl; try lia;
    repeat constructor; apply sampleHost_raw_keeps.
Defined.

Lemma C7_witness :
  ddlOption ctxUnmanaged = None
  /\ w_writes (world_of (reconcileSchema sampleHost ctxUnmanaged metaWorld))
     = w_writes metaWorld
  /\ reconcileSchema sampleHost ctxUnmanaged untrackedWorld = Ok tt untrackedWorld.
Proof.
  assert (H1 : ddlOption ctxUnmanaged = None) by reflexivity.
  split; [exact H1|]. split.
  - destruct (C7_unmanaged_mode sampleHost ctxUnmanaged metaWorld H1) as [[Hw _] _].
    exact Hw.
  - destruct (C7_unmanaged_mode sampleHost ctxUnmanaged untrackedWorld H1)
      as [_ [Hsame _]].
    apply Hsame. intros Hcols. vm_compute in Hcols. discriminate Hcols.
Defined.

Lemma C8_witness :
  (count_tables (w_db newWorld) REG_TABLE_NAME <= 1)%nat
  /\ (count_indexes (w_db newWorld) REG_INDEX_NAME <= 1)%nat
  /\ (count_tables (w_db metaWorld) REG_TABLE_NAME <= 1)%nat
  /\ (count_indexes (w_db metaWorld) REG_INDEX_NAME <= 1)%nat
  /\ ensureMeta sampleHost newWorld = Ok tt metaWorld
  /\ repeatM 3 (ensureMeta sampleHost) newWorld = Ok tt metaWorld
  /\ ensureMeta sampleHost metaWorld = Ok tt metaWorld
  /\ count_tables (w_db metaWorld) REG_TABLE_NAME = 1%nat
  /\ count_indexes (w_db metaWorld) REG_INDEX_NAME = 1%nat.
Proof.
  assert (H1 : (count_tables (w_db newWorld) REG_TABLE_NAME <= 1)%nat)
    by (vm_compute; lia).
  assert (H2 : (count_indexes (w_db newWorld) REG_INDEX_NAME <= 1)%nat)
    by (vm_compute; lia).
  assert (H3 : (count_tables (w_db metaWorld) REG_TABLE_NAME <= 1)%nat)
    by (vm_compute; lia).
  assert (H4 : (count_indexes (w_db metaWorld) REG_INDEX_NAME <= 1)%nat)
    by (vm_compute; lia).
  destruct (C8_ensureMeta_idempotent sampleHost newWorld 2 H1 H2)
    as [w1 [E1 [_ [_ [_ [_ E3]]]]]].
  { intros t Hf. discriminate Hf. }
  { intros i []. }
  destruct (C8_ensureMeta_idempotent sampleHost metaWorld 0 H3 H4)
    as [w2 [E4 [Ht [Hi [_ [E5 _]]]]]].
  { intros t Hf. vm_compute in Hf. injection Hf as <-. reflexivity. }
  { intros i [<-|[]] _. split; reflexivity. }
  assert (Hw1 : Ok tt w1 = Ok tt metaWorld) by (rewrite <- E1; reflexivity).
  assert (Hw2 : Ok tt w2 = Ok tt metaWorld) by (rewrite <- E4; reflexivity).
  injection Hw1 as ->. injection Hw2 as ->.
  repeat (split; [assumption|]). exact Hi.
Defined.

Lemma C9_witness :
  rebuildPreserveData sampleHost ctxUnmanaged untrackedWorld = Ok tt rebuiltWorld
  /\ option_map (fun t => map (fun r => row_get r "row_id") (t_rows t))
                (find_table (w_db untrackedWorld) "t") = Some [VInt 5; VInt 9]
  /\ exists told tnew,
      find_table (w_db untrackedWorld) (tableName ctxUnmanaged) = Some told
      /\ find_table (w_db rebuiltWorld) (tableName ctxUnmanaged) = Some tnew
      /\ In SQLITE_RESERVED_PRIMARY_KEY (col_names tnew)
      /\ length (t_rows tnew)
         = (if nonempty (copyCols (table_info (w_db untrackedWorld)
                                              (tableName ctxUnmanaged))
                                  (map fst (typedEntries (columns ctxUnmanaged))))
            then length (t_rows told) else 0%nat)
      /\ map (fun r => row_get r SQLITE_RESERVED_PRIMARY_KEY) (t_rows tnew)
         = map VInt (Zseq 1 (length (t_rows tnew))).
Proof.
  assert (H1 : rebuildPreserveData sampleHost ctxUnmanaged untrackedWorld
               = Ok tt rebuiltWorld) by reflexivity.
  split; [exact H1|]. split; [reflexivity|].
  apply (C9_rebuild_assigns_fresh_row_ids sampleHost ctxUnmanaged untrackedWorld
                                          rebuiltWorld H1).
Defined.



(* ================================================================= *)
(** * More of the library *)

(** ** Quoting *)

Lemma readQuotedBody_doubled (c : ascii) (s rest : string) :
  starts_with c rest = false ->
  readQuotedBody c (doubled c s ++ String c rest)%string = Some (s, rest).
Proof.
  intros Hrest. induction s as [|a s IH]; simpl.
  - rewrite Ascii.eqb_refl. destruct rest as [|b rest']; [reflexivity|].
    simpl in Hrest. now rewrite Hrest.
  - destruct (Ascii.eqb a c) eqn:Eac.
    + apply Ascii.eqb_eq in Eac. subst a. simpl.
      rewrite !Ascii.eqb_refl. rewrite IH. reflexivity.
    + simpl. rewrite Eac. rewrite IH. reflexivity.
Qed.

Lemma string_app_assoc (a b c : string) : ((a ++ b) ++ c)%string = (a ++ b ++ c)%string.
Proof. induction a; simpl; congruence. Qed.

Lemma readQuoted_quoted (c : ascii) (s rest : string) :
  starts_with c rest = false ->
  readQuoted c (quoted c s ++ rest)%string = Some (s, rest).
Proof.
  intros Hrest. unfold quoted, readQuoted. simpl. rewrite Ascii.eqb_refl.
  rewrite string_app_assoc. simpl.
  now apply readQuotedBody_doubled.
Qed.


(** X1. The text [q] renders for an identifier is read by the engine as
    one quoted identifier that names exactly the identifier given, whatever
    characters it holds and whatever follows that is not a quote; so two
    identifiers that differ are rendered differently. *)
Theorem X1_q_reads_back_as_one_identifier (s rest : string) :
  starts_with dquote rest = false ->
  readQuoted dquote (q s ++ rest)%string = Some (s, rest)
  /\ forall s', q s' = q s -> s' = s.
Proof.
  intros Hrest. split.
  - now apply readQuoted_quoted.
  - intros s' Heq.
    pose proof (readQuoted_quoted dquote s' "" eq_refl) as H1.
    pose proof (readQuoted_quoted dquote s "" eq_refl) as H2.
    unfold q in Heq. rewrite Heq in H1. rewrite H1 in H2. congruence.
Qed.

(** X2. For a TEXT or BLOB column, the text [formatDefault] returns for a
    default that is not null is one SQL string literal: the engine reads it
    back as the text of the default ([String(def)], or its JSON text for a
    BLOB), apostrophes included, and that text is the literal of the
    column definition. *)
Theorem X2_formatDefault_renders_one_string_literal
        (H : Host) (type : ColumnType) (def : JsVal) (rest : string) :
  is_null def = false ->
  type = TEXT \/ type = BLOB ->
  starts_with squote rest = false ->
  let payload := match type with
                 | TEXT => js_String H def
                 | _ => JSON_stringify H def
                 end in
  exists txt,
    formatDefaultText H type def = inr txt
    /\ readQuoted squote (txt ++ rest)%string = Some (payload, rest)
    /\ formatDefault H type def = inr (LitQuoted payload).
Proof.
  intros Hnull Htype Hrest payload. subst payload.
  unfold formatDefaultText, formatDefault. rewrite Hnull.
  destruct Htype as [-> | ->]; simpl;
    (eexists; split; [reflexivity|]; split; [|reflexivity]);
    now apply readQuoted_quoted.
Qed.

(** ** The statements of update, delete and findByKeyValue *)






Lemma mapE_length {A B} (f : A -> Error + B) (l : list A) (l' : list B) :
  mapE f l = inr l' -> length l' = length l.
Proof.
  revert l'. induction l as [|a l IH]; simpl; intros l' Hm.
  - now inversion Hm.
  - destruct (f a); [discriminate|]. destruct (mapE f l); [discriminate|].
    inversion Hm. simpl. f_equal. now apply IH.
Qed.




(** ** The constructor and the normalised columns *)

Lemma obj_set_fresh {V} (o : Obj V) (k : string) (v : V) :
  ~ In k (obj_keys o) -> obj_set o k v = o ++ [(k, v)].
Proof.
  induction o as [|[k' v'] o IH]; simpl; intros Hn; [reflexivity|].
  destruct (String.eqb k' k) eqn:E.
  - apply String.eqb_eq in E. exfalso. apply Hn. now left.
  - f_equal. apply IH. intros Hin. apply Hn. now right.
Qed.

Lemma fold_obj_set_fresh {V} (es acc : Obj V) :
  NoDup (map fst es) ->
  (forall k, In k (map fst es) -> ~ In k (obj_keys acc)) ->
  fold_left (fun o e => obj_set o (fst e) (snd e)) es acc = acc ++ es.
Proof.
  revert acc. induction es as [|[k v] es IH]; simpl; intros acc Hnd Hfresh.
  - now rewrite app_nil_r.
  - inversion Hnd as [|? ? Hnot Hnd']; subst.
    rewrite obj_set_fresh by (apply Hfresh; now left).
    rewrite IH; [now rewrite <- app_assoc | exact Hnd' |].
    intros k' Hin Hacc. unfold obj_keys in Hacc. rewrite map_app in Hacc.
    apply in_app_or in Hacc. destruct Hacc as [Hacc|[<-|[]]].
    + apply (Hfresh k'); [now right | exact Hacc].
    + contradiction.
Qed.

Lemma Object_fromEntries_NoDup {V} (es : Obj V) :
  NoDup (map fst es) -> Object_fromEntries es = es.
Proof.
  intros Hnd. unfold Object_fromEntries.
  rewrite fold_obj_set_fresh; [reflexivity | exact Hnd | intros k _ []].
Qed.



(** X5. The constructor throws when the columns are missing or empty or
    declare the reserved identity column.  Otherwise, for columns with one
    entry per key, the object it builds is not connected and its columns are
    the declared ones in the declared order, each normalised: a column is
    nullable only where its declaration is an object that says
    [nullable: true]. *)
Theorem X5_constructor_rejects_or_normalizes
        (name : string) (cols : ColumnMapInput) (ddl : option DDLOption) :
  (exists e, newSQLiteTable name None ddl = inl e)
  /\ (cols = [] \/ In SQLITE_RESERVED_PRIMARY_KEY (obj_keys cols) ->
      exists e, newSQLiteTable name (Some cols) ddl = inl e)
  /\ (cols <> [] -> ~ In SQLITE_RESERVED_PRIMARY_KEY (obj_keys cols) ->
      NoDup (obj_keys cols) ->
      newSQLiteTable name (Some cols) ddl
      = inr {| this_ctx := {| tableName := name;
                              columns := map (fun e => (fst e, normalizeSpec (snd e))) cols;
                              ddlOption := ddl |};
               this_db := false |}
        /\ forall k spec,
          In (k, spec) (normalizeColumns cols) -> cs_nullable spec = true ->
          exists type default unique check,
            In (k, SpecObject type (Some true) default unique check) cols).
Proof.
  split; [eexists; reflexivity|]. split.
  - intros [-> | Hin].
    + eexists. reflexivity.
    + unfold newSQLiteTable.
      destruct (length (obj_keys cols) =? 0)%nat; [eexists; reflexivity|].
      destruct (obj_get cols SQLITE_RESERVED_PRIMARY_KEY) eqn:Eg; [eexists; reflexivity|].
      apply obj_get_None_keys in Eg. contradiction.
  - intros Hne Hres Hnd.
    assert (Hnorm : normalizeColumns cols
                    = map (fun e => (fst e, normalizeSpec (snd e))) cols).
    { unfold normalizeColumns, typedEntries. apply Object_fromEntries_NoDup.
      rewrite map_map. exact Hnd. }
    split.
    + unfold newSQLiteTable.
      destruct cols as [|c cols']; [contradiction|]. cbn [obj_keys map length Nat.eqb].
      destruct (obj_get (c :: cols') SQLITE_RESERVED_PRIMARY_KEY) eqn:Eg.
      * apply obj_get_keys_In in Eg. contradiction.
      * now rewrite Hnorm.
    + intros k spec Hin Hnull. rewrite Hnorm in Hin.
      apply in_map_iff in Hin. destruct Hin as [[k' s] [Heq Hin]].
      simpl in Heq. injection Heq as -> <-.
      destruct s as [type|type [[|]|] default unique check]; simpl in Hnull;
        try discriminate.
      now exists type, default, unique, check.
Qed.



(** ** What validateRow lets through *)

Lemma validateField_typed (row vr vr' : Obj JsVal) (k : string) (spec : ColumnSpecNorm) :
  validateField row vr (k, spec) = inr vr' ->
  vr' = vr
  \/ exists v v0, vr' = obj_set vr k v
                  /\ well_typed spec v = true
                  /\ obj_get row k = Some v0
                  /\ is_undefined v0 = false.
Proof.
  unfold validateField.
  destruct (obj_get row k) as [v|] eqn:Eg; [|intros [= <-]; now left].
  destruct (is_undefined v) eqn:Eu; [intros [= <-]; now left|].
  destruct (is_null v) eqn:En.
  { destruct (cs_nullable spec) eqn:Enl; cbn [negb]; [|discriminate].
    intros [= <-]. right. exists JNull, v. now repeat split. }
  destruct (cs_type spec) eqn:Et.
  - destruct v; try discriminate.
    destruct (String.eqb (trim s) "") eqn:Eb.
    + destruct (is_undefined (cs_default spec)); cbn [negb]; [|intros [= <-]; now left].
      destruct (cs_nullable spec) eqn:Enl; [|discriminate].
      intros [= <-]. right. exists JNull, (JStr s). now repeat split.
    + intros [= <-]. right. exists (JStr s), (JStr s).
      repeat split; try reflexivity. unfold well_typed. now rewrite Et, Eb.
  - destruct v; try discriminate. cbn [Number_isInteger negb].
    destruct (Number_isSafeInteger (JNum z)) eqn:Es; cbn [negb]; [|discriminate].
    intros [= <-]. right. exists (JNum z), (JNum z).
    repeat split; try reflexivity. unfold well_typed. now rewrite Et.
  - discriminate.
  - destruct v; try discriminate.
    intros [= <-]. right. exists (JBool b), (JBool b).
    repeat split; try reflexivity. unfold well_typed. now rewrite Et.
  - destruct v; try discriminate;
      intros [= <-]; right; eexists; eexists;
      (repeat split; try reflexivity); unfold well_typed; now rewrite Et.
Qed.

Lemma validateField_of_typed (row vr : Obj JsVal) (k : string) (spec : ColumnSpecNorm)
      (v : JsVal) :
  obj_get row k = Some v -> well_typed spec v = true ->
  validateField row vr (k, spec) = inr (obj_set vr k v).
Proof.
  intros Hg Ht. unfold validateField. rewrite Hg. unfold well_typed in Ht.
  destruct v; try discriminate; cbn [is_undefined is_null].
  - rewrite Ht. reflexivity.
  - destruct (cs_type spec); try discriminate.
    destruct (String.eqb (trim s) ""); [discriminate | reflexivity].
  - destruct (cs_type spec); try discriminate.
    cbn [Number_isInteger negb]. rewrite Ht. reflexivity.
  - destruct (cs_type spec); discriminate.
  - destruct (cs_type spec); try discriminate. reflexivity.
  - destruct (cs_type spec); try discriminate. reflexivity.
  - destruct (cs_type spec); try discriminate. reflexivity.
Qed.

Lemma obj_keys_set {V} (o : Obj V) (k k' : string) (v : V) :
  In k' (obj_keys (obj_set o k v)) -> k' = k \/ In k' (obj_keys o).
Proof.
  induction o as [|[k1 v1] o IH]; simpl.
  - intros [<-|[]]. now left.
  - destruct (String.eqb k1 k) eqn:E; simpl.
    + tauto.
    + intros [<-|Hin]; [right; now left|]. destruct (IH Hin); [now left | right; now right].
Qed.

Lemma validateFields_keys (row : Obj JsVal) (entries : list (string * ColumnSpecNorm)) :
  forall acc vr,
    validateFields row acc entries = inr vr ->
    forall k, In k (obj_keys vr) ->
              In k (obj_keys acc)
              \/ (In k (map fst entries)
                  /\ exists v, obj_get row k = Some v /\ is_undefined v = false).
Proof.
  induction entries as [|[k1 s1] entries IH];
    cbn [validateFields map fst In]; intros acc vr Hv k Hin.
  - injection Hv as <-. now left.
  - destruct (validateField row acc (k1, s1)) as [e|acc1] eqn:E1; [discriminate|].
    destruct (IH _ _ Hv k Hin) as [Hacc|[Hent Hrow]].
    + destruct (validateField_typed _ _ _ _ _ E1) as [->|[v [v0 [-> [_ [Hg Hu]]]]]].
      * now left.
      * apply obj_keys_set in Hacc. destruct Hacc as [->|Hacc]; [|now left].
        right. split; [now left|]. now exists v0.
    + right. split; [now right | exact Hrow].
Qed.

Lemma validateFields_ext (row row' : Obj JsVal) (entries : list (string * ColumnSpecNorm)) :
  (forall k, In k (map fst entries) -> obj_get row' k = obj_get row k) ->
  forall acc, validateFields row' acc entries = validateFields row acc entries.
Proof.
  induction entries as [|[k1 s1] entries IH];
    cbn [validateFields map fst In]; intros Hsame acc; [reflexivity|].
  assert (E : validateField row' acc (k1, s1) = validateField row acc (k1, s1)).
  { unfold validateField. rewrite Hsame by now left. reflexivity. }
  rewrite E. destruct (validateField row acc (k1, s1)); [reflexivity|].
  apply IH. intros k Hin. apply Hsame. now right.
Qed.

Lemma obj_get_filter_key {V} (p : string -> bool) (o : Obj V) (k : string) :
  p k = true -> obj_get (filter (fun e => p (fst e)) o) k = obj_get o k.
Proof.
  intros Hp. induction o as [|[k1 v1] o IH]; simpl; [reflexivity|].
  destruct (p k1) eqn:E1; simpl.
  - now rewrite IH.
  - destruct (String.eqb k1 k) eqn:E; [|exact IH].
    apply String.eqb_eq in E. congruence.
Qed.

Lemma validateRow_keys (ctx : TableCtx) (row vr : Obj JsVal) (k : string) :
  validateRow ctx row = inr vr -> In k (obj_keys vr) ->
  In k (obj_keys (columns ctx))
  /\ exists v, obj_get row k = Some v /\ is_undefined v = false.
Proof.
  intros Hv Hin. unfold validateRow, typedEntries in Hv.
  destruct (validateFields_keys _ _ _ _ Hv k Hin) as [[]|[Hent Hrow]].
  now split.
Qed.

(** X7. [validateRow] reads from the row the declared columns only: keys
    that are no declared column are dropped without an error, and every key
    of the validated row is a declared column for which the row holds a
    value other than undefined. *)
Theorem X7_validateRow_reads_declared_columns_only (ctx : TableCtx) (row : Obj JsVal) :
  validateRow ctx (filter (fun e => includes (obj_keys (columns ctx)) (fst e)) row)
  = validateRow ctx row
  /\ forall vr, validateRow ctx row = inr vr ->
                forall k, In k (obj_keys vr) ->
                          In k (obj_keys (columns ctx))
                          /\ exists v, obj_get row k = Some v /\ is_undefined v = false.
Proof.
  split.
  - unfold validateRow, typedEntries. apply validateFields_ext.
    intros k Hin.
    apply (obj_get_filter_key (includes (obj_keys (columns ctx)))).
    now apply includes_In.
  - intros vr Hv k Hin. now apply (validateRow_keys ctx row vr k).
Qed.

Lemma validateRow_typed (ctx : TableCtx) (row vr : Obj JsVal) (k : string)
      (spec : ColumnSpecNorm) (v : JsVal) :
  NoDup (obj_keys (columns ctx)) ->
  In (k, spec) (columns ctx) ->
  validateRow ctx row = inr vr ->
  obj_get vr k = Some v ->
  well_typed spec v = true.
Proof.
  intros Hnd Hin Hv Hg. unfold validateRow, typedEntries in Hv.
  destruct (validateFields_at _ _ _ _ _ _ Hnd Hin Hv) as [vr1 [vr2 [Ha [Hb Hc]]]].
  destruct (validateField_typed _ _ _ _ _ Hb) as [->|[v1 [v0 [-> [Ht _]]]]].
  - simpl in Ha. congruence.
  - rewrite obj_get_set_same in Hc. congruence.
Qed.

(** X8. Every value of a validated row fits its column: it is null only
    where the column is nullable, and otherwise a string that is not blank
    for TEXT, an integer of the safe range for INTEGER, a boolean for
    BOOLEAN, an object for BLOB; it is never undefined. *)
Theorem X8_validated_values_fit_their_columns
        (ctx : TableCtx) (row vr : Obj JsVal) (k : string) (spec : ColumnSpecNorm)
        (v : JsVal) :
  NoDup (obj_keys (columns ctx)) ->
  In (k, spec) (columns ctx) ->
  validateRow ctx row = inr vr ->
  obj_get vr k = Some v ->
  well_typed spec v = true
  /\ (v = JNull -> cs_nullable spec = true)
  /\ (v <> JNull ->
      match cs_type spec with
      | TEXT => exists s, v = JStr s /\ trim s <> ""
      | INTEGER => exists z, v = JNum z /\ - MAX_SAFE_INTEGER <= z <= MAX_SAFE_INTEGER
      | BOOLEAN => exists b, v = JBool b
      | BLOB => (exists j, v = JObj j) \/ (exists b, v = JBytes b)
      | REAL => False
      end).
Proof.
  intros Hnd Hin Hv Hg.
  pose proof (validateRow_typed ctx row vr k spec v Hnd Hin Hv Hg) as Ht.
  split; [exact Ht|]. split.
  - intros ->. exact Ht.
  - intros Hnn. unfold well_typed in Ht.
    destruct (cs_type spec); destruct v; try discriminate; try contradiction; eauto.
    + exists s. split; [reflexivity|]. intros Hs. rewrite Hs in Ht. discriminate.
    + exists z. split; [reflexivity|]. cbn [Number_isSafeInteger] in Ht.
      apply andb_prop in Ht. destruct Ht as [H1 H2].
      apply Z.leb_le in H1. apply Z.leb_le in H2. lia.
Qed.

Lemma mapE_total {A B} (f : A -> Error + B) (l : list A) :
  (forall a, In a l -> exists b, f a = inr b) -> exists l', mapE f l = inr l'.
Proof.
  induction l as [|a l IH]; simpl; intros Hf; [now exists []|].
  destruct (Hf a (or_introl eq_refl)) as [b ->].
  destruct IH as [l' ->]; [intros x Hx; apply Hf; now right|].
  now exists (b :: l').
Qed.




(** ** Validating twice *)

Lemma validateFields_again (row : Obj JsVal) (entries : list (string * ColumnSpecNorm)) :
  forall acc vr,
    NoDup (map fst entries) ->
    (forall k, In k (map fst entries) -> obj_get acc k = None) ->
    validateFields row acc entries = inr vr ->
    validateFields vr acc entries = inr vr.
Proof.
  induction entries as [|[k spec] entries IH];
    cbn [validateFields map fst In]; intros acc vr Hnd Hacc Hv; [exact Hv|].
  inversion Hnd as [|? ? Hnot Hnd']; subst.
  destruct (validateField row acc (k, spec)) as [e|acc1] eqn:E1; [discriminate|].
  pose proof (validateFields_other _ _ _ _ k Hv Hnot) as Hk.
  assert (E2 : validateField vr acc (k, spec) = inr acc1).
  { destruct (validateField_typed _ _ _ _ _ E1) as [->|[v [v0 [-> [Ht _]]]]].
    - unfold validateField. rewrite Hk, (Hacc k) by now left. reflexivity.
    - rewrite obj_get_set_same in Hk. now apply validateField_of_typed. }
  rewrite E2. apply IH; [exact Hnd' | | exact Hv].
  intros k' Hin.
  assert (Hne : k <> k') by (intros ->; contradiction).
  rewrite (validateField_other _ _ _ _ k' _ E1 Hne). apply Hacc. now right.
Qed.

(** X10. Validation is idempotent: a row that [validateRow] returned is
    accepted by [validateRow] as it is. *)
Theorem X10_validateRow_is_idempotent (ctx : TableCtx) (row vr : Obj JsVal) :
  NoDup (obj_keys (columns ctx)) ->
  validateRow ctx row = inr vr ->
  validateRow ctx vr = inr vr.
Proof.
  intros Hnd Hv. unfold validateRow, typedEntries in *.
  apply (validateFields_again row); [exact Hnd | reflexivity | exact Hv].
Qed.

(** ** Columns of type REAL *)

Lemma insertMany_invalid_row (H : Host) (ctx : TableCtx) (rows : list (Obj JsVal))
      (row : Obj JsVal) (e : Error) (w : World) :
  In row rows -> validateRow ctx row = inl e ->
  exists e', insertMany H ctx rows w = Err e' w.
Proof.
  intros Hrows He. unfold insertMany.
  destruct rows as [|r0 rows0]; [contradiction|]. cbn [nonempty negb].
  set (f := fun row0 => match validateRow ctx row0 with
                        | inl err => inl err
                        | inr validated => buildInsertStmt H ctx validated
                        end).
  assert (Hf : f row = inl e) by (unfold f; now rewrite He).
  destruct (mapE_In_fail f (r0 :: rows0) row e Hrows Hf) as [e' He'].
  exists e'. unfold bind, lift. rewrite He'. reflexivity.
Qed.

(** X11. No value can be written to or matched against a REAL column: for a
    value that is neither null nor undefined, [validateRow] throws, so an
    insert of any rows that include such a row writes nothing, and [prep]
    throws Unsupported column type, so [update], [delete] and
    [findByKeyValue] cannot prepare an object that holds it. *)
Theorem X11_REAL_values_are_refused
        (H : Host) (ctx : TableCtx) (k : string) (spec : ColumnSpecNorm) (v : JsVal) :
  obj_get (columns ctx) k = Some spec ->
  cs_type spec = REAL ->
  is_null v = false ->
  is_undefined v = false ->
  (forall row, obj_get row k = Some v ->
               (exists e, validateRow ctx row = inl e)
               /\ forall rows w, In row rows ->
                                 exists e, insertMany H ctx rows w = Err e w)
  /\ prep H ctx k v = inl (EUnsupportedColumnType REAL)
  /\ forall o, obj_get o k = Some v -> exists e, prepAll H ctx o = inl e.
Proof.
  intros Hg Ht Hn Hu.
  assert (Hprep : prep H ctx k v = inl (EUnsupportedColumnType REAL)).
  { unfold prep. now rewrite Hg, Hn, Ht. }
  split; [|split; [exact Hprep|]].
  - intros row Hrow.
    assert (Hfail : exists e, validateRow ctx row = inl e).
    { unfold validateRow, typedEntries.
      apply (validateFields_fail row (columns ctx) [] k spec (EUnsupportedColumnType REAL)).
      - now apply obj_get_In.
      - intros vr1. unfold validateField. now rewrite Hrow, Hu, Hn, Ht. }
    split; [exact Hfail|]. intros rows w Hin. destruct Hfail as [e He].
    now apply (insertMany_invalid_row H ctx rows row e w).
  - intros o Ho. unfold prepAll.
    apply (mapE_In_fail _ _ k (EUnsupportedColumnType REAL)).
    + now apply (obj_get_keys_In _ _ v).
    + unfold prop. now rewrite Ho.
Qed.

Lemma colDef_fails (H : Host) (e : string * ColumnSpecNorm) :
  (real_default e = true -> colDef H e = inl (EUnsupportedColumnType REAL))
  /\ (real_default e = false -> exists d, colDef H e = inr d).
Proof.
  destruct e as [k s]. unfold real_default, colDef, formatDefault. cbn [snd].
  destruct (is_undefined (cs_default s)); cbn [negb andb].
  - split; [destruct (cs_type s); discriminate | intros _; eexists; reflexivity].
  - destruct (is_null (cs_default s)); cbn [negb].
    + split; [destruct (cs_type s); discriminate | intros _; eexists; reflexivity].
    + destruct (cs_type s); split; try discriminate; try reflexivity;
        intros _; eexists; reflexivity.
Qed.

Lemma mapE_first_error {A B} (f : A -> Error + B) (l : list A) (e : Error) :
  mapE f l = inl e -> exists a, In a l /\ f a = inl e.
Proof.
  induction l as [|x l IH]; simpl; [discriminate|].
  destruct (f x) as [e0|b] eqn:Ex.
  - intros [= <-]. exists x. split; [now left | exact Ex].
  - destruct (mapE f l) as [e1|bs]; [|discriminate].
    intros [= <-]. destruct (IH eq_refl) as [a [Hin Ha]]. exists a. split; [now right | exact Ha].
Qed.

(** X12. Rendering the column definitions throws exactly when a REAL column
    declares a default other than null, [formatDefault] having no case for
    REAL: then [createTable] and [rebuildPreserveData] throw Unsupported
    column type before any statement runs.  In every other case the
    definitions are rendered, one per declared column and in their order. *)
Theorem X12_schema_rendering_fails_exactly_on_REAL_defaults (H : Host) (ctx : TableCtx) :
  (existsb real_default (columns ctx) = true ->
   colDefs H (columns ctx) = inl (EUnsupportedColumnType REAL)
   /\ forall w, createTable H ctx w = Err (EUnsupportedColumnType REAL) w
                /\ rebuildPreserveData H ctx w = Err (EUnsupportedColumnType REAL) w)
  /\ (existsb real_default (columns ctx) = false ->
      exists defs, colDefs H (columns ctx) = inr defs
                   /\ map cd_name defs = obj_keys (columns ctx)).
Proof.
  split.
  - intros Hbad. apply existsb_exists in Hbad. destruct Hbad as [e0 [Hin Hreal]].
    assert (Hdefs : colDefs H (columns ctx) = inl (EUnsupportedColumnType REAL)).
    { unfold colDefs, typedEntries.
      destruct (mapE_In_fail (colDef H) (columns ctx) e0 _ Hin
                             (proj1 (colDef_fails H e0) Hreal)) as [e' He'].
      rewrite He'. f_equal.
      destruct (mapE_first_error _ _ _ He') as [a [_ Ha]].
      destruct (real_default a) eqn:Er.
      - rewrite (proj1 (colDef_fails H a) Er) in Ha. congruence.
      - destruct (proj2 (colDef_fails H a) Er) as [d Hd]. congruence. }
    split; [exact Hdefs|]. intros w. split.
    + unfold createTable, bind, lift. now rewrite Hdefs.
    + unfold rebuildPreserveData, bind, lift. now rewrite Hdefs.
  - intros Hgood.
    assert (Hall : forall a, In a (columns ctx) -> exists d, colDef H a = inr d).
    { intros a Hin. apply (proj2 (colDef_fails H a)).
      destruct (real_default a) eqn:Er; [|reflexivity].
      assert (existsb real_default (columns ctx) = true)
        by (apply existsb_exists; now exists a).
      congruence. }
    destruct (mapE_total _ _ Hall) as [defs Hdefs].
    exists defs. split; [exact Hdefs|]. now apply (colDefs_names H).
Qed.

(** ** Creating the table twice *)

(** X13. [createTable] is idempotent: running it twice is running it once,
    on every store and for every Declared Schema.  Where the table exists
    already it succeeds and leaves the store as it was, whatever the
    layout of the table is. *)
Theorem X13_createTable_is_idempotent (H : Host) (ctx : TableCtx) (w : World) :
  (createTable H ctx ;;; createTable H ctx) w = createTable H ctx w
  /\ (forall t defs,
         find_table (w_db w) (tableName ctx) = Some t ->
         colDefs H (columns ctx) = inr defs ->
         createTable H ctx w = Ok tt w).
Proof.
  assert (Hexists : forall w0 t defs,
             find_table (w_db w0) (tableName ctx) = Some t ->
             colDefs H (columns ctx) = inr defs ->
             createTable H ctx w0 = Ok tt w0).
  { intros w0 t defs Hf Hd. unfold createTable, bind, lift. rewrite Hd. cbn [ret].
    unfold runTxn. cbn [exec_all exec]. unfold create_table. rewrite Hf.
    now rewrite with_db_same. }
  split; [|apply Hexists].
  unfold bind at 1.
  destruct (createTable H ctx w) as [[] w1|e w1] eqn:Ec; [|reflexivity].
  unfold createTable, bind, lift in Ec.
  destruct (colDefs H (columns ctx)) as [e|defs] eqn:Ed; [discriminate|].
  cbn [ret] in Ec. unfold runTxn in Ec. cbn [exec_all exec] in Ec.
  destruct (create_table true (tableName ctx) (pkDef :: defs) (w_db w)) as [db'|] eqn:Ect;
    [|discriminate].
  injection Ec as <-.
  unfold create_table in Ect.
  destruct (find_table (w_db w) (tableName ctx)) as [t|] eqn:Ef.
  - injection Ect as <-. rewrite with_db_same. now apply (Hexists w t defs).
  - destruct (nonempty (pkDef :: defs) && distinct_ci (map cd_name (pkDef :: defs)));
      [|discriminate].
    injection Ect as <-.
    apply (Hexists _ (new_table (pkDef :: defs)) defs); [|reflexivity].
    cbn [with_db w_db]. now apply find_table_appended.
Qed.

(** ** Batches of statements *)




(** ** Inserting many rows *)

Lemma mapE_In_inv {A B} (f : A -> Error + B) (l : list A) (l' : list B) (b : B) :
  mapE f l = inr l' -> In b l' -> exists a, In a l /\ f a = inr b.
Proof.
  revert l'. induction l as [|x l IH]; simpl; intros l' Hm Hin.
  - injection Hm as <-. contradiction.
  - destruct (f x) as [e|b0] eqn:Ex; [discriminate|].
    destruct (mapE f l) as [e|bs]; [discriminate|].
    injection Hm as <-. destruct Hin as [<-|Hin].
    + exists x. split; [now left | exact Ex].
    + destruct (IH bs eq_refl Hin) as [a [Ha Hf]]. exists a. split; [now right | exact Hf].
Qed.

Lemma buildInsertStmt_into (H : Host) (ctx : TableCtx) (vr : Obj JsVal) (stmt : Stmt) :
  buildInsertStmt H ctx vr = inr stmt -> is_insert_into (tableName ctx) stmt = true.
Proof.
  unfold buildInsertStmt. destruct (negb (nonempty (obj_keys vr))).
  - intros [= <-]. apply String.eqb_refl.
  - destruct (mapE _ (obj_keys vr)); [discriminate|]. intros [= <-]. apply String.eqb_refl.
Qed.

Lemma exec_insert_into (H : Host) (T : string) (s : Stmt) (db db' : Db) :
  is_insert_into T s = true -> exec H s db = Some db' ->
  exists t r, find_table db T = Some t
              /\ exists t', find_table db' T = Some t'
                            /\ t_defs t' = t_defs t
                            /\ t_rows t' = t_rows t ++ [r].
Proof.
  intros Hs He.
  assert (Hrow : forall t given t', insert_row H t given = Some t' ->
                                    t_defs t' = t_defs t
                                    /\ exists r, t_rows t' = t_rows t ++ [r]).
  { intros t given t' Hi. unfold insert_row in Hi.
    destruct (forallb _ given); [|discriminate].
    destruct (_ && _); [|discriminate].
    injection Hi as <-. split; [reflexivity|]. eexists. reflexivity. }
  destruct s; try discriminate; cbn [is_insert_into] in Hs;
    apply String.eqb_eq in Hs; subst; cbn [exec] in He.
  - unfold insert_values in He.
    destruct (find_table db T) as [t|] eqn:Ef; [|discriminate].
    destruct (length cols =? length vals)%nat; [|discriminate].
    destruct (insert_row H t _) as [t'|] eqn:Ei; [|discriminate].
    injection He as <-. destruct (Hrow _ _ _ Ei) as [Hd [r Hr]].
    exists t, r. split; [reflexivity|]. exists t'.
    split; [now apply (find_set_table_same db T t' t) | now split].
  - unfold insert_defaults in He.
    destruct (find_table db T) as [t|] eqn:Ef; [|discriminate].
    destruct (insert_row H t _) as [t'|] eqn:Ei; [|discriminate].
    injection He as <-. destruct (Hrow _ _ _ Ei) as [Hd [r Hr]].
    exists t, r. split; [reflexivity|]. exists t'.
    split; [now apply (find_set_table_same db T t' t) | now split].
Qed.

Lemma exec_all_inserts (H : Host) (T : string) (stmts : list Stmt) :
  forall db db',
    Forall (fun s => is_insert_into T s = true) stmts ->
    exec_all H stmts db = Some db' ->
    stmts <> [] ->
    exists t t' news,
      find_table db T = Some t
      /\ find_table db' T = Some t'
      /\ t_defs t' = t_defs t
      /\ t_rows t' = t_rows t ++ news
      /\ length news = length stmts.
Proof.
  induction stmts as [|s stmts IH]; intros db db' Hall He Hne; [contradiction|].
  inversion Hall as [|? ? Hs Hall']; subst. cbn [exec_all] in He.
  destruct (exec H s db) as [db1|] eqn:Es; [|discriminate].
  destruct (exec_insert_into H T s db db1 Hs Es) as [t [r [Hf [t1 [Hf1 [Hd1 Hr1]]]]]].
  destruct stmts as [|s2 stmts2].
  - cbn [exec_all] in He. injection He as <-.
    exists t, t1, [r]. now repeat split.
  - destruct (IH db1 db' Hall' He ltac:(discriminate))
      as [t1' [t' [news [Hf1' [Hf' [Hd' [Hr' Hlen]]]]]]].
    rewrite Hf1 in Hf1'. injection Hf1' as <-.
    exists t, t', (r :: news). split; [exact Hf|]. split; [exact Hf'|].
    split; [congruence|]. split.
    + rewrite Hr', Hr1, <- app_assoc. reflexivity.
    + cbn [length]. now rewrite Hlen.
Qed.

(** X15. [insertMany] inserts all the rows or none.  When it fails, by a
    row that does not validate or by a statement the engine rejects, the
    store is as it was.  When it succeeds, the table has kept its layout and
    its rows and holds one more row for every row given, after them; no
    other table has changed and no Registry call was made. *)
Theorem X15_insertMany_inserts_all_rows_or_none
        (H : Host) (ctx : TableCtx) (rows : list (Obj JsVal)) (w : World) :
  (forall e w', insertMany H ctx rows w = Err e w' -> w' = w)
  /\ (forall w', insertMany H ctx rows w = Ok tt w' ->
                 w_writes w' = w_writes w
                 /\ (forall t, t <> tableName ctx ->
                               find_table (w_db w') t = find_table (w_db w) t)
                 /\ (rows = [] -> w' = w)
                 /\ (rows <> [] ->
                     exists t t' news,
                       find_table (w_db w) (tableName ctx) = Some t
                       /\ find_table (w_db w') (tableName ctx) = Some t'
                       /\ t_defs t' = t_defs t
                       /\ t_rows t' = t_rows t ++ news
                       /\ length news = length rows)).
Proof.
  unfold insertMany.
  destruct rows as [|r0 rows0]; cbn [nonempty negb].
  { split; [discriminate|]. intros w' [= <-].
    split; [reflexivity|]. split; [reflexivity|]. split; [reflexivity|].
    intros Hn. now contradiction Hn. }
  set (f := fun row0 => match validateRow ctx row0 with
                        | inl err => inl err
                        | inr validated => buildInsertStmt H ctx validated
                        end).
  unfold bind, lift.
  destruct (mapE f (r0 :: rows0)) as [e|stmts] eqn:Em.
  { split; [now intros e0 w' [= _ <-] | discriminate]. }
  cbn [ret]. unfold runBatchTxn.
  destruct (exec_all H stmts (w_db w)) as [db'|] eqn:Ee.
  2:{ split; [now intros e0 w' [= _ <-] | discriminate]. }
  split; [discriminate|]. intros w' [= <-].
  assert (Hall : Forall (fun s => is_insert_into (tableName ctx) s = true) stmts).
  { apply Forall_forall. intros s Hin.
    destruct (mapE_In_inv _ _ _ _ Em Hin) as [row [_ Hf]]. unfold f in Hf.
    destruct (validateRow ctx row) as [e|vr]; [discriminate|].
    now apply (buildInsertStmt_into H ctx vr). }
  split; [reflexivity|]. split; [|split; [discriminate|]].
  - intros t Hne. cbn [with_db w_db].
    apply (exec_all_find_other H stmts); [|exact Ee].
    apply Forall_forall. intros s Hin.
    pose proof (proj1 (Forall_forall _ _) Hall s Hin) as Hs.
    destruct s; try discriminate; cbn [is_insert_into] in Hs;
      apply String.eqb_eq in Hs; subst; (split; [reflexivity|]);
      cbn [touches In]; intuition congruence.
  - intros _. cbn [with_db w_db].
    destruct (exec_all_inserts H (tableName ctx) stmts _ _ Hall Ee)
      as [t [t' [news [Hf [Hf' [Hd [Hr Hlen]]]]]]].
    { intros ->. apply mapE_length in Em. discriminate Em. }
    exists t, t', news. repeat split; try assumption.
    rewrite Hlen. now apply mapE_length in Em.
Qed.

(** ** The Registry calls of the Migration Runner *)

Lemma quiet_ret {A} (a : A) : quiet (ret a).
Proof. intros w. reflexivity. Qed.

Lemma quiet_throw {A} (e : Error) : quiet (@throw A e).
Proof. intros w. reflexivity. Qed.

Lemma quiet_bind {A B} (m : M A) (k : A -> M B) :
  quiet m -> (forall a, quiet (k a)) -> quiet (bind m k).
Proof.
  intros Hm Hk w. unfold bind. specialize (Hm w).
  destruct (m w) as [a w1|e w1]; cbn [world_of] in *; [|exact Hm].
  rewrite (Hk a w1). exact Hm.
Qed.

Lemma quiet_when (c : bool) (m : M unit) : quiet m -> quiet (when c m).
Proof. destruct c; [trivial | intros _; apply quiet_ret]. Qed.

Lemma quiet_lift {A} (x : Error + A) : quiet (lift x).
Proof. destruct x; [apply quiet_throw | apply quiet_ret]. Qed.

Lemma quiet_runNoTxn (H : Host) (s : Stmt) : quiet (runNoTxn H s).
Proof. intros w. unfold runNoTxn. now destruct (exec H s (w_db w)). Qed.

Lemma quiet_runTxn (H : Host) (s : Stmt) : quiet (runTxn H s).
Proof. intros w. unfold runTxn. now destruct (exec_all H [s] (w_db w)). Qed.

Lemma quiet_runBatchTxn (H : Host) (ss : list Stmt) : quiet (runBatchTxn H ss).
Proof. intros w. unfold runBatchTxn. now destruct (exec_all H ss (w_db w)). Qed.

Lemma quiet_runBatchNoTxn (H : Host) (ss : list Stmt) : quiet (runBatchNoTxn H ss).
Proof.
  induction ss as [|s ss IH]; cbn [runBatchNoTxn].
  - apply quiet_ret.
  - apply quiet_bind; [apply quiet_runNoTxn | intros _; exact IH].
Qed.

Lemma quiet_getExistingColumns (table : string) : quiet (getExistingColumns table).
Proof. intros w. reflexivity. Qed.

Lemma quiet_rebuildPreserveData (H : Host) (ctx : TableCtx) :
  quiet (rebuildPreserveData H ctx).
Proof.
  intros w. unfold rebuildPreserveData. cbv zeta.
  match goal with
  | |- context [world_of (?m w)] => assert (Hq : quiet m)
  end.
  { apply quiet_bind; [apply quiet_lift|].
    intros defs. apply quiet_bind; [apply quiet_getExistingColumns|].
    intros oldCols. apply quiet_runBatchTxn. }
  exact (Hq w).
Qed.

Lemma quiet_runCustom (H : Host) (ctx : TableCtx) (c : Custom) :
  quiet (runCustom (makeMigrationCtx H ctx) c).
Proof.
  induction c as [| msg | sql params k IH | stmts k IH | stmts k IH | k IH | k IH];
    cbn [runCustom makeMigrationCtx mc_run mc_applyTxn mc_applyNoTxn
                   mc_rebuildPreserveData mc_getExistingColumns].
  - apply quiet_ret.
  - apply quiet_throw.
  - apply quiet_bind; [apply quiet_runTxn | intros _; exact IH].
  - apply quiet_bind; [apply quiet_runBatchTxn | intros _; exact IH].
  - apply quiet_bind; [apply quiet_runBatchNoTxn | intros _; exact IH].
  - apply quiet_bind; [apply quiet_rebuildPreserveData | intros _; exact IH].
  - apply quiet_bind; [apply quiet_getExistingColumns | exact IH].
Qed.

Lemma quiet_stepPhases (H : Host) (ctx : TableCtx) (step : MigrationStep) :
  quiet (stepPhases H ctx step).
Proof.
  unfold stepPhases.
  apply quiet_bind; [apply quiet_when, quiet_runBatchNoTxn | intros _].
  apply quiet_bind; [apply quiet_when, quiet_rebuildPreserveData | intros _].
  apply quiet_bind; [apply quiet_when, quiet_runBatchTxn | intros _].
  apply quiet_bind; [| intros _; apply quiet_when, quiet_runBatchNoTxn].
  destruct (st_custom step); [apply quiet_runCustom | apply quiet_ret].
Qed.

(** The calls of one turn: none when a phase fails, else the one call that
    writes the version of the turn. *)
Lemma migrateTurn_calls (H : Host) (ctx : TableCtx) (steps : list MigrationStep)
      (next : Z) (w : World) :
  let r := migrateTurn H ctx steps next w in
  (w_writes (world_of r) = w_writes w /\ exists e w1, r = Err e w1)
  \/ exists c, w_writes (world_of r) = w_writes w ++ [c]
               /\ vw_table c = tableName ctx /\ vw_version c = next.
Proof.
  assert (Hgen : forall phases : M unit,
             quiet phases ->
             let r := (phases ;;; setTableVersion H (tableName ctx) next) w in
             (w_writes (world_of r) = w_writes w /\ exists e w1, r = Err e w1)
             \/ exists c, w_writes (world_of r) = w_writes w ++ [c]
                          /\ vw_table c = tableName ctx /\ vw_version c = next).
  { intros phases Hq. cbv zeta. unfold bind. specialize (Hq w).
    destruct (phases w) as [[] w1|e w1]; cbn [world_of] in *.
    - right.
      destruct (setTableVersion H (tableName ctx) next w1) as [[] w2|e w2] eqn:Es.
      + destruct (setTableVersion_Ok _ _ _ _ _ Es) as [_ [_ Hw]].
        eexists. cbn [world_of]. rewrite Hw, Hq. now repeat split.
      + destruct (setTableVersion_Err _ _ _ _ _ _ Es) as [_ Hw].
        eexists. cbn [world_of]. rewrite Hw, Hq. now repeat split.
    - left. split; [exact Hq | now exists e, w1]. }
  unfold migrateTurn. destruct (stepsByTo_get steps next) as [step|].
  - apply Hgen. apply quiet_stepPhases.
  - apply Hgen. apply quiet_rebuildPreserveData.
Qed.

(** X16. The Migration Runner writes the versions one at a time and in
    order.  Whatever the steps do, the Registry calls made by a run from
    [cur] to [target] are calls for the managed table that pass the versions
    [cur + 1], [cur + 2], ... in turn, with no version skipped and none
    written twice; a run that succeeds has written every version up to the
    target, a run that fails has stopped at the step that failed. *)
Theorem X16_runner_writes_each_version_in_turn
        (H : Host) (ctx : TableCtx) (ddl : DDLOption) (cur target : Z) (w : World) :
  exists n calls,
    (n <= Z.to_nat (target - cur))%nat
    /\ w_writes (world_of (migrateWithSteps H ctx ddl cur target w)) = w_writes w ++ calls
    /\ map vw_version calls = Zseq (cur + 1) n
    /\ Forall (fun c => vw_table c = tableName ctx) calls
    /\ (forall w', migrateWithSteps H ctx ddl cur target w = Ok tt w' ->
                   n = Z.to_nat (target - cur)).
Proof.
  remember (Z.to_nat (target - cur)) as fuel eqn:Hfuel. symmetry in Hfuel.
  revert cur w Hfuel.
  induction fuel as [|fuel IH]; intros cur w Hfuel.
  - rewrite migrateWithSteps_done by lia.
    exists 0%nat, []. cbn [world_of]. rewrite app_nil_r. now repeat split.
  - assert (Hlt : cur < target) by lia.
    rewrite migrateWithSteps_unfold by exact Hlt. unfold bind.
    pose proof (migrateTurn_calls H ctx (migrationSteps ddl) (cur + 1) w) as Hturn.
    cbv zeta in Hturn.
    destruct (migrateTurn H ctx (migrationSteps ddl) (cur + 1) w) as [[] w1|e w1] eqn:Et;
      cbn [world_of] in *.
    + destruct Hturn as [[_ [e [w2 Hbad]]]|[c [Hw [Hc1 Hc2]]]]; [discriminate|].
      destruct (IH (cur + 1) w1 ltac:(lia)) as [n [calls [Hn [Hws [Hvs [Hts Hok]]]]]].
      exists (S n), (c :: calls). split; [lia|]. split; [|split; [|split]].
      * rewrite Hws, Hw, <- app_assoc. reflexivity.
      * cbn [map Zseq]. now rewrite Hc2, Hvs.
      * now constructor.
      * intros w' Hr. f_equal. now apply (Hok w').
    + destruct Hturn as [[Hw _]|[c [Hw [Hc1 Hc2]]]].
      * exists 0%nat, []. split; [lia|]. rewrite app_nil_r.
        split; [exact Hw|]. split; [reflexivity|]. split; [constructor | discriminate].
      * exists 1%nat, [c]. split; [lia|]. split; [exact Hw|].
        split; [cbn [map Zseq]; now rewrite Hc2|]. split; [now repeat constructor | discriminate].
Qed.

(** ** The steps the runner consults *)

Lemma migrateLoop_steps_in_range (H : Host) (ctx : TableCtx) (ddl ddl' : DDLOption)
      (target : Z) (fuel : nat) :
  forall (cur : Z) (w : World),
    (forall v, cur < v <= target ->
               stepsByTo_get (migrationSteps ddl') v = stepsByTo_get (migrationSteps ddl) v) ->
    migrateLoop H (with_plan ctx ddl') (migrationSteps ddl') target fuel cur w
    = migrateLoop H (with_plan ctx ddl) (migrationSteps ddl) target fuel cur w.
Proof.
  induction fuel as [|fuel IH]; intros cur w Hsame; [reflexivity|].
  cbn [migrateLoop]. destruct (cur <? target) eqn:Elt; [|reflexivity].
  apply Z.ltb_lt in Elt. cbv zeta.
  assert (Hturn : migrateTurn H (with_plan ctx ddl') (migrationSteps ddl') (cur + 1)
                  = migrateTurn H (with_plan ctx ddl) (migrationSteps ddl) (cur + 1)).
  { unfold migrateTurn. rewrite Hsame by lia. reflexivity. }
  unfold bind. rewrite Hturn.
  destruct (migrateTurn H (with_plan ctx ddl) (migrationSteps ddl) (cur + 1) w);
    [|reflexivity].
  apply IH. intros v Hv. apply Hsame. lia.
Qed.

(** X17. A run of the Migration Runner from [cur] to [target] consults
    the declared steps only through the step that reaches each version
    between [cur + 1] and [target]: two plans that agree on those run
    alike.  Steps that reach a version at or below [cur] or above
    [target], and steps that a later step for the same version replaces,
    never run. *)
Theorem X17_runner_consults_only_the_steps_in_range
        (H : Host) (ctx : TableCtx) (ddl ddl' : DDLOption) (cur target : Z) (w : World) :
  (forall v, cur < v <= target ->
             stepsByTo_get (migrationSteps ddl') v = stepsByTo_get (migrationSteps ddl) v) ->
  migrateWithSteps H (with_plan ctx ddl') ddl' cur target w
  = migrateWithSteps H (with_plan ctx ddl) ddl cur target w.
Proof. intros Hsame. unfold migrateWithSteps. now apply migrateLoop_steps_in_range. Qed.

(** ** Plans that are not above the recorded version *)

(** X18. Plans whose target is not above the version the Registry holds
    for the table, that version not being 0, are ignored: each of them
    reconciles without running a statement or writing a version, and any
    sequence of such passes leaves the store as it was.  A lower target
    does not bring the recorded version down, and it is not reported. *)
Theorem X18_plans_not_above_the_recorded_version_are_ignored
        (H : Host) (T : string) (cur : Z) (ctxs : list TableCtx) (w : World) :
  getTableVersion T w = Ok cur w ->
  cur <> 0 ->
  Forall (fun ctx => tableName ctx = T
                     /\ exists ddl, ddlOption ctx = Some ddl /\ version ddl <= cur) ctxs ->
  Forall (fun ctx => reconcileSchema H ctx w = Ok tt w) ctxs
  /\ run_passes H ctxs w = w
  /\ tableVersion (w_db w) T = cur.
Proof.
  intros Hg Hnz Hall.
  assert (Hone : Forall (fun ctx => reconcileSchema H ctx w = Ok tt w) ctxs).
  { apply Forall_forall. intros ctx Hin.
    destruct (proj1 (Forall_forall _ _) Hall ctx Hin) as [HT [ddl [Hddl Hle]]].
    unfold reconcileSchema. rewrite Hddl, HT. rewrite (bind_Ok _ _ _ _ _ Hg).
    destruct (cur =? 0) eqn:E0; [apply Z.eqb_eq in E0; contradiction|].
    unfold bind, ret. cbv iota beta.
    destruct (cur <? version ddl) eqn:Elt; [apply Z.ltb_lt in Elt; lia | reflexivity]. }
  split; [exact Hone|]. split.
  - clear Hall. induction Hone as [|ctx ctxs Hctx Hrest IH]; cbn [run_passes]; [reflexivity|].
    rewrite Hctx. exact IH.
  - destruct (getTableVersion_Ok _ _ _ _ Hg) as [_ ->]. reflexivity.
Qed.

(** ** What a rebuild leaves alone, and what it drops *)

Lemma find_rename_old (db db' : Db) (old new : string) :
  rename_table old new db = Some db' -> old <> new -> find_table db' old = None.
Proof.
  unfold rename_table. destruct (find_table db old); [|discriminate].
  destruct (find_table db new); [discriminate|].
  intros [= <-] Hne. unfold find_table. simpl.
  induction (tables db) as [|[k v] l IH]; simpl; [reflexivity|].
  destruct (String.eqb k old) eqn:E; simpl.
  - destruct (String.eqb new old) eqn:E'; [|exact IH].
    apply String.eqb_eq in E'. congruence.
  - rewrite E. exact IH.
Qed.

Lemma create_table_indexes (ine : bool) (name : string) (defs : list ColDef) (db db' : Db) :
  create_table ine name defs db = Some db' -> indexes db' = indexes db.
Proof.
  unfold create_table. destruct (find_table db name).
  - destruct ine; [|discriminate]. now intros [= <-].
  - destruct (_ && _); [|discriminate]. now intros [= <-].
Qed.

Lemma insert_select_indexes (H : Host) (dst src : string) (cols : list string)
      (db db' : Db) :
  insert_select H dst cols src db = Some db' -> indexes db' = indexes db.
Proof.
  unfold insert_select. destruct (find_table db dst); [|discriminate].
  destruct (find_table db src); [|discriminate].
  destruct (forallb _ cols); [|discriminate].
  destruct (insert_rows _ _ _); [|discriminate].
  now intros [= <-].
Qed.

Lemma drop_table_indexes (name : string) (db db' : Db) :
  drop_table name db = Some db' ->
  indexes db' = filter (fun i => negb (String.eqb (ix_table i) name)) (indexes db).
Proof.
  unfold drop_table. destruct (find_table db name); [|discriminate]. now intros [= <-].
Qed.

Lemma rename_table_indexes (old new : string) (db db' : Db) :
  rename_table old new db = Some db' ->
  Forall (fun i => ix_table i <> old) (indexes db) ->
  indexes db' = indexes db.
Proof.
  unfold rename_table. destruct (find_table db old); [|discriminate].
  destruct (find_table db new); [discriminate|].
  intros [= <-] Hall. simpl.
  induction Hall as [|i l Hi Hall IH]; simpl; [reflexivity|].
  destruct (String.eqb (ix_table i) old) eqn:E.
  - apply String.eqb_eq in E. contradiction.
  - now rewrite IH.
Qed.

Lemma rebuild_exec_frame (H : Host) (T tmp : string) (defs : list ColDef)
      (copy : list string) (db db' : Db) :
  tmp <> T ->
  exec_all H (rebuildStmts T tmp defs copy) db = Some db' ->
  find_table db tmp = None
  /\ find_table db' tmp = None
  /\ (forall n, n <> T -> find_table db' n = find_table db n)
  /\ (Forall (fun i => ix_table i <> tmp) (indexes db) ->
      indexes db' = filter (fun i => negb (String.eqb (ix_table i) T)) (indexes db)).
Proof.
  intros Hne He.
  destruct (rebuild_exec_spec H T tmp defs copy db db' Hne He)
    as [told [tnew [_ [Htmp _]]]].
  assert (Hsteps : exists db2 db3,
             indexes db2 = indexes db
             /\ drop_table T db2 = Some db3
             /\ rename_table tmp T db3 = Some db').
  { revert He. unfold rebuildStmts. cbn [app exec_all exec].
    destruct (create_table false tmp defs db) as [db1|] eqn:E1; [|discriminate].
    pose proof (create_table_indexes _ _ _ _ _ E1) as Hi1.
    destruct (nonempty copy); cbn [app exec_all exec].
    - destruct (insert_select H tmp copy T db1) as [db2|] eqn:E2; [|discriminate].
      pose proof (insert_select_indexes _ _ _ _ _ _ E2) as Hi2.
      destruct (drop_table T db2) as [db3|] eqn:E3; [|discriminate].
      destruct (rename_table tmp T db3) as [db4|] eqn:E4; [|discriminate].
      intros [= <-]. exists db2, db3. split; [congruence | now split].
    - destruct (drop_table T db1) as [db3|] eqn:E3; [|discriminate].
      destruct (rename_table tmp T db3) as [db4|] eqn:E4; [|discriminate].
      intros [= <-]. exists db1, db3. split; [congruence | now split]. }
  destruct Hsteps as [db2 [db3 [Hi2 [E3 E4]]]].
  assert (Hgone : find_table db' tmp = None) by now apply (find_rename_old db3 db' tmp T).
  split; [exact Htmp|]. split; [exact Hgone|]. split.
  - intros n Hn. destruct (String.eqb n tmp) eqn:En.
    + apply String.eqb_eq in En. subst n. now rewrite Hgone, Htmp.
    + apply String.eqb_neq in En.
      apply (exec_all_find_other H (rebuildStmts T tmp defs copy)); [|exact He].
      unfold rebuildStmts.
      repeat (apply Forall_app; split);
        [| destruct (nonempty copy) |];
        repeat constructor; simpl; intuition congruence.
  - intros Hall.
    pose proof (drop_table_indexes _ _ _ E3) as Hi3. rewrite Hi2 in Hi3.
    rewrite (rename_table_indexes _ _ _ _ E4); [exact Hi3|].
    rewrite Hi3. apply Forall_forall. intros i Hin. apply filter_In in Hin.
    destruct Hin as [Hin _]. now apply (proj1 (Forall_forall _ _) Hall).
Qed.


(** X20. A rebuild does not carry the indexes of the table over: after it
    the store holds the indexes it held on other tables and none on the
    managed table.  The statements of the rebuild create no index, so an
    index on the managed table exists again only once a later statement of
    the plan creates it. *)
Theorem X20_rebuild_drops_the_indexes_of_the_table
        (H : Host) (ctx : TableCtx) (w w' : World) :
  indexes_on_tables (w_db w) ->
  rebuildPreserveData H ctx w = Ok tt w' ->
  indexes (w_db w')
  = filter (fun i => negb (String.eqb (ix_table i) (tableName ctx))) (indexes (w_db w))
  /\ Forall (fun i => ix_table i <> tableName ctx) (indexes (w_db w')).
Proof.
  intros Hwf Hr.
  destruct (rebuild_inv _ _ _ _ Hr) as [defs [db' [Hd [He ->]]]].
  destruct (rebuild_exec_frame H _ _ _ _ _ _ (tmpName_ne_table H ctx w) He)
    as [Hbefore [_ [_ Hidx]]].
  cbn [with_db w_db].
  assert (Hnone : Forall (fun i => ix_table i <> tmpName H ctx w) (indexes (w_db w))).
  { apply Forall_forall. intros i Hin Heq.
    apply (proj1 (Forall_forall _ _) Hwf i Hin). now rewrite Heq. }
  rewrite (Hidx Hnone). split; [reflexivity|].
  apply Forall_forall. intros i Hin. apply filter_In in Hin. destruct Hin as [_ Hi].
  intros Heq. rewrite Heq, String.eqb_refl in Hi. discriminate.
Qed.

(** ** Writing one version and reading the others *)

Lemma SqlVal_eqb_eq (a b : SqlVal) : SqlVal_eqb a b = true -> a = b.
Proof.
  destruct a, b; simpl; try discriminate; try reflexivity; intros E;
    try (apply String.eqb_eq in E; now subst).
  apply Z.eqb_eq in E. now subst.
Qed.

Lemma reg_match_exclusive (T T' : string) (r : Row) :
  T' <> T -> reg_match T' r = true -> reg_match T r = false.
Proof.
  unfold reg_match. intros Hne Hm. apply SqlVal_eqb_eq in Hm. rewrite Hm. simpl.
  now apply String.eqb_neq.
Qed.

Lemma reg_update_other (T T' : string) (version now : Z) (r : Row) :
  T' <> T ->
  reg_match T' (reg_update T version now r) = reg_match T' r
  /\ (reg_match T' r = true -> reg_update T version now r = r).
Proof.
  intros Hne. split.
  - unfold reg_update. destruct (reg_match T r); [|reflexivity].
    unfold reg_match, row_get. now rewrite !obj_get_set_other by discriminate.
  - intros Hm. unfold reg_update. now rewrite (reg_match_exclusive T T' r Hne Hm).
Qed.

Lemma reg_versions_other (T T' : string) (version now : Z) (rows : list Row) :
  T' <> T ->
  map (fun r => row_get r "version")
      (filter (reg_match T') (map (reg_update T version now) rows))
  = map (fun r => row_get r "version") (filter (reg_match T') rows).
Proof.
  intros Hne. induction rows as [|r rows IH]; [reflexivity|].
  cbn [map filter]. destruct (reg_update_other T T' version now r Hne) as [Hm Hsame].
  rewrite Hm. destruct (reg_match T' r) eqn:E; [|exact IH].
  cbn [map]. rewrite (Hsame eq_refl). now rewrite IH.
Qed.

Lemma upsert_version_other (H : Host) (T T' : string) (version now : Z) (db db' : Db) :
  upsert_version H T version now db = Some db' -> T' <> T ->
  select_version db' T' = select_version db T'.
Proof.
  unfold upsert_version. intros Hu Hne.
  destruct (find_table db REG_TABLE_NAME) as [t|] eqn:Ef; [|discriminate].
  destruct (includes (col_names t) "table_name") eqn:Hc1; [|discriminate].
  destruct (includes (col_names t) "version") eqn:Hc2; [|discriminate].
  destruct (includes (col_names t) "updated_at") eqn:Hc3; [|discriminate].
  cbn [andb] in Hu.
  change (fun r : Row => SqlVal_eqb (row_get r "table_name") (VText T))
    with (reg_match T) in Hu.
  unfold select_version. rewrite Ef.
  change (fun r : Row => SqlVal_eqb (row_get r "table_name") (VText T'))
    with (reg_match T').
  destruct (existsb (reg_match T) (t_rows t)) eqn:Hex.
  - injection Hu as <-. rewrite (find_set_table_same _ _ _ _ Ef).
    unfold col_names in *. cbn [t_defs t_rows]. rewrite Hc1, Hc2. cbn [andb].
    change (fun r : Row =>
              if SqlVal_eqb (row_get r "table_name") (VText T)
              then obj_set (obj_set r "version" (VInt version)) "updated_at" (VInt now)
              else r) with (reg_update T version now).
    f_equal. now apply reg_versions_other.
  - destruct (insert_row H t _) as [t'|] eqn:Ei; [|discriminate].
    injection Hu as <-. rewrite (find_set_table_same _ _ _ _ Ef).
    unfold insert_row in Ei. destruct (forallb _ _); [|discriminate].
    destruct (_ && _ && _); [|discriminate]. injection Ei as <-.
    unfold col_names in *. cbn [t_defs t_rows]. rewrite Hc1, Hc2. cbn [andb].
    f_equal. rewrite filter_app. cbn [filter].
    assert (Hnew : reg_match T' (new_row (t_seq t)
                                         [("table_name", VText T); ("version", VInt version);
                                          ("updated_at", VInt now)] (t_defs t)) = false).
    { unfold reg_match.
      rewrite (new_row_get_given _ _ _ "table_name" (VText T)) by
        (assumption || reflexivity).
      simpl. apply String.eqb_neq. congruence. }
    rewrite Hnew. now rewrite app_nil_r.
Qed.

(** X21. A version written to the Registry is the version read back for
    that table, and writing it changes the version of no other table and
    no table of the store other than the Registry's own.  A write that
    fails leaves the store as it was. *)
Theorem X21_version_written_is_version_read
        (H : Host) (T : string) (v : Z) (w : World) :
  (forall w', setTableVersion H T v w = Ok tt w' ->
              getTableVersion T w' = Ok v w'
              /\ (forall T', T' <> T ->
                             tableVersion (w_db w') T' = tableVersion (w_db w) T')
              /\ (forall t, t <> REG_TABLE_NAME ->
                            find_table (w_db w') t = find_table (w_db w) t))
  /\ (forall e w', setTableVersion H T v w = Err e w' -> w_db w' = w_db w).
Proof.
  split.
  - intros w' Hs. destruct (setTableVersion_Ok _ _ _ _ _ Hs) as [_ [Hget _]].
    split; [exact Hget|].
    unfold setTableVersion in Hs. cbn [exec_all exec] in Hs.
    destruct (upsert_version H T v (w_now w) (w_db w)) as [db'|] eqn:Eu; [|discriminate].
    injection Hs as <-. cbn [with_db w_db]. split.
    + intros T' Hne. unfold tableVersion.
      now rewrite (upsert_version_other H T T' v (w_now w) _ _ Eu Hne).
    + intros t Hne. apply (exec_find_other H (UpsertVersion T v (w_now w)));
        [reflexivity | simpl; intuition congruence | exact Eu].
  - intros e w' Hs. now destruct (setTableVersion_Err _ _ _ _ _ _ Hs).
Qed.

(** ** Reading rows back *)

Section Materialize.

Variable JSON_parse : string -> Error + JsVal.





Lemma materializeEntries_keys (ctx : TableCtx) (entries : list (string * JsVal)) :
  forall acc out,
    materializeEntries JSON_parse ctx acc entries = inr out ->
    forall k, In k (obj_keys out) -> In k (obj_keys acc) \/ In k (map fst entries).
Proof.
  induction entries as [|[k0 raw] entries IH]; cbn [materializeEntries map fst];
    intros acc out Hm k Hin.
  - injection Hm as <-. now left.
  - destruct (obj_get (columns ctx) k0) as [spec|]; [|discriminate].
    destruct (materializeValue JSON_parse spec raw) as [e|v]; [discriminate|].
    destruct (IH _ _ Hm k Hin) as [Hacc|Hrest].
    + apply obj_keys_set in Hacc. destruct Hacc as [->|Hacc]; [right; now left | now left].
    + right. now right.
Qed.

Lemma omit_no_key {V} (o : Obj V) (k : string) : ~ In k (obj_keys (omit o k)).
Proof.
  unfold omit, obj_keys. intros Hin. apply in_map_iff in Hin.
  destruct Hin as [[k' v] [Hk Hin]]. simpl in Hk. subst k'.
  apply filter_In in Hin. destruct Hin as [_ Hf]. simpl in Hf.
  now rewrite String.eqb_refl in Hf.
Qed.

Lemma materialize_omit_no_key (ctx : TableCtx) (item out : Obj JsVal) (k : string) :
  materialize JSON_parse ctx (omit item k) = inr out -> ~ In k (obj_keys out).
Proof.
  intros Hm Hin. unfold materialize, typedEntries in Hm.
  destruct (materializeEntries_keys ctx _ _ _ Hm k Hin) as [[]|Hk].
  now apply (omit_no_key item k).
Qed.

(** X23. The callback of [queryWithPK] builds what the callback of [query]
    builds, with the identity column added at the end of every row: the
    two throw on the same result sets, no row of [query] has the identity
    column, and every row of [queryWithPK] is the row of [query] followed by
    the identity the item holds (undefined when the statement did not
    select it). *)
Theorem X23_queryWithPK_is_query_with_the_identity_added
        (ctx : TableCtx) (items : list (Obj JsVal)) :
  queryWithPKRows JSON_parse ctx items
  = match queryRows JSON_parse ctx items with
    | inl e => inl e
    | inr rows =>
        inr (map (fun p => snd p ++ [(SQLITE_RESERVED_PRIMARY_KEY,
                                      prop (fst p) SQLITE_RESERVED_PRIMARY_KEY)])
                 (combine items rows))
    end
  /\ forall rows, queryRows JSON_parse ctx items = inr rows ->
                  length rows = length items
                  /\ Forall (fun r => ~ In SQLITE_RESERVED_PRIMARY_KEY (obj_keys r)) rows.
Proof.
  split.
  - unfold queryWithPKRows, queryRows.
    set (fq := fun item : Obj JsVal =>
                 materialize JSON_parse ctx (omit item SQLITE_RESERVED_PRIMARY_KEY)).
    change (mapE (fun item : Obj JsVal =>
                    match fq item with
                    | inl e => inl e
                    | inr mat =>
                        inr (obj_set mat SQLITE_RESERVED_PRIMARY_KEY
                                     (prop item SQLITE_RESERVED_PRIMARY_KEY))
                    end) items
            = match mapE fq items with
              | inl e => inl e
              | inr rows =>
                  inr (map (fun p => snd p ++ [(SQLITE_RESERVED_PRIMARY_KEY,
                                                prop (fst p) SQLITE_RESERVED_PRIMARY_KEY)])
                           (combine items rows))
              end).
    induction items as [|item items IH]; cbn [mapE combine map]; [reflexivity|].
    destruct (fq item) as [e|mat] eqn:Em; [reflexivity|].
    rewrite IH. destruct (mapE fq items) as [e|rows]; [reflexivity|].
    cbn [combine map fst snd]. do 2 f_equal.
    apply obj_set_fresh. now apply (materialize_omit_no_key ctx item).
  - intros rows Hq. split; [now apply mapE_length in Hq|].
    apply Forall_forall. intros r Hin.
    destruct (mapE_In_inv _ _ _ _ Hq Hin) as [item [_ Hm]].
    now apply (materialize_omit_no_key ctx item).
Qed.

End Materialize.

(** ** Writing a value and reading it back *)





(** ** The connection of a table object *)

(** X25. A failed open is not tried again until the object is closed.
    [open] stores the connection before it prepares the Registry and
    reconciles the schema, so when one of these fails the object is
    connected all the same: every later [open] returns at once and leaves
    the store untouched, and [insertMany] goes straight to its statements.
    After [close], [open] runs the whole sequence again. *)
Theorem X25_failed_open_is_not_retried_until_close
        (H : Host) (this : SQLiteTable) (w w1 : World) (e : Error) :
  this_db this = false ->
  open H (this_ctx this) w = Err e w1 ->
  let this1 := {| this_ctx := this_ctx this; this_db := true |} in
  SQLiteTable_open H true this w = (this1, Err e w1)
  /\ (forall connects w2, SQLiteTable_open H connects this1 w2 = (this1, Ok tt w2))
  /\ (forall connects rows w2,
         rows <> [] ->
         SQLiteTable_insertMany H connects rows this1 w2
         = (this1, insertMany H (this_ctx this) rows w2))
  /\ (forall w2,
         exists this2,
           SQLiteTable_close true this1 w2 = (this2, Ok tt w2)
           /\ this_db this2 = false
           /\ SQLiteTable_open H true this2 w2 = (this1, open H (this_ctx this) w2)).
Proof.
  intros Hdb Hopen this1. split; [|split; [|split]].
  - unfold SQLiteTable_open. rewrite Hdb, Hopen. reflexivity.
  - intros connects w2. reflexivity.
  - intros connects rows w2 Hrows. unfold SQLiteTable_insertMany.
    destruct rows as [|r rows]; [contradiction|]. reflexivity.
  - intros w2. eexists. split; [reflexivity|]. split; reflexivity.
Qed.

(** ** The layout check of legacy adoption *)

Lemma nodupb_NoDup (l : list string) : nodupb l = true -> NoDup l.
Proof.
  induction l as [|x l IH]; cbn [nodupb]; intros Hn; [constructor|].
  apply andb_prop in Hn. destruct Hn as [Hx Hl].
  constructor; [|now apply IH].
  intros Hin. apply includes_In in Hin. rewrite Hin in Hx. discriminate.
Qed.

Lemma sameLayout_identity (ctx : TableCtx) (legacyCols : list string) :
  In SQLITE_RESERVED_PRIMARY_KEY legacyCols ->
  distinct_ci (SQLITE_RESERVED_PRIMARY_KEY :: obj_keys (columns ctx)) = true ->
  sameLayout ctx legacyCols = false.
Proof.
  intros Hpk Hdist. destruct (sameLayout ctx legacyCols) eqn:Es; [|reflexivity].
  exfalso. unfold sameLayout, typedEntries in Es. cbv zeta in Es.
  apply andb_prop in Es. destruct Es as [Hlen Hall].
  apply Nat.eqb_eq in Hlen. rewrite length_map in Hlen.
  rewrite forallb_forall in Hall.
  unfold distinct_ci in Hdist. apply nodupb_NoDup in Hdist. cbn [map] in Hdist.
  assert (Hincl : incl (toLowerCase SQLITE_RESERVED_PRIMARY_KEY
                        :: map toLowerCase (obj_keys (columns ctx)))
                       (map toLowerCase legacyCols)).
  { intros x [<-|Hx].
    - now apply in_map.
    - apply includes_In. apply Hall. unfold obj_keys in Hx. rewrite map_map in Hx.
      exact Hx. }
  pose proof (NoDup_incl_length Hdist Hincl) as Hle.
  cbn [length] in Hle. rewrite !length_map in Hle. unfold obj_keys in Hle.
  rewrite length_map in Hle. lia.
Qed.

(** X26. The layout check of legacy adoption never passes for a table
    that has the reserved identity column: it compares the columns of the
    table, the identity column among them, with the declared columns, which
    cannot include it.  So a table the library itself created, adopted
    under a plan, is always rebuilt first, however well its layout fits
    the Declared Schema: the rebuild runs on the store as found, its
    failure fails the pass, and no pass succeeds without it. *)
Theorem X26_adoption_always_rebuilds_a_table_with_the_identity_column
        (H : Host) (ctx : TableCtx) (ddl : DDLOption) (w : World) :
  ddlOption ctx = Some ddl ->
  getTableVersion (tableName ctx) w = Ok 0 w ->
  In SQLITE_RESERVED_PRIMARY_KEY (table_info (w_db w) (tableName ctx)) ->
  distinct_ci (SQLITE_RESERVED_PRIMARY_KEY :: obj_keys (columns ctx)) = true ->
  sameLayout ctx (table_info (w_db w) (tableName ctx)) = false
  /\ (forall e w1, rebuildPreserveData H ctx w = Err e w1 ->
                   reconcileSchema H ctx w = Err e w1)
  /\ (forall w', reconcileSchema H ctx w = Ok tt w' ->
                 exists w1, rebuildPreserveData H ctx w = Ok tt w1).
Proof.
  intros Hddl Hg Hpk Hdist.
  pose proof (sameLayout_identity ctx _ Hpk Hdist) as Hsame.
  assert (Hcols : (0 <? length (table_info (w_db w) (tableName ctx)))%nat = true).
  { destruct (table_info (w_db w) (tableName ctx)); [contradiction | reflexivity]. }
  assert (Heq : forall k : bool -> M unit,
             (returned <- untrackedBranch H ctx ddl (version ddl) ;; k returned) w
             = (rebuildPreserveData H ctx ;;;
                returned <- (when (nonempty (afterCreateTxn ddl))
                                  (runBatchTxn H (afterCreateTxn ddl)) ;;;
                             if nonempty (afterCreateNoTxn ddl)
                             then runBatchNoTxn H (afterCreateNoTxn ddl) ;;;
                                  setTableVersion H (tableName ctx) (version ddl) ;;;
                                  ret true
                             else ret false) ;;
                k returned) w).
  { intros k. unfold untrackedBranch, getExistingColumns.
    unfold bind at 1 2. cbv beta iota zeta.
    rewrite Hcols, Hsame. cbn [negb when]. unfold bind.
    destruct (rebuildPreserveData H ctx w) as [[] w1|e w1]; reflexivity. }
  assert (Hrec : reconcileSchema H ctx w
                 = (rebuildPreserveData H ctx ;;;
                    returned <- (when (nonempty (afterCreateTxn ddl))
                                      (runBatchTxn H (afterCreateTxn ddl)) ;;;
                                 if nonempty (afterCreateNoTxn ddl)
                                 then runBatchNoTxn H (afterCreateNoTxn ddl) ;;;
                                      setTableVersion H (tableName ctx) (version ddl) ;;;
                                      ret true
                                 else ret false) ;;
                    if returned then ret tt
                    else when (0 <? version ddl)
                              (upgradeBranch H ctx ddl 0 (version ddl))) w).
  { unfold reconcileSchema. rewrite Hddl. cbv zeta.
    rewrite (bind_Ok _ _ _ _ _ Hg). cbn [Z.eqb]. apply Heq. }
  split; [exact Hsame|]. split.
  - intros e w1 Hr. rewrite Hrec. now rewrite (bind_Err _ _ _ _ _ Hr).
  - intros w' Hok. rewrite Hrec in Hok.
    apply bind_Ok_inv in Hok. destruct Hok as [[] [w1 [Hr _]]]. now exists w1.
Qed.

(** ** Reconciling again *)

Lemma createTable_again (H : Host) (ctx : TableCtx) (w w' : World) :
  createTable H ctx w = Ok tt w' -> createTable H ctx w' = Ok tt w'.
Proof.
  unfold createTable, bind, lift.
  destruct (colDefs H (columns ctx)) as [e|defs]; [discriminate|].
  cbn [ret]. unfold runTxn. cbn [exec_all exec].
  destruct (create_table true (tableName ctx) (pkDef :: defs) (w_db w)) as [db'|] eqn:Ec;
    [|discriminate].
  intros [= <-]. cbn [with_db w_db].
  assert (Hfound : exists t, find_table db' (tableName ctx) = Some t).
  { unfold create_table in Ec.
    destruct (find_table (w_db w) (tableName ctx)) as [t|] eqn:Ef.
    - injection Ec as <-. now exists t.
    - destruct (_ && _); [|discriminate]. injection Ec as <-.
      exists (new_table (pkDef :: defs)). now apply find_table_appended. }
  destruct Hfound as [t Ht]. unfold create_table. rewrite Ht. reflexivity.
Qed.

Lemma untrackedBranch_returned (H : Host) (ctx : TableCtx) (ddl : DDLOption)
      (target : Z) (w w1 : World) :
  untrackedBranch H ctx ddl target w = Ok true w1 ->
  getTableVersion (tableName ctx) w1 = Ok target w1.
Proof.
  unfold untrackedBranch. intros Hb.
  apply bind_Ok_inv in Hb. destruct Hb as [cols [w0 [_ Hb]]].
  destruct (negb (0 <? length cols)%nat).
  - do 4 bind_inv Hb. bind_inv Hb. injection Hb as <-.
    now destruct (setTableVersion_Ok _ _ _ _ _ Hstep3) as [_ [Hg _]].
  - do 2 bind_inv Hb. destruct (nonempty (afterCreateNoTxn ddl)); [|discriminate].
    do 2 bind_inv Hb. injection Hb as <-.
    now destruct (setTableVersion_Ok _ _ _ _ _ Hstep2) as [_ [Hg _]].
Qed.

(** X28. A reconciliation pass that succeeded is not repeated: run again
    on the store it left, it succeeds and changes nothing.  Under a plan
    with a positive target the store then records for the table a version
    that is at least the target. *)
Theorem X28_successful_reconciliation_is_a_fixpoint
        (H : Host) (ctx : TableCtx) (w w' : World) :
  match ddlOption ctx with
  | Some ddl => 0 < version ddl
  | None => True
  end ->
  reconcileSchema H ctx w = Ok tt w' ->
  reconcileSchema H ctx w' = Ok tt w'
  /\ match ddlOption ctx with
     | Some ddl => version ddl <= tableVersion (w_db w') (tableName ctx)
     | None => True
     end.
Proof.
  intros Hpos Hok.
  destruct (ddlOption ctx) as [ddl|] eqn:Hddl.
  - assert (Hsettled : forall v, version ddl <= v -> v <> 0 ->
                                 getTableVersion (tableName ctx) w' = Ok v w' ->
                                 reconcileSchema H ctx w' = Ok tt w'
                                 /\ version ddl <= tableVersion (w_db w') (tableName ctx)).
    { intros v Hle Hnz Hg. split.
      - unfold reconcileSchema. rewrite Hddl. rewrite (bind_Ok _ _ _ _ _ Hg).
        destruct (v =? 0) eqn:E0; [apply Z.eqb_eq in E0; contradiction|].
        unfold bind, ret. cbv iota beta.
        destruct (v <? version ddl) eqn:Elt; [apply Z.ltb_lt in Elt; lia | reflexivity].
      - destruct (getTableVersion_Ok _ _ _ _ Hg) as [_ ->]. exact Hle. }
    unfold reconcileSchema in Hok. rewrite Hddl in Hok. cbv zeta in Hok.
    apply bind_Ok_inv in Hok. destruct Hok as [cur [w0 [Hg Hok]]].
    destruct (getTableVersion_Ok _ _ _ _ Hg) as [-> Hcur].
    apply bind_Ok_inv in Hok. destruct Hok as [returned [w1 [Hbranch Hok]]].
    destruct (cur =? 0) eqn:E0.
    + destruct returned.
      * injection Hok as <-.
        apply (Hsettled (version ddl)); [lia | lia |].
        now apply (untrackedBranch_returned H ctx ddl _ w).
      * apply Z.eqb_eq in E0. subst cur.
        apply Z.ltb_lt in Hpos. rewrite Hpos in Hok. apply Z.ltb_lt in Hpos.
        cbn [when] in Hok.
        destruct (upgradeBranch_Ok_version H ctx ddl 0 (version ddl) _ _ Hpos Hok)
          as [_ Hg'].
        apply (Hsettled (version ddl)); [lia | lia | exact Hg'].
    + injection Hbranch as <- <-. apply Z.eqb_neq in E0.
      destruct (cur <? version ddl) eqn:Elt; cbn [when] in Hok.
      * apply Z.ltb_lt in Elt.
        destruct (upgradeBranch_Ok_version H ctx ddl cur (version ddl) _ _ Elt Hok)
          as [_ Hg'].
        apply (Hsettled (version ddl)); [lia | lia | exact Hg'].
      * injection Hok as <-. apply Z.ltb_ge in Elt.
        apply (Hsettled cur); [exact Elt | exact E0 | exact Hg].
  - split; [|exact I].
    unfold reconcileSchema in *. rewrite Hddl in *.
    unfold bind, getExistingColumns in *.
    destruct (table_info (w_db w) (tableName ctx)) as [|c cs] eqn:Ei;
      cbn [length Nat.eqb when] in Hok.
    + destruct (table_info (w_db w') (tableName ctx)); cbn [length Nat.eqb when].
      * now apply (createTable_again H ctx w w').
      * reflexivity.
    + injection Hok as <-. rewrite Ei. reflexivity.
Qed.

(** ** An untracked table and the migration steps *)

Lemma untrackedBranch_plan (H : Host) (ctx : TableCtx) (ddl ddl' : DDLOption) :
  version ddl' = version ddl ->
  beforeCreateNoTxn ddl' = beforeCreateNoTxn ddl ->
  afterCreateTxn ddl' = afterCreateTxn ddl ->
  afterCreateNoTxn ddl' = afterCreateNoTxn ddl ->
  untrackedBranch H (with_plan ctx ddl') ddl' (version ddl')
  = untrackedBranch H (with_plan ctx ddl) ddl (version ddl).
Proof.
  intros Hv Hb Ha Hn. unfold untrackedBranch. rewrite Hv, Hb, Ha, Hn. reflexivity.
Qed.

Lemma untrackedBranch_returns (H : Host) (ctx : TableCtx) (ddl : DDLOption)
      (target : Z) (w w1 : World) :
  table_info (w_db w) (tableName ctx) = [] \/ afterCreateNoTxn ddl <> [] ->
  untrackedBranch H ctx ddl target w <> Ok false w1.
Proof.
  intros Hcase Hb. unfold untrackedBranch in Hb.
  apply bind_Ok_inv in Hb. destruct Hb as [cols [w0 [Hc Hb]]].
  unfold getExistingColumns in Hc. injection Hc as <- <-.
  destruct (negb (0 <? length (table_info (w_db w) (tableName ctx)))%nat) eqn:El.
  - do 4 bind_inv Hb. bind_inv Hb. discriminate Hb.
  - do 2 bind_inv Hb. destruct (nonempty (afterCreateNoTxn ddl)) eqn:En.
    + do 2 bind_inv Hb. discriminate Hb.
    + destruct Hcase as [Hnone|Hafter].
      * rewrite Hnone in El. discriminate El.
      * destruct (afterCreateNoTxn ddl); [now contradiction Hafter | discriminate En].
Qed.

(** X29. An untracked table is brought straight to the target version.
    When the Registry holds no version for the table and either the table
    does not exist or the plan has an after-create-no-transaction batch, the
    pass does not consult the migration steps: plans that differ in their
    steps only reconcile alike, and a pass that succeeds has recorded the
    target. *)
Theorem X29_untracked_table_goes_straight_to_the_target
        (H : Host) (ctx : TableCtx) (ddl ddl' : DDLOption) (w : World) :
  version ddl' = version ddl ->
  beforeCreateNoTxn ddl' = beforeCreateNoTxn ddl ->
  afterCreateTxn ddl' = afterCreateTxn ddl ->
  afterCreateNoTxn ddl' = afterCreateNoTxn ddl ->
  getTableVersion (tableName ctx) w = Ok 0 w ->
  table_info (w_db w) (tableName ctx) = [] \/ afterCreateNoTxn ddl <> [] ->
  reconcileSchema H (with_plan ctx ddl') w = reconcileSchema H (with_plan ctx ddl) w
  /\ forall w', reconcileSchema H (with_plan ctx ddl) w = Ok tt w' ->
                getTableVersion (tableName ctx) w' = Ok (version ddl) w'.
Proof.
  intros Hv Hb Ha Hn Hg Hcase.
  assert (Hshape : forall d : DDLOption,
             afterCreateNoTxn d = afterCreateNoTxn ddl ->
             reconcileSchema H (with_plan ctx d) w
             = match untrackedBranch H (with_plan ctx d) d (version d) w with
               | Ok _ w1 => Ok tt w1
               | Err e w1 => Err e w1
               end).
  { intros d Hd. unfold reconcileSchema. cbn [with_plan ddlOption tableName]. cbv zeta.
    rewrite (bind_Ok _ _ _ _ _ Hg). cbn [Z.eqb]. unfold bind at 1.
    destruct (untrackedBranch H (with_plan ctx d) d (version d) w)
      as [[|] w1|e w1] eqn:Eb; try reflexivity.
    exfalso. apply (untrackedBranch_returns H (with_plan ctx d) d (version d) w w1);
      [|exact Eb].
    cbn [with_plan tableName]. rewrite Hd. exact Hcase. }
  split.
  - rewrite (Hshape ddl' Hn), (Hshape ddl eq_refl).
    now rewrite (untrackedBranch_plan H ctx ddl ddl' Hv Hb Ha Hn).
  - intros w' Hok. rewrite (Hshape ddl eq_refl) in Hok.
    destruct (untrackedBranch H (with_plan ctx ddl) ddl (version ddl) w)
      as [[|] w1|e w1] eqn:Eb; try discriminate.
    + injection Hok as <-.
      exact (untrackedBranch_returned H (with_plan ctx ddl) ddl _ w w1 Eb).
    + exfalso. apply (untrackedBranch_returns H (with_plan ctx ddl) ddl (version ddl) w w1);
        [exact Hcase | exact Eb].
Qed.

(** ** The reserved column in another case *)

Lemma distinct_ci_identity (keys : list string) (k : string) :
  In k keys -> toLowerCase k = SQLITE_RESERVED_PRIMARY_KEY ->
  distinct_ci (SQLITE_RESERVED_PRIMARY_KEY :: keys) = false.
Proof.
  intros Hin Hk. unfold distinct_ci. cbn [map nodupb].
  assert (Hinc : includes (map toLowerCase keys) (toLowerCase SQLITE_RESERVED_PRIMARY_KEY)
                 = true).
  { apply includes_In. change (toLowerCase SQLITE_RESERVED_PRIMARY_KEY)
      with SQLITE_RESERVED_PRIMARY_KEY. rewrite <- Hk. now apply in_map. }
  now rewrite Hinc.
Qed.

(** X30. The constructor refuses the reserved identity column by its exact
    name only.  Columns that declare it in another case pass the
    constructor, but the table can then be neither created nor rebuilt:
    the engine takes the column for a duplicate of the identity column, so
    [createTable] fails on every store that does not hold the table and
    [rebuildPreserveData] fails on every store, both leaving it as it was. *)
Theorem X30_identity_column_in_another_case_passes_the_constructor
        (H : Host) (name : string) (cols : ColumnMapInput) (ddl : option DDLOption)
        (k : string) :
  NoDup (obj_keys cols) ->
  In k (obj_keys cols) ->
  toLowerCase k = SQLITE_RESERVED_PRIMARY_KEY ->
  ~ In SQLITE_RESERVED_PRIMARY_KEY (obj_keys cols) ->
  exists this,
    newSQLiteTable name (Some cols) ddl = inr this
    /\ (forall w, find_table (w_db w) name = None ->
                  exists e, createTable H (this_ctx this) w = Err e w)
    /\ (forall w, exists e, rebuildPreserveData H (this_ctx this) w = Err e w).
Proof.
  intros Hnd Hin Hk Hres.
  assert (Hnorm : normalizeColumns cols
                  = map (fun e => (fst e, normalizeSpec (snd e))) cols).
  { unfold normalizeColumns, typedEntries. apply Object_fromEntries_NoDup.
    rewrite map_map. exact Hnd. }
  assert (Hkeys : obj_keys (normalizeColumns cols) = obj_keys cols).
  { rewrite Hnorm. unfold obj_keys. now rewrite map_map. }
  eexists. split.
  - unfold newSQLiteTable.
    destruct cols as [|c cols']; [contradiction|]. cbn [obj_keys map length Nat.eqb].
    destruct (obj_get (c :: cols') SQLITE_RESERVED_PRIMARY_KEY) eqn:Eg.
    + apply obj_get_keys_In in Eg. contradiction.
    + reflexivity.
  - cbn [this_ctx].
    assert (Hdup : forall defs,
               colDefs H (normalizeColumns cols) = inr defs ->
               distinct_ci (map cd_name (pkDef :: defs)) = false).
    { intros defs Hd. cbn [map pkDef cd_name].
      rewrite (colDefs_names H _ _ Hd), Hkeys.
      now apply (distinct_ci_identity _ k). }
    split.
    + intros w Hfind. unfold createTable, bind, lift. cbn [columns tableName].
      destruct (colDefs H (normalizeColumns cols)) as [e|defs] eqn:Ed;
        [now exists e|].
      cbn [ret]. unfold runTxn. cbn [exec_all exec]. unfold create_table.
      rewrite Hfind, (Hdup defs eq_refl), andb_false_r. eexists. reflexivity.
    + intros w. unfold rebuildPreserveData, bind, lift, getExistingColumns. cbv zeta.
      cbn [columns tableName].
      destruct (colDefs H (normalizeColumns cols)) as [e|defs] eqn:Ed;
        [now exists e|].
      cbn [ret]. unfold runBatchTxn, rebuildStmts. cbn [app exec_all exec].
      unfold create_table.
      destruct (find_table (w_db w) _); [eexists; reflexivity|].
      rewrite (Hdup defs eq_refl), andb_false_r. eexists. reflexivity.
Qed.

(** ** The further theorems at concrete inputs *)

Lemma X1_witness :
  starts_with dquote " = ?" = false
  /\ readQuoted dquote (q quotedName ++ " = ?")%string = Some (quotedName, " = ?").
Proof.
  split; [reflexivity|].
  exact (proj1 (X1_q_reads_back_as_one_identifier quotedName " = ?" eq_refl)).
Defined.

Lemma X2_witness :
  is_null quotedDefault = false
  /\ starts_with squote ")" = false
  /\ exists txt,
      formatDefaultText sampleHost TEXT quotedDefault = inr txt
      /\ readQuoted squote (txt ++ ")")%string
         = Some (js_String sampleHost quotedDefault, ")")
      /\ formatDefault sampleHost TEXT quotedDefault
         = inr (LitQuoted (js_String sampleHost quotedDefault)).
Proof.
  split; [reflexivity|]. split; [reflexivity|].
  exact (X2_formatDefault_renders_one_string_literal
           sampleHost TEXT quotedDefault ")" eq_refl (or_introl eq_refl) eq_refl).
Defined.


Lemma NoDup_ctxText : NoDup (obj_keys (columns ctxText)).
Proof. repeat constructor; simpl; intuition discriminate. Defined.

Lemma X8_witness :
  NoDup (obj_keys (columns ctxText))
  /\ In ("body", textSpec false JUndefined) (columns ctxText)
  /\ validateRow ctxText textRow = inr textValidated
  /\ obj_get textValidated "body" = Some (JStr "b")
  /\ well_typed (textSpec false JUndefined) (JStr "b") = true.
Proof.
  assert (Hin : In ("body", textSpec false JUndefined) (columns ctxText))
    by (simpl; tauto).
  split; [exact NoDup_ctxText|]. split; [exact Hin|].
  split; [reflexivity|]. split; [reflexivity|].
  exact (proj1 (X8_validated_values_fit_their_columns
                  ctxText textRow textValidated "body" _ (JStr "b")
                  NoDup_ctxText Hin eq_refl eq_refl)).
Defined.


Lemma X10_witness :
  NoDup (obj_keys (columns ctxText))
  /\ validateRow ctxText textRow = inr textValidated
  /\ validateRow ctxText textValidated = inr textValidated.
Proof.
  split; [exact NoDup_ctxText|]. split; [reflexivity|].
  exact (X10_validateRow_is_idempotent ctxText textRow textValidated
                                       NoDup_ctxText eq_refl).
Defined.

Lemma X11_witness :
  obj_get (columns ctxReal) "x"
  = Some {| cs_type := REAL; cs_nullable := true; cs_default := JUndefined;
            cs_unique := false; cs_check := None |}
  /\ prep sampleHost ctxReal "x" (JNonInt "1.5") = inl (EUnsupportedColumnType REAL)
  /\ exists e, validateRow ctxReal [("x", JNonInt "1.5")] = inl e.
Proof.
  split; [reflexivity|].
  destruct (X11_REAL_values_are_refused
              sampleHost ctxReal "x" _ (JNonInt "1.5") eq_refl eq_refl eq_refl eq_refl)
    as [Hrow [Hprep _]].
  split; [exact Hprep|].
  destruct (Hrow [("x", JNonInt "1.5")] eq_refl) as [Hfail _]. exact Hfail.
Defined.

Lemma X17_witness :
  (forall v, 1 < v <= 3 ->
             stepsByTo_get (migrationSteps planV3Extra) v
             = stepsByTo_get (migrationSteps planV3) v)
  /\ migrateWithSteps sampleHost (with_plan ctxV1 planV3Extra) planV3Extra 1 3 trackedWorld
     = migrateWithSteps sampleHost (with_plan ctxV1 planV3) planV3 1 3 trackedWorld.
Proof.
  assert (Hsame : forall v, 1 < v <= 3 ->
                            stepsByTo_get (migrationSteps planV3Extra) v
                            = stepsByTo_get (migrationSteps planV3) v).
  { intros v Hv. assert (Hcases : v = 2 \/ v = 3) by lia.
    destruct Hcases as [-> | ->]; reflexivity. }
  split; [exact Hsame|].
  exact (X17_runner_consults_only_the_steps_in_range
           sampleHost ctxV1 planV3 planV3Extra 1 3 trackedWorld Hsame).
Defined.

Lemma X18_witness :
  getTableVersion "t" migratedWorld = Ok 3 migratedWorld
  /\ reconcileSchema sampleHost ctxV1 migratedWorld = Ok tt migratedWorld
  /\ run_passes sampleHost [ctxV1; ctxV3; ctxV2Failing] migratedWorld = migratedWorld.
Proof.
  assert (Hall : Forall (fun ctx => tableName ctx = "t"
                                    /\ exists ddl, ddlOption ctx = Some ddl
                                                   /\ version ddl <= 3)
                        [ctxV1; ctxV3; ctxV2Failing]).
  { repeat constructor; eexists; (split; [reflexivity | simpl; lia]). }
  destruct (X18_plans_not_above_the_recorded_version_are_ignored
              sampleHost "t" 3 [ctxV1; ctxV3; ctxV2Failing] migratedWorld
              eq_refl ltac:(discriminate) Hall) as [Hone [Hrun _]].
  split; [reflexivity|]. split; [|exact Hrun].
  exact (Forall_inv Hone).
Defined.

Lemma X20_witness :
  indexes_on_tables (w_db indexedWorld)
  /\ rebuildPreserveData sampleHost ctxUnmanaged indexedWorld = Ok tt indexedRebuiltWorld
  /\ indexes (w_db indexedWorld) = [regIndex; indexA]
  /\ indexes (w_db indexedRebuiltWorld) = [regIndex].
Proof.
  assert (Hwf : indexes_on_tables (w_db indexedWorld))
    by (repeat constructor; discriminate).
  split; [exact Hwf|]. split; [reflexivity|]. split; [reflexivity|].
  exact (proj1 (X20_rebuild_drops_the_indexes_of_the_table
                  sampleHost ctxUnmanaged indexedWorld indexedRebuiltWorld Hwf eq_refl)).
Defined.


Lemma X25_witness :
  this_db failingTable = false
  /\ open sampleHost (this_ctx failingTable) trackedWorld
     = Err (ETransaction [Raw "FAIL" []]) failedOpenWorld
  /\ SQLiteTable_open sampleHost true failingTable trackedWorld
     = ({| this_ctx := ctxV2Failing; this_db := true |},
        Err (ETransaction [Raw "FAIL" []]) failedOpenWorld)
  /\ SQLiteTable_open sampleHost true {| this_ctx := ctxV2Failing; this_db := true |}
                      failedOpenWorld
     = ({| this_ctx := ctxV2Failing; this_db := true |}, Ok tt failedOpenWorld).
Proof.
  pose proof (X25_failed_open_is_not_retried_until_close
                sampleHost failingTable trackedWorld failedOpenWorld
                (ETransaction [Raw "FAIL" []]) eq_refl eq_refl) as HX.
  cbv zeta in HX. destruct HX as [Hopen [Hagain _]].
  split; [reflexivity|]. split; [reflexivity|]. split; [exact Hopen|].
  exact (Hagain true failedOpenWorld).
Defined.

Lemma X26_witness :
  ddlOption ctxV1 = Some planV1
  /\ getTableVersion "t" untrackedWorld = Ok 0 untrackedWorld
  /\ In SQLITE_RESERVED_PRIMARY_KEY (table_info (w_db untrackedWorld) "t")
  /\ sameLayout ctxV1 (table_info (w_db untrackedWorld) "t") = false
  /\ exists w1, rebuildPreserveData sampleHost ctxV1 untrackedWorld = Ok tt w1.
Proof.
  assert (Hpk : In SQLITE_RESERVED_PRIMARY_KEY (table_info (w_db untrackedWorld) "t"))
    by now left.
  destruct (X26_adoption_always_rebuilds_a_table_with_the_identity_column
              sampleHost ctxV1 planV1 untrackedWorld eq_refl eq_refl Hpk eq_refl)
    as [Hsame [_ Hran]].
  split; [reflexivity|]. split; [reflexivity|]. split; [exact Hpk|].
  split; [exact Hsame|].
  apply (Hran adoptedWorld). reflexivity.
Defined.


Lemma X28_witness :
  reconcileSchema sampleHost ctxV1 untrackedWorld = Ok tt adoptedWorld
  /\ reconcileSchema sampleHost ctxV1 adoptedWorld = Ok tt adoptedWorld
  /\ tableVersion (w_db adoptedWorld) "t" = 1.
Proof.
  assert (Hpos : match ddlOption ctxV1 with
                 | Some ddl => 0 < version ddl
                 | None => True
                 end) by reflexivity.
  split; [reflexivity|]. split; [|reflexivity].
  exact (proj1 (X28_successful_reconciliation_is_a_fixpoint
                  sampleHost ctxV1 untrackedWorld adoptedWorld Hpos eq_refl)).
Defined.

Lemma X29_witness :
  getTableVersion "t" metaWorld = Ok 0 metaWorld
  /\ table_info (w_db metaWorld) "t" = []
  /\ reconcileSchema sampleHost (with_plan ctxV1 planV1Steps) metaWorld
     = reconcileSchema sampleHost (with_plan ctxV1 planV1) metaWorld.
Proof.
  split; [reflexivity|]. split; [reflexivity|].
  exact (proj1 (X29_untracked_table_goes_straight_to_the_target
                  sampleHost ctxV1 planV1 planV1Steps metaWorld
                  eq_refl eq_refl eq_refl eq_refl eq_refl (or_introl eq_refl))).
Defined.

Lemma X30_witness :
  NoDup (obj_keys capitalColumns)
  /\ toLowerCase "ROW_ID" = SQLITE_RESERVED_PRIMARY_KEY
  /\ exists this,
      newSQLiteTable "t" (Some capitalColumns) None = inr this
      /\ exists e, createTable sampleHost (this_ctx this) metaWorld = Err e metaWorld.
Proof.
  assert (Hnd : NoDup (obj_keys capitalColumns)) by (repeat constructor; simpl; tauto).
  destruct (X30_identity_column_in_another_case_passes_the_constructor
              sampleHost "t" capitalColumns None "ROW_ID" Hnd (or_introl eq_refl) eq_refl
              ltac:(simpl; intuition discriminate))
    as [this [Hnew [Hcreate _]]].
  split; [exact Hnd|]. split; [reflexivity|].
  exists this. split; [exact Hnew|]. exact (Hcreate metaWorld eq_refl).
Defined.
